(** * The mirror verification crawler (utility/crawler.py), embedded in Rocq

    The per-host verification engine of the crawler is translated function by
    function.  Python objects become records, dictionaries whose iteration
    order matters become association lists, the statistics dictionary is a
    [gmap], exceptions are an inductive type carried by an outcome, and the
    mutable surroundings (network, clock, connection pool, catalog session)
    are threaded through a state monad.  Calls to [logger] are left out,
    except the statistics report of [report_stats]. *)

From Stdlib Require Import ZArith List String Ascii Bool Lia.
From stdpp Require Import base option list gmap strings.

Import ListNotations.
Local Open Scope string_scope.
Local Open Scope list_scope.
Local Open Scope Z_scope.

(** ** Python string operations used by the crawler *)

Module Py.

(** [s.startswith(p)] *)
Definition startswith (s p : string) : bool := String.prefix p s.

(** [s.endswith(p)] *)
Definition endswith (s p : string) : bool :=
  let n := String.length s in
  let k := String.length p in
  (k <=? n)%nat && String.eqb (String.substring (n - k) k s) p.

(** [s[n:]] *)
Definition slice_from (n : nat) (s : string) : string :=
  String.substring n (String.length s - n) s.

(** [s[:-1]] *)
Definition drop_last (s : string) : string :=
  String.substring 0 (String.length s - 1) s.

(** The characters [str.split()] treats as separators. *)
Definition is_space (a : ascii) : bool :=
  let n := nat_of_ascii a in
  ((9 <=? n) && (n <=? 13))%nat || (n =? 32)%nat.

(** [s.split()]: the maximal runs of non-blank characters of [s];
    [cur] is the run being read. *)
Fixpoint split_go (cur : string) (s : string) : list string :=
  match s with
  | EmptyString => if String.eqb cur "" then [] else [cur]
  | String a s' =>
      if is_space a
      then (if String.eqb cur "" then split_go "" s' else cur :: split_go "" s')
      else split_go (cur +:+ String a "") s'
  end.

Definition split (s : string) : list string := split_go "" s.

(** [s.split(c)] for a one-character separator: never empty. *)
Fixpoint split_on (c : ascii) (s : string) : list string :=
  match s with
  | EmptyString => [""]
  | String a s' =>
      if Ascii.eqb a c then "" :: split_on c s'
      else match split_on c s' with
           | h :: t => String a h :: t
           | [] => [String a ""]
           end
  end.

(** [sep.join(l)] *)
Definition join (sep : string) (l : list string) : string := String.concat sep l.

(** [os.path.join(a, b)] on POSIX. *)
Definition path_join (a b : string) : string :=
  if startswith b "/" then b
  else if String.eqb a "" || endswith a "/" then a +:+ b
  else a +:+ "/" +:+ b.

(** [sorted(l)] for strings: insertion sort, stable. *)
Fixpoint insert_sorted (x : string) (l : list string) : list string :=
  match l with
  | [] => [x]
  | y :: l' => if String.leb x y then x :: l else y :: insert_sorted x l'
  end.

Definition sorted (l : list string) : list string :=
  fold_right insert_sorted [] l.

End Py.

(** ** The catalog's data model *)

Module FileDetail.
Record t := { filename : string; sha256 : option string }.
End FileDetail.

Module Directory.
(** [files] maps a file name to its expected size, in the order in which the
    dictionary is iterated; [None] is Python's [None]. *)
Record t := {
  id : Z;
  name : string;
  readable : bool;
  files : option (list (string * string));
  fileDetails : list FileDetail.t
}.
End Directory.

Module Category.
Record t := { name : string; topdir : Directory.t }.
End Category.

Module HostCategory.
(** The rows of [hc.directories] live in the session (see [Session.t]); the
    collection is read from there through [host_category_id]. *)
Record t := {
  id : Z;
  category : Category.t;
  always_up2date : bool;
  urls : list string
}.
End HostCategory.

Module HostCategoryDir.
Record t := {
  host_category_id : Z;
  path : string;
  directory_id : option Z;
  directory : option Directory.t;
  up2date : option bool
}.
End HostCategoryDir.

Module Site.
Record t := { private : bool; user_active : bool; admin_active : bool }.
End Site.

Module Host.
Record t := {
  id : Z;
  name : string;
  private : bool;
  admin_active : bool;
  user_active : bool;
  site : Site.t;
  categories : list HostCategory.t
}.
End Host.

(** The one entry of the configuration the crawler's own code reads. *)
Module Config.
Record t := { crawler_send_email : bool }.
End Config.

Module Options.
Record t := {
  include_private : bool;
  threads : Z;
  timeout_minutes : Z;
  startid : Z;
  stopid : Z;
  categories : list string;
  canary : bool;
  debug : bool
}.
End Options.

(** Rows of the catalog are compared by identity; within one session that is
    equality of primary keys. *)
Definition same_directory (a b : Directory.t) : bool :=
  Directory.id a =? Directory.id b.

Definition same_host_category (a b : HostCategory.t) : bool :=
  HostCategory.id a =? HostCategory.id b.

(** ** Host selection ([doit]) *)

Definition crawl_wanted (options : Options.t) (host : Host.t) : bool :=
  negb (Host.id host <? Options.startid options) &&
  negb (Host.id host >=? Options.stopid options) &&
  negb (Host.admin_active host &&
        Host.user_active host &&
        Site.user_active (Host.site host) &&
        Site.admin_active (Host.site host)) &&
  negb (Site.private (Host.site host)).

(** The generator expression of [doit]; [mirrors] is what
    [get_mirrors(session, private=False)] returned. *)
Definition doit_hosts (options : Options.t) (mirrors : list Host.t) : list Host.t :=
  List.filter (crawl_wanted options) mirrors.

(** ** Method selection *)

(** The first element of [urls] with the given prefix: a [for] loop that
    stops at the first match. *)
Definition first_startswith (p : string) (urls : list string) : option string :=
  List.find (fun u => Py.startswith u p) urls.

(** The first loop of [method_pref]: it is left at once ([break]) when the
    previous choice was an rsync URL, and returns the first rsync URL
    otherwise. *)
Fixpoint rsync_loop (prev : string) (urls : list string) : option string :=
  match urls with
  | [] => None
  | u :: rest =>
      if Py.startswith prev "rsync:" then None
      else if Py.startswith u "rsync:" then Some u
      else rsync_loop prev rest
  end.

Definition method_pref (urls : list string) (prev : string) : option string :=
  match rsync_loop prev urls with
  | Some u => Some u
  | None =>
      match first_startswith "http:" urls with
      | Some u => Some u
      | None => first_startswith "ftp:" urls
      end
  end.

(** ** Exceptions, outcomes and the state monad *)

(** The exception classes the crawler raises or lets through. *)
Inductive exn :=
| TryLater
| ForbiddenExpected
| TimeoutException
| HTTPUnknown
| HTTP500
| error_perm (msg : string)
| error_temp (msg : string)
| EOFError
| socket_error
| KeyError (key : string)
| IndexError
| AttributeError
| URLGrabError.

(** What a call ends with.  [NoFuel] is the model's own: a recursion that is
    not structural carries a bound, and [NoFuel] says the bound was too small.
    No handler of the program sees it. *)
Inductive outcome (A : Type) :=
| Ret (a : A)
| Raise (e : exn)
| NoFuel.

Arguments Ret {A} a.
Arguments Raise {A} e.
Arguments NoFuel {A}.

Definition M (S A : Type) : Type := S -> outcome A * S.

Definition ret {S A} (a : A) : M S A := fun s => (Ret a, s).

Definition bind {S A B} (m : M S A) (k : A -> M S B) : M S B :=
  fun s =>
    match m s with
    | (Ret a, s') => k a s'
    | (Raise e, s') => (Raise e, s')
    | (NoFuel, s') => (NoFuel, s')
    end.

Definition raise {S A} (e : exn) : M S A := fun s => (Raise e, s).

Definition no_fuel {S A} : M S A := fun s => (NoFuel, s).

(** [try: m except e: h e]; a handler re-raises what it does not handle.
    Mutations made before the exception stay. *)
Definition try_except {S A} (m : M S A) (h : exn -> M S A) : M S A :=
  fun s =>
    match m s with
    | (Raise e, s') => h e s'
    | r => r
    end.

Definition get {S} : M S S := fun s => (Ret s, s).
Definition gets {S A} (f : S -> A) : M S A := fun s => (Ret (f s), s).
Definition modify {S} (f : S -> S) : M S unit := fun s => (Ret tt, f s).

(** Run a computation on one part of a larger state: [proj] reads the part,
    [put] writes it back. *)
Definition zoom {S T A} (proj : T -> S) (put : S -> T -> T) (m : M S A) : M T A :=
  fun t => let (r, s') := m (proj t) in (r, put s' t).

Declare Scope py_scope.
Delimit Scope py_scope with py.
Notation "x <- m ;; k" := (bind m (fun x => k))
  (at level 20, m at level 99, k at level 200, only parsing) : py_scope.
Notation "m ;; k" := (bind m (fun _ => k))
  (at level 100, k at level 200, right associativity, only parsing) : py_scope.
Local Open Scope py_scope.

(** [d[key]] on a Python list, [IndexError] out of range. *)
Definition index {S A} (l : list A) (i : nat) : M S A :=
  match l !! i with
  | Some x => ret x
  | None => raise IndexError
  end.

(** ** The surroundings of one worker *)

(** What the worker does to the outside, in order. *)
Inductive event :=
| EvHead (url : string)
| EvFtpList (url : string)
| EvRsync (url : string)
| EvUrlread (url : string)
| EvSleep (seconds : Z)
| EvEmail (host_name : string) (report : string)
| EvReportStats (numbers : list Z).

Inductive http_reply :=
| HttpOpenError
| HttpRequestError
| HttpNoResponse
| HttpResponse (status : Z) (content_length : option string)
               (location : option string) (keepalive_ok : bool).

Inductive ftp_reply :=
| FtpListing (lines : list string)
| FtpRaises (e : exn).

Inductive rsync_reply :=
| RsyncRaises
| RsyncReturns (result : Z) (listing : list string).

Module SplitResult.
Record t := {
  scheme : string;
  netloc : string;
  path : string;
  query : string;
  fragment : string
}.
End SplitResult.

(** The outside as the worker meets it.  Every interaction has a number (the
    [tick] of the world when it is made), so a remote side may answer the same
    request differently over time; the readings of [time.time()] are counted
    on their own (see [Timer.t]).
    - [clock n]: what the [n]-th call of [time.time()] returns, in seconds;
    - [utcnow n]: what [datetime.datetime.utcnow()] returns;
    - [http_head n url]: how the HEAD exchange for [url] goes: opening the
      connection, sending the request or reading the reply fails, or a reply
      arrives ([keepalive_ok] is what [myHTTPResponse.keepalive_ok] computes
      from its headers);
    - [ftp_list n url]: how [hostState.ftp_dir(url)] goes;
    - [rsync n url]: how [run_rsync(url, '--no-motd')] goes;
    - [urlread n url]: the body [urlgrabber.urlread] fetches, if it does;
    - [sha256_hexdigest], [urlsplit]: the library functions of these names. *)
Module Env.
Record t := {
  clock : nat -> Z;
  utcnow : nat -> Z;
  http_head : nat -> string -> http_reply;
  ftp_list : nat -> string -> ftp_reply;
  rsync : nat -> string -> rsync_reply;
  urlread : nat -> string -> option string;
  sha256_hexdigest : string -> string;
  urlsplit : string -> SplitResult.t
}.
End Env.

(** [class hostState]; the debug levels only make the libraries print. *)
Module HostState.
Record t := {
  httpconn : list string;
  ftpconn : list string;
  ftp_dir_results : option (list string);
  keepalives_available : bool
}.

Definition init : t :=
  {| httpconn := []; ftpconn := []; ftp_dir_results := None;
     keepalives_available := false |}.

Definition set_httpconn (v : list string) (h : t) : t :=
  {| httpconn := v; ftpconn := ftpconn h;
     ftp_dir_results := ftp_dir_results h;
     keepalives_available := keepalives_available h |}.

Definition set_ftpconn (v : list string) (h : t) : t :=
  {| httpconn := httpconn h; ftpconn := v;
     ftp_dir_results := ftp_dir_results h;
     keepalives_available := keepalives_available h |}.

Definition set_ftp_dir_results (v : option (list string)) (h : t) : t :=
  {| httpconn := httpconn h; ftpconn := ftpconn h;
     ftp_dir_results := v;
     keepalives_available := keepalives_available h |}.

Definition set_keepalives_available (v : bool) (h : t) : t :=
  {| httpconn := httpconn h; ftpconn := ftpconn h;
     ftp_dir_results := ftp_dir_results h;
     keepalives_available := v |}.
End HostState.

(** The world of one worker thread, as the probes see it: the count of
    interactions so far, their trace, and the host's connection state. *)
Module World.
Record t := {
  tick : nat;
  trace : list event;
  hoststate : HostState.t
}.

Definition init : t :=
  {| tick := 0; trace := []; hoststate := HostState.init |}.

Definition next (ev : list event) (w : t) : t :=
  {| tick := S (tick w); trace := trace w ++ ev; hoststate := hoststate w |}.

Definition set_hoststate (h : HostState.t) (w : t) : t :=
  {| tick := tick w; trace := trace w; hoststate := h |}.
End World.

(** The wall clock of one worker thread: what [time.time()] returned so far,
    oldest first, and [threadlocal.starttime]. *)
Module Timer.
Record t := {
  readings : list Z;
  starttime : Z
}.

Definition init : t := {| readings := []; starttime := 0 |}.

Definition read (now : Z) (tm : t) : t :=
  {| readings := readings tm ++ [now]; starttime := starttime tm |}.

Definition set_starttime (v : Z) (tm : t) : t :=
  {| readings := readings tm; starttime := v |}.
End Timer.

(** The catalog session of one worker.  [hcds] are the HostCategoryDir rows
    known to the session; a row is an object, named by its position, and
    rows are appended, never removed.  [added] lists the rows handed to
    [session.add], [commits] counts [session.commit()].  [lastCrawled] and
    [not_up2date] are the two attributes of the crawled host that the crawler
    writes. *)
Module Session.
Record t := {
  hosts : list Host.t;
  directories : list Directory.t;
  hcds : list HostCategoryDir.t;
  added : list nat;
  commits : nat;
  closed : bool;
  lastCrawled : option Z;
  not_up2date : bool
}.

Definition set_hcds (v : list HostCategoryDir.t) (s : t) : t :=
  {| hosts := hosts s; directories := directories s; hcds := v;
     added := added s; commits := commits s; closed := closed s;
     lastCrawled := lastCrawled s; not_up2date := not_up2date s |}.

Definition set_added (v : list nat) (s : t) : t :=
  {| hosts := hosts s; directories := directories s; hcds := hcds s;
     added := v; commits := commits s; closed := closed s;
     lastCrawled := lastCrawled s; not_up2date := not_up2date s |}.

Definition set_commits (v : nat) (s : t) : t :=
  {| hosts := hosts s; directories := directories s; hcds := hcds s;
     added := added s; commits := v; closed := closed s;
     lastCrawled := lastCrawled s; not_up2date := not_up2date s |}.

Definition set_closed (v : bool) (s : t) : t :=
  {| hosts := hosts s; directories := directories s; hcds := hcds s;
     added := added s; commits := commits s; closed := v;
     lastCrawled := lastCrawled s; not_up2date := not_up2date s |}.

Definition set_lastCrawled (v : option Z) (s : t) : t :=
  {| hosts := hosts s; directories := directories s; hcds := hcds s;
     added := added s; commits := commits s; closed := closed s;
     lastCrawled := v; not_up2date := not_up2date s |}.

Definition set_not_up2date (v : bool) (s : t) : t :=
  {| hosts := hosts s; directories := directories s; hcds := hcds s;
     added := added s; commits := commits s; closed := closed s;
     lastCrawled := lastCrawled s; not_up2date := v |}.

(** [session.add(obj)] *)
Definition add (i : nat) : M t unit :=
  modify (fun s => set_added (added s ++ [i]) s).

(** [session.commit()] *)
Definition commit : M t unit :=
  modify (fun s => set_commits (S (commits s)) s).

(** [session.close()] *)
Definition close : M t unit := modify (set_closed true).
End Session.

(** All of it: what the walker and the worker run in. *)
Module State.
Record t := {
  world : World.t;
  timer : Timer.t;
  session : Session.t
}.

Definition set_world (w : World.t) (st : t) : t :=
  {| world := w; timer := timer st; session := session st |}.

Definition set_timer (v : Timer.t) (st : t) : t :=
  {| world := world st; timer := v; session := session st |}.

Definition set_session (s : Session.t) (st : t) : t :=
  {| world := world st; timer := timer st; session := s |}.
End State.

(** The monad of the probes (they see neither the clock nor the session) and
    the monad of the walker, with the three ways into it. *)
Abbreviation W := (M World.t).
Abbreviation C := (M State.t).

Definition in_world {A} (m : W A) : C A :=
  zoom State.world State.set_world m.

Definition in_timer {A} (m : M Timer.t A) : C A :=
  zoom State.timer State.set_timer m.

Definition in_session {A} (m : M Session.t A) : C A :=
  zoom State.session State.set_session m.

Section Crawler.

Variable E : Env.t.

(** ** Talking to the outside *)

(** One interaction: it is answered from its number, leaves [ev] in the
    trace, and moves the count on. *)
Definition interact {A} (ev : list event) (answer : nat -> A) : W A :=
  fun w => (Ret (answer (World.tick w)), World.next ev w).

(** [time.time()] *)
Definition time_time : M Timer.t Z :=
  fun tm =>
    let now := Env.clock E (length (Timer.readings tm)) in
    (Ret now, Timer.read now tm).

(** [datetime.datetime.utcnow()] *)
Definition utcnow : W Z := interact [] (Env.utcnow E).

(** [time.sleep(seconds)] *)
Definition time_sleep (seconds : Z) : W unit :=
  interact [EvSleep seconds] (fun _ => tt).

Definition timeout_check (options : Options.t) : M Timer.t unit :=
  now <- time_time ;;
  start <- gets Timer.starttime ;;
  let delta := now - start in
  if delta >? Options.timeout_minutes options * 60
  then raise TimeoutException
  else ret tt.

(** ** hostState *)

Definition netloc_of (url : string) : string :=
  SplitResult.netloc (Env.urlsplit E url).

Definition has_key (k : string) (keys : list string) : bool :=
  existsb (String.eqb k) keys.

Definition del_key (k : string) (keys : list string) : list string :=
  List.filter (fun k' => negb (String.eqb k k')) keys.

Definition with_hoststate (f : HostState.t -> HostState.t) : W unit :=
  modify (fun w => World.set_hoststate (f (World.hoststate w)) w).

Definition open_http (url : string) : W unit :=
  let netloc := netloc_of url in
  with_hoststate (fun h =>
    if has_key netloc (HostState.httpconn h) then h
    else HostState.set_httpconn (HostState.httpconn h ++ [netloc]) h).

Definition _open_ftp (netloc : string) : W unit :=
  with_hoststate (fun h =>
    if has_key netloc (HostState.ftpconn h) then h
    else HostState.set_ftpconn (HostState.ftpconn h ++ [netloc]) h).

(** [hostState.ftp_dir]: the listing ends up in [ftp_dir_results], or the
    exception of the FTP library comes out. *)
Definition ftp_dir (url : string) : W unit :=
  _open_ftp (netloc_of url) ;;
  r <- interact [EvFtpList url] (fun n => Env.ftp_list E n url) ;;
  match r with
  | FtpListing lines =>
      with_hoststate (HostState.set_ftp_dir_results (Some lines))
  | FtpRaises e => raise e
  end.

Definition close_http (url : string) : W unit :=
  let netloc := netloc_of url in
  with_hoststate (fun h =>
    if has_key netloc (HostState.httpconn h)
    then HostState.set_httpconn (del_key netloc (HostState.httpconn h)) h
    else h).

Definition close_ftp (url : string) : W unit :=
  let netloc := netloc_of url in
  with_hoststate (fun h =>
    if has_key netloc (HostState.ftpconn h)
    then HostState.set_ftpconn (del_key netloc (HostState.ftpconn h)) h
    else h).

(** [for x in l: body x] without [break]. *)
Fixpoint for_each {S A} (l : list A) (body : A -> M S unit) : M S unit :=
  match l with
  | [] => ret tt
  | x :: l' => body x ;; for_each l' body
  end.

(** [hostState.close]: the keys of the two pools are handed to [close_http]
    and [close_ftp] as they are. *)
Definition hoststate_close : W unit :=
  keys <- gets (fun w => HostState.httpconn (World.hoststate w)) ;;
  for_each keys close_http ;;
  keys <- gets (fun w => HostState.ftpconn (World.hoststate w)) ;;
  for_each keys close_ftp.

(** ** The FTP probe's listing *)

(** [get_ftp_dir(hoststate, url, readable, i)]; [fuel] bounds the retries by
    recursion (see [get_ftp_dir] below).  The [return] after the [try] runs
    only when [ftp_dir] raised nothing, so it stands inside the protected
    part here. *)
Fixpoint get_ftp_dir_rec (fuel : nat) (url : string) (readable : bool) (i : Z)
  : W (option (list string)) :=
  match fuel with
  | O => no_fuel
  | S fuel' =>
      if i >? 1 then raise TryLater
      else
        try_except
          (ftp_dir url ;;
           gets (fun w => HostState.ftp_dir_results (World.hoststate w)))
          (fun e =>
             match e with
             | error_perm msg =>
                 if Py.startswith msg "550" then ret (Some [])
                 else if Py.startswith msg "553" then
                   (if readable then ret (Some []) else raise ForbiddenExpected)
                 else if Py.startswith msg "530" then
                   (close_ftp url ;;
                    get_ftp_dir_rec fuel' url readable (i + 1))
                 else if Py.startswith msg "500" then raise TryLater
                 else raise e
             | error_temp msg =>
                 if Py.startswith msg "450" then ret (Some [])
                 else if Py.startswith msg "421" then raise TryLater
                 else if Py.startswith msg "425" then raise TryLater
                 else raise e
             | EOFError | socket_error =>
                 close_ftp url ;;
                 get_ftp_dir_rec fuel' url readable (i + 1)
             | _ => raise e
             end)
  end.

(** The call [get_ftp_dir(hoststate, url, readable)], with [i = 0]: the
    recursion stops at [i = 2], three calls deep. *)
Definition get_ftp_dir (url : string) (readable : bool)
  : W (option (list string)) :=
  get_ftp_dir_rec 3 url readable 0.

(** [filedata] is the expected size, [filedata['size']] in the source. *)
Definition check_ftp_file (url : string) (filedata : string) (readable : bool)
  : W (option bool) :=
  let url := if Py.endswith url "/" then Py.drop_last url else url in
  r <- try_except
         (results <- get_ftp_dir url readable ;; ret (Some results))
         (fun e =>
            match e with
            | TryLater => raise TryLater
            | ForbiddenExpected => ret None
            | _ => raise e
            end) ;;
  match r with
  | None => ret None
  | Some None => ret None
  | Some (Some results) =>
      match results with
      | [first] =>
          size <- index (Py.split first) 4 ;;
          if String.eqb size filedata then ret (Some true)
          else ret (Some false)
      | _ => ret (Some false)
      end
  end.

(** ** The HTTP probe *)

(** [check_url], [handle_redirect] and [check_head] call each other; [fuel]
    bounds the depth of the calls (see [check_url] below). *)
Fixpoint check_url_rec (fuel : nat) (url : string) (filedata : string)
    (recursion : Z) (readable : bool) : W (option bool) :=
  match fuel with
  | O => no_fuel
  | S fuel' =>
      if Py.startswith url "http:" then
        check_head_rec fuel' url filedata recursion readable 0
      else if Py.startswith url "ftp:" then
        check_ftp_file url filedata readable
      else ret None
  end

with handle_redirect_rec (fuel : nat) (url : string) (location : option string)
    (filedata : string) (recursion : Z) (readable : bool) : W (option bool) :=
  match fuel with
  | O => no_fuel
  | S fuel' =>
      if recursion >? 10 then raise HTTPUnknown
      else
        match location with
        | None => raise AttributeError
        | Some location =>
            let location :=
              if Py.startswith location "/" then
                let parts := Env.urlsplit E url in
                SplitResult.scheme parts +:+ ":" +:+
                SplitResult.netloc parts +:+ location
              else location in
            check_url_rec fuel' location filedata (recursion + 1) readable
        end
  end

with check_head_rec (fuel : nat) (url : string) (filedata : string)
    (recursion : Z) (readable : bool) (retry : Z) : W (option bool) :=
  match fuel with
  | O => no_fuel
  | S fuel' =>
      reply <- gets (fun w => Env.http_head E (World.tick w) url) ;;
      match reply with
      | HttpOpenError => interact [] (fun _ => None)
      | HttpRequestError =>
          open_http url ;;
          interact [EvHead url] (fun _ => tt) ;;
          raise socket_error
      | HttpNoResponse =>
          open_http url ;;
          interact [EvHead url] (fun _ => tt) ;;
          if retry =? 0 then
            close_http url ;;
            check_head_rec fuel' url filedata recursion readable 1
          else raise HTTPUnknown
      | HttpResponse status content_length location keepalive_ok =>
          open_http url ;;
          interact [EvHead url] (fun _ => tt) ;;
          (if keepalive_ok
           then with_hoststate (HostState.set_keepalives_available true)
           else close_http url) ;;
          if (status >=? 200) && (status <? 300) then
            match content_length with
            | Some len => ret (Some (String.eqb filedata len))
            | None => ret (Some true)
            end
          else if (status >=? 300) && (status <? 400) then
            handle_redirect_rec fuel' url location filedata recursion readable
          else if (status >=? 400) && (status <? 500) then
            if status =? 403 then
              (if readable then ret (Some false) else raise ForbiddenExpected)
            else if (status =? 404) || (status =? 410) then ret (Some false)
            else ret None
          else if status >=? 500 then raise HTTP500
          else raise HTTPUnknown
      end
  end.

(** One round is [check_url], [check_head], [check_head] again (the retry)
    and [handle_redirect]; a check that starts at [recursion] makes one
    round, and one more for each redirect that [handle_redirect] lets
    through. *)
Definition fuel_for (recursion : Z) : nat :=
  (4 + 4 * Z.to_nat (11 - recursion))%nat.

Definition check_url (url : string) (filedata : string) (recursion : Z)
    (readable : bool) : W (option bool) :=
  check_url_rec (fuel_for recursion) url filedata recursion readable.

Definition handle_redirect (url : string) (location : option string)
    (filedata : string) (recursion : Z) (readable : bool) : W (option bool) :=
  handle_redirect_rec (fuel_for recursion) url location filedata recursion readable.

Definition check_head (url : string) (filedata : string) (recursion : Z)
    (readable : bool) (retry : Z) : W (option bool) :=
  check_head_rec (fuel_for recursion) url filedata recursion readable retry.

(** ** The verdict map

    [host_category_dirs]: a dictionary from [(hc, d)] to [True], [False] or
    [None], kept in the order in which the keys came in. *)

Definition verdicts : Type := list (HostCategory.t * Directory.t * option bool).

Definition same_key (hc : HostCategory.t) (d : Directory.t)
    (entry : HostCategory.t * Directory.t * option bool) : bool :=
  same_host_category hc (fst (fst entry)) && same_directory d (snd (fst entry)).

(** [(hc, d) in host_category_dirs] *)
Definition vm_mem (hc : HostCategory.t) (d : Directory.t) (m : verdicts) : bool :=
  existsb (same_key hc d) m.

(** [host_category_dirs[(hc, d)]], when the key is there *)
Definition vm_lookup (hc : HostCategory.t) (d : Directory.t) (m : verdicts)
  : option (option bool) :=
  match List.find (same_key hc d) m with
  | Some entry => Some (snd entry)
  | None => None
  end.

(** [host_category_dirs[(hc, d)] = v] *)
Fixpoint vm_set (hc : HostCategory.t) (d : Directory.t) (v : option bool)
    (m : verdicts) : verdicts :=
  match m with
  | [] => [(hc, d, v)]
  | entry :: m' =>
      if same_key hc d entry then (fst entry, v) :: m'
      else entry :: vm_set hc d v m'
  end.

(** ** Parent propagation *)

(** Modelled from the spec: [mirrormanager2.lib.get_directory_by_name] is not
    under src/; the spec gives it as [get_directory_by_name(name) ->
    Directory | null], the directory of the catalog with that name. *)
Definition get_directory_by_name (session : Session.t) (name : string)
  : option Directory.t :=
  List.find (fun d => String.eqb (Directory.name d) name)
            (Session.directories session).

Definition parent (session : Session.t) (directory : Directory.t)
  : option Directory.t :=
  let splitpath := Py.split_on "/" (Directory.name directory) in
  if (0 <? length (removelast splitpath))%nat then
    let parentPath := Py.join "/" (removelast splitpath) in
    get_directory_by_name session parentPath
  else None.

(** The ancestors [add_parents] reaches from [d]: the parent the catalog
    has for it, and from a parent that is not the category's top directory,
    that parent's ancestors in turn. *)
Inductive propagates_to (session : Session.t) (hc : HostCategory.t)
  : Directory.t -> Directory.t -> Prop :=
| propagates_parent d p :
    parent session d = Some p -> propagates_to session hc d p
| propagates_further d p a :
    parent session d = Some p ->
    same_directory p (Category.topdir (HostCategory.category hc)) = false ->
    propagates_to session hc p a ->
    propagates_to session hc d a.

(** [add_parents]; [fuel] bounds the recursion (see [add_parents] below);
    [None] says the bound was too small. *)
Fixpoint add_parents_rec (fuel : nat) (session : Session.t)
    (host_category_dirs : verdicts) (hc : HostCategory.t) (d : Directory.t)
  : option verdicts :=
  match fuel with
  | O => None
  | S fuel' =>
      match parent session d with
      | Some parentDir =>
          let host_category_dirs :=
            if negb (vm_mem hc parentDir host_category_dirs)
            then vm_set hc parentDir None host_category_dirs
            else host_category_dirs in
          if negb (same_directory parentDir
                     (Category.topdir (HostCategory.category hc)))
          then add_parents_rec fuel' session host_category_dirs hc parentDir
          else Some host_category_dirs
      | None => Some host_category_dirs
      end
  end.

(** The name of a parent is shorter than the name of its child, so the
    length of the name bounds the recursion. *)
Definition add_parents (host_category_dirs : verdicts) (hc : HostCategory.t)
    (d : Directory.t) : C verdicts :=
  fun st =>
    match add_parents_rec (S (String.length (Directory.name d)))
                          (State.session st) host_category_dirs hc d with
    | Some m => (Ret m, st)
    | None => (NoFuel, st)
    end.

(** ** The per-file and per-directory probes *)

Definition compare_sha256 (d : Directory.t) (filename graburl : string) : W bool :=
  r <- interact [EvUrlread graburl] (fun n => Env.urlread E n graburl) ;;
  match r with
  | None => raise URLGrabError
  | Some s =>
      let sha256 := Env.sha256_hexdigest E s in
      ret (existsb
             (fun fd =>
                String.eqb (FileDetail.filename fd) filename &&
                match FileDetail.sha256 fd with
                | Some h => String.eqb h sha256
                | None => false
                end)
             (Directory.fileDetails d))
  end.

(** [ftplib.all_errors]: [ftplib.Error], [IOError] and [EOFError] with their
    subclasses. *)
Definition ftplib_all_errors (e : exn) : bool :=
  match e with
  | error_perm _ | error_temp _ | EOFError | socket_error => true
  | _ => false
  end.

Definition is_false (v : option bool) : bool :=
  match v with Some false => true | _ => false end.

(** The loop of [try_per_file] over [d.files.keys()] and what follows it;
    [exists_] is the variable [exists]. *)
Fixpoint try_per_file_loop (d : Directory.t) (url : string)
    (files : list (string * string)) (exists_ : option bool) : W (option bool) :=
  match files with
  | [] =>
      match exists_ with
      | None => ret None
      | Some _ => ret (Some true)
      end
  | (filename, filedata) :: rest =>
      let graburl := url +:+ "/" +:+ filename in
      r <- try_except
             (exists_ <- check_url graburl filedata 0 (Directory.readable d) ;;
              ret (inl exists_))
             (fun e =>
                match e with
                | TryLater => raise TryLater
                | ForbiddenExpected => ret (inr None)
                | _ =>
                    if ftplib_all_errors e
                    then close_ftp url ;; ret (inr None)
                    else ret (inr None)
                end) ;;
      match r with
      | inr returned => ret returned
      | inl exists_ =>
          if is_false exists_ then ret (Some false)
          else if String.eqb filename "repomd.xml" then
            exists_ <- try_except
                         (found <- compare_sha256 d filename graburl ;;
                          ret (Some found))
                         (fun _ => ret exists_) ;;
            if is_false exists_ then ret (Some false)
            else try_per_file_loop d url rest exists_
          else try_per_file_loop d url rest exists_
      end
  end.

Definition try_per_file (d : Directory.t) (url : string) : W (option bool) :=
  match Directory.files d with
  | None => ret None
  | Some files => try_per_file_loop d url files None
  end.

(** The dictionary [results] of [try_per_dir]: file name to size. *)
Definition ftp_results (listing : list string) : gmap string string :=
  fold_left
    (fun results line =>
       if Py.startswith line "total" then results
       else
         let fields := Py.split line in
         match fields !! 4%nat, fields !! 8%nat with
         | Some size, Some name => <[name := size]> results
         | _, _ => results
         end)
    listing ∅.

Definition try_per_dir (d : Directory.t) (url : string) : W (option bool) :=
  match Directory.files d with
  | None => ret None
  | Some files =>
      if negb (Py.startswith url "ftp") then ret None
      else
        let url := if negb (Py.endswith url "/") then url +:+ "/" else url in
        listing <- get_ftp_dir url (Directory.readable d) ;;
        match listing with
        | None => ret None
        | Some [] => ret (Some false)
        | Some listing =>
            let results := ftp_results listing in
            ret (Some (forallb
                         (fun file =>
                            match results !! fst file with
                            | Some size => String.eqb size (snd file)
                            | None => false
                            end)
                         files))
        end
  end.

(** ** Failure reporting *)

(** [send_email]: nothing unless the configuration asks for mail; a failure
    of the transport is swallowed. *)
Definition send_email (config : Config.t) (host : Host.t) (report_str : string)
  : W unit :=
  if negb (Config.crawler_send_email config) then ret tt
  else interact [EvEmail (Host.name host) report_str] (fun _ => tt).

(** Modelled from the spec: [Host.set_not_up2date] is a method of
    [mirrormanager2.lib.model], not under src/; the spec names it the catalog's
    host-level mutator that marks the host not up to date. *)
Definition set_not_up2date : M Session.t unit :=
  modify (Session.set_not_up2date true).

Definition mark_not_up2date (config : Config.t) (host : Host.t) (reason : string)
  : C unit :=
  in_session set_not_up2date ;;
  now <- in_world utcnow ;;
  in_session (modify (Session.set_lastCrawled (Some now))) ;;
  let msg := "Host marked not up2date: " +:+ reason in
  in_world (send_email config host msg).

Definition no_hcds_reason : string :=
  "No host category directories found.  Check that your Host Category URLs are correct.".

(** ** The rsync probe *)

(** The dictionary [rsync] of [try_per_category]: name to (mode, size); the
    date and the time of an entry are never read.  [readline] ends the loop
    at the first empty line. *)
Fixpoint rsync_listing (listing : list string)
    (rsync : gmap string (string * string)) : gmap string (string * string) :=
  match listing with
  | [] => rsync
  | line :: rest =>
      if String.eqb line "" then rsync
      else
        let fields := Py.split line in
        match fields !! 0%nat, fields !! 1%nat, fields !! 2%nat,
              fields !! 3%nat, fields !! 4%nat with
        | Some mode, Some size, Some _, Some _, Some name =>
            rsync_listing rest (<[name := (mode, size)]> rsync)
        | _, _, _, _, _ => rsync_listing rest rsync
        end
  end.

(** The loop over [sorted(d.files.keys())]: [all_files]. *)
Definition rsync_all_files (rsync : gmap string (string * string))
    (name : string) (files : list (string * string)) : bool :=
  forallb
    (fun filename =>
       let key := if (String.length name =? 0)%nat then filename
                  else Py.path_join name filename in
       match rsync !! key, List.find (fun f => String.eqb (fst f) filename) files with
       | Some (mode, size), Some (_, expected) =>
           negb (negb (String.eqb size expected) && negb (Py.startswith mode "l"))
       | _, _ => false
       end)
    (Py.sorted (map fst files)).

(** [hc.directories]: the rows of the host category, as positions and as
    values. *)
Definition host_category_rows (session : Session.t) (hc : HostCategory.t)
  : list (nat * HostCategoryDir.t) :=
  List.filter
    (fun row => HostCategoryDir.host_category_id (snd row) =? HostCategory.id hc)
    (imap (fun i row => (i, row)) (Session.hcds session)).

(** The loop of [try_per_category] over [trydirs]. *)
Fixpoint rsync_dirs (options : Options.t) (rsync : gmap string (string * string))
    (categoryPrefixLen : nat) (hc : HostCategory.t)
    (trydirs : list HostCategoryDir.t) (host_category_dirs : verdicts)
  : C verdicts :=
  match trydirs with
  | [] => ret host_category_dirs
  | row :: rest =>
      let d := HostCategoryDir.directory row in
      in_timer (timeout_check options) ;;
      match d with
      | None => raise AttributeError
      | Some d =>
          if negb (Directory.readable d) then
            rsync_dirs options rsync categoryPrefixLen hc rest
                       (vm_set hc d None host_category_dirs)
          else
            let name := Py.slice_from categoryPrefixLen (Directory.name d) in
            match Directory.files d with
            | None => raise AttributeError
            | Some files =>
                if negb (rsync_all_files rsync name files) then
                  rsync_dirs options rsync categoryPrefixLen hc rest
                             (vm_set hc d (Some false) host_category_dirs)
                else
                  host_category_dirs <-
                    add_parents (vm_set hc d (Some true) host_category_dirs)
                                hc d ;;
                  rsync_dirs options rsync categoryPrefixLen hc rest
                             host_category_dirs
            end
      end
  end.

(** [try_per_category] returns [True], [False] or [None], and the dictionary
    it was given, as it left it. *)
Definition try_per_category (trydirs : list HostCategoryDir.t) (url : string)
    (host_category_dirs : verdicts) (hc : HostCategory.t) (host : Host.t)
    (categoryPrefixLen : nat) (options : Options.t) (config : Config.t)
  : C (option bool * verdicts) :=
  if negb (Py.startswith url "rsync") then ret (None, host_category_dirs)
  else
    let url := if negb (Py.endswith url "/") then url +:+ "/" else url in
    reply <- in_world (interact [EvRsync url] (fun n => Env.rsync E n url)) ;;
    match reply with
    | RsyncRaises => ret (Some false, host_category_dirs)
    | RsyncReturns result listing =>
        if result =? 10 then ret (Some false, host_category_dirs)
        else
          let rsync := rsync_listing listing ∅ in
          if (size rsync =? 0)%nat then ret (Some false, host_category_dirs)
          else
            host_category_dirs <-
              rsync_dirs options rsync categoryPrefixLen hc trydirs
                         host_category_dirs ;;
            if (0 <? length host_category_dirs)%nat
            then ret (Some true, host_category_dirs)
            else
              mark_not_up2date config host no_hcds_reason ;;
              ret (Some false, host_category_dirs)
    end.

(** ** Writing the verdicts back ([sync_hcds]) *)

(** [stats[key] += 1]: the key is read first. *)
Definition stats_incr {S} (key : string) (stats : gmap string Z)
  : M S (gmap string Z) :=
  match stats !! key with
  | Some n => ret (<[key := n + 1]> stats)
  | None => raise (KeyError key)
  end.

(** [stats[key]] *)
Definition stats_get {S} (key : string) (stats : gmap string Z) : M S Z :=
  match stats !! key with
  | Some n => ret n
  | None => raise (KeyError key)
  end.

(** The dictionary [stats] as [sync_hcds] first builds it. *)
Definition stats_init : gmap string Z :=
  <["deleted_on_master" := 0]>
  (<["newdir" := 0]>
  (<["unknown" := 0]>
  (<["unchanged" := 0]>
  (<["not_up2date" := 0]>
  (<["up2date" := 0]> ∅))))).

(** [report_stats]: the seven numbers read from [stats], logged in this
    order. *)
Definition report_stats (stats : gmap string Z) : W unit :=
  numkeys <- stats_get "numkeys" stats ;;
  up2date <- stats_get "up2date" stats ;;
  not_up2date <- stats_get "not_up2date" stats ;;
  unchanged <- stats_get "unchanged" stats ;;
  unknown <- stats_get "unknown" stats ;;
  newdir <- stats_get "newdir" stats ;;
  deleted_on_master <- stats_get "deleted_on_master" stats ;;
  interact [EvReportStats [numkeys; up2date; not_up2date; unchanged; unknown;
                           newdir; deleted_on_master]]
           (fun _ => tt).

(** [sorted(keys, key = lambda t: t[1].name)]: insertion sort, stable. *)
Fixpoint insert_by_name (entry : HostCategory.t * Directory.t * option bool)
    (l : verdicts) : verdicts :=
  match l with
  | [] => [entry]
  | y :: l' =>
      if String.leb (Directory.name (snd (fst entry)))
                    (Directory.name (snd (fst y)))
      then entry :: l
      else y :: insert_by_name entry l'
  end.

Definition sorted_by_name (m : verdicts) : verdicts :=
  fold_right insert_by_name [] m.

(** Modelled from the spec: [get_hostcategorydir_by_hostcategoryid_and_path]
    is a query of [mirrormanager2.lib], not under src/; the spec gives it as
    [(hc_id, path) -> [HCD]], the rows with that host category and path.
    Rows are returned as their positions in the session. *)
Definition get_hostcategorydir_by_hostcategoryid_and_path
    (session : Session.t) (host_category_id : Z) (path : string) : list nat :=
  map fst
    (List.filter
       (fun row =>
          (HostCategoryDir.host_category_id (snd row) =? host_category_id) &&
          String.eqb (HostCategoryDir.path (snd row)) path)
       (imap (fun i row => (i, row)) (Session.hcds session))).

Definition set_directory (d : Directory.t) (row : HostCategoryDir.t)
  : HostCategoryDir.t :=
  {| HostCategoryDir.host_category_id := HostCategoryDir.host_category_id row;
     HostCategoryDir.path := HostCategoryDir.path row;
     HostCategoryDir.directory_id := HostCategoryDir.directory_id row;
     HostCategoryDir.directory := Some d;
     HostCategoryDir.up2date := HostCategoryDir.up2date row |}.

Definition set_up2date (v : option bool) (row : HostCategoryDir.t)
  : HostCategoryDir.t :=
  {| HostCategoryDir.host_category_id := HostCategoryDir.host_category_id row;
     HostCategoryDir.path := HostCategoryDir.path row;
     HostCategoryDir.directory_id := HostCategoryDir.directory_id row;
     HostCategoryDir.directory := HostCategoryDir.directory row;
     HostCategoryDir.up2date := v |}.

(** Reading and writing the row at position [i]. *)
Definition row_at (i : nat) : M Session.t HostCategoryDir.t :=
  s <- get ;;
  match Session.hcds s !! i with
  | Some row => ret row
  | None => raise AttributeError
  end.

Definition update_row (i : nat) (f : HostCategoryDir.t -> HostCategoryDir.t)
  : M Session.t unit :=
  modify (fun s => Session.set_hcds (alter f i (Session.hcds s)) s).

(** [HostCategoryDir(host_category_id=.., path=.., directory_id=..)]: a new
    row, at the end. *)
Definition new_hcd (host_category_id : Z) (path : string) (directory_id : Z)
  : M Session.t nat :=
  s <- get ;;
  let row :=
    {| HostCategoryDir.host_category_id := host_category_id;
       HostCategoryDir.path := path;
       HostCategoryDir.directory_id := Some directory_id;
       HostCategoryDir.directory := None;
       HostCategoryDir.up2date := None |} in
  modify (Session.set_hcds (Session.hcds s ++ [row])) ;;
  ret (length (Session.hcds s)).

Definition option_bool_eqb (a b : option bool) : bool :=
  match a, b with
  | Some x, Some y => Bool.eqb x y
  | None, None => true
  | _, _ => false
  end.

(** What one round of the first loop of [sync_hcds] does once the row is at
    hand: from [if hcd.directory is None] to [current_hcds[hcd] = True]. *)
Definition sync_row (hcd : nat) (d : Directory.t) (up2date : bool)
    (stats : gmap string Z) (current_hcds : list nat)
  : M Session.t (gmap string Z * list nat) :=
  row <- row_at hcd ;;
  (match HostCategoryDir.directory row with
   | None => update_row hcd (set_directory d)
   | Some _ => ret tt
   end) ;;
  stats <-
    (if negb (option_bool_eqb (HostCategoryDir.up2date row) (Some up2date)) then
       update_row hcd (set_up2date (Some up2date)) ;;
       Session.add hcd ;;
       if negb up2date then stats_incr "not_up2date" stats
       else stats_incr "up2date" stats
     else stats_incr "unchanged" stats) ;;
  ret (stats, hcd :: current_hcds).

(** The first loop of [sync_hcds], over the sorted keys. *)
Fixpoint sync_keys (keys : verdicts) (host_category_dirs : verdicts)
    (stats : gmap string Z) (current_hcds : list nat)
  : M Session.t (gmap string Z * list nat) :=
  match keys with
  | [] => ret (stats, current_hcds)
  | (hc, d, _) :: rest =>
      match vm_lookup hc d host_category_dirs with
      | None => raise (KeyError "(hc, d)")
      | Some None =>
          stats <- stats_incr "unknown" stats ;;
          sync_keys rest host_category_dirs stats current_hcds
      | Some (Some up2date) =>
          let topname := Directory.name (Category.topdir (HostCategory.category hc)) in
          let path := Py.slice_from (String.length topname + 1) (Directory.name d) in
          session <- get ;;
          let hcd := get_hostcategorydir_by_hostcategoryid_and_path
                       session (HostCategory.id hc) path in
          match hcd with
          | hcd :: _ =>
              r <- sync_row hcd d up2date stats current_hcds ;;
              sync_keys rest host_category_dirs (fst r) (snd r)
          | [] =>
              if negb up2date
              then sync_keys rest host_category_dirs stats current_hcds
              else
                hcd <- new_hcd (HostCategory.id hc) path (Directory.id d) ;;
                stats <- stats_incr "newdir" stats ;;
                r <- sync_row hcd d up2date stats current_hcds ;;
                sync_keys rest host_category_dirs (fst r) (snd r)
          end
      end
  end.

(** The inner loop of the second pass: the rows of one host category. *)
Fixpoint sync_historical (rows : list nat) (current_hcds : list nat)
    (stats : gmap string Z) : M Session.t (gmap string Z) :=
  match rows with
  | [] => ret stats
  | hcd :: rest =>
      row <- row_at hcd ;;
      let unreadable :=
        match HostCategoryDir.directory row with
        | Some directory => negb (Directory.readable directory)
        | None => false
        end in
      if unreadable then
        stats <- stats_incr "unreadable" stats ;;
        sync_historical rest current_hcds stats
      else if negb (existsb (Nat.eqb hcd) current_hcds) then
        if negb (option_bool_eqb (HostCategoryDir.up2date row) (Some false)) then
          update_row hcd (set_up2date (Some false)) ;;
          Session.add hcd ;;
          stats <- stats_incr "deleted_on_master" stats ;;
          sync_historical rest current_hcds stats
        else sync_historical rest current_hcds stats
      else sync_historical rest current_hcds stats
  end.

(** The second pass, over [host.categories]. *)
Fixpoint sync_categories (categories : list HostCategory.t)
    (current_hcds : list nat) (stats : gmap string Z)
  : M Session.t (gmap string Z) :=
  match categories with
  | [] => ret stats
  | hc :: rest =>
      session <- get ;;
      stats <- sync_historical (map fst (host_category_rows session hc))
                               current_hcds stats ;;
      sync_categories rest current_hcds stats
  end.

Definition sync_hcds (host : Host.t) (host_category_dirs : verdicts) : C unit :=
  let stats := stats_init in
  now <- in_world utcnow ;;
  in_session (modify (Session.set_lastCrawled (Some now))) ;;
  let keys := sorted_by_name host_category_dirs in
  let stats := <["numkeys" := Z.of_nat (length keys)]> stats in
  r <- in_session (sync_keys keys host_category_dirs stats []) ;;
  stats <- in_session (sync_categories (Host.categories host) (snd r) (fst r)) ;;
  in_session Session.commit ;;
  in_world (report_stats stats).

(** ** The walker ([per_host]) *)

(** Modelled from the spec: [mirrormanager2.lib.get_host] is not under src/;
    the spec gives it as [get_host(id) -> Host]. *)
Definition get_host (session : Session.t) (host_id : Z) : option Host.t :=
  List.find (fun h => Host.id h =? host_id) (Session.hosts session).

(** Modelled from the spec: [get_host_category_by_hostid_category] is a query
    of [mirrormanager2.lib], not under src/; the spec gives it as
    [(host_id, category) -> [HostCategory]], the host categories of that host
    whose category has that name. *)
Definition get_host_category_by_hostid_category (session : Session.t)
    (host_id : Z) (category : string) : list HostCategory.t :=
  match get_host session host_id with
  | Some host =>
      List.filter
        (fun hc => String.eqb (Category.name (HostCategory.category hc)) category)
        (Host.categories host)
  | None => []
  end.

(** What the list [result] of [select_host_categories_to_scan] holds: a
    HostCategory, or a list of them. *)
Inductive scan_item :=
| ItemHostCategory (hc : HostCategory.t)
| ItemList (l : list HostCategory.t).

Definition select_host_categories_to_scan (session : Session.t)
    (options : Options.t) (host : Host.t) : list scan_item :=
  match Options.categories options with
  | _ :: _ =>
      flat_map
        (fun category =>
           let hc := get_host_category_by_hostid_category
                       session (Host.id host) category in
           map (fun entry => ItemList hc) hc)
        (Options.categories options)
  | [] => map ItemHostCategory (Host.categories host)
  end.

(** [categoryUrl.startswith(p)], where [categoryUrl] may be [None]. *)
Definition url_startswith {S} (categoryUrl : option string) (p : string)
  : M S bool :=
  match categoryUrl with
  | Some url => ret (Py.startswith url p)
  | None => raise AttributeError
  end.

(** ['%s/%s' % (categoryUrl, dirname)] *)
Definition dir_url (categoryUrl : option string) (dirname : string) : string :=
  match categoryUrl with
  | Some url => url +:+ "/" +:+ dirname
  | None => "None/" +:+ dirname
  end.

Definition unhandled_reason : string :=
  "Unhandled exception raised.  This is a bug in the MM crawler.".

(** The protected part of one round of the directory loop: the two probes
    and the entry they lead to. *)
Definition probe_dir (hc : HostCategory.t) (d : Directory.t) (url : string)
    (host_category_dirs : verdicts) : C verdicts :=
  has_all_files <- in_world (try_per_dir d url) ;;
  has_all_files <-
    (match has_all_files with
     | None => in_world (try_per_file d url)
     | Some _ => ret has_all_files
     end) ;;
  match has_all_files with
  | Some false => ret (vm_set hc d (Some false) host_category_dirs)
  | Some true =>
      add_parents (vm_set hc d (Some true) host_category_dirs) hc d
  | None => ret host_category_dirs
  end.

(** [if try_later_delay < 8: try_later_delay = try_later_delay << 1] *)
Definition backoff (try_later_delay : Z) : Z :=
  if try_later_delay <? 8 then Z.shiftl try_later_delay 1
  else try_later_delay.

(** The directory loop of [per_host]: it ends with the dictionary and with
    [rc], which is [1] when the loop was left by [break]. *)
Fixpoint walk_dirs (options : Options.t) (config : Config.t) (host : Host.t)
    (hc : HostCategory.t) (categoryUrl : option string)
    (categoryPrefixLen : nat) (trydirs : list HostCategoryDir.t)
    (try_later_delay : Z) (host_category_dirs : verdicts) (rc : Z)
  : C (verdicts * Z) :=
  match trydirs with
  | [] => ret (host_category_dirs, rc)
  | row :: rest =>
      in_timer (timeout_check options) ;;
      match HostCategoryDir.directory row with
      | None => raise AttributeError
      | Some d =>
          if negb (Directory.readable d) then
            walk_dirs options config host hc categoryUrl categoryPrefixLen
                      rest try_later_delay host_category_dirs rc
          else if Options.canary options &&
                  negb (Py.endswith (Directory.name d) "/repodata" ||
                        Py.endswith (Directory.name d) "/iso") then
            walk_dirs options config host hc categoryUrl categoryPrefixLen
                      rest try_later_delay host_category_dirs rc
          else
            let dirname := Py.slice_from categoryPrefixLen (Directory.name d) in
            let url := dir_url categoryUrl dirname in
            r <- try_except
                   (m <- probe_dir hc d url host_category_dirs ;;
                    ret (Some (m, try_later_delay)))
                   (fun e =>
                      match e with
                      | TryLater =>
                          url_startswith categoryUrl "http" ;;
                          in_world (time_sleep try_later_delay) ;;
                          ret (Some (host_category_dirs,
                                     backoff try_later_delay))
                      | _ =>
                          mark_not_up2date config host unhandled_reason ;;
                          ret None
                      end) ;;
            match r with
            | Some (host_category_dirs, try_later_delay) =>
                walk_dirs options config host hc categoryUrl categoryPrefixLen
                          rest try_later_delay host_category_dirs rc
            | None => ret (host_category_dirs, 1)
            end
      end
  end.

(** The loop of [per_host] over [host_categories_to_scan]. *)
Fixpoint walk_categories (options : Options.t) (config : Config.t)
    (host : Host.t) (host_categories_to_scan : list scan_item)
    (host_category_dirs : verdicts) (rc : Z) : C (verdicts * Z) :=
  match host_categories_to_scan with
  | [] => ret (host_category_dirs, rc)
  | ItemList _ :: _ => raise AttributeError
  | ItemHostCategory hc :: rest =>
      if HostCategory.always_up2date hc then
        walk_categories options config host rest host_category_dirs rc
      else
        let category := HostCategory.category hc in
        let host_category_urls := HostCategory.urls hc in
        match method_pref host_category_urls "" with
        | None => walk_categories options config host rest host_category_dirs rc
        | Some categoryUrl =>
            let categoryPrefixLen :=
              (String.length (Directory.name (Category.topdir category)) + 1)%nat in
            session <- gets State.session ;;
            let trydirs := map snd (host_category_rows session hc) in
            r <- try_per_category trydirs categoryUrl host_category_dirs hc
                                  host categoryPrefixLen options config ;;
            let host_category_dirs := snd r in
            match fst r with
            | Some _ =>
                walk_categories options config host rest host_category_dirs rc
            | None =>
                let categoryUrl := method_pref host_category_urls categoryUrl in
                r <- walk_dirs options config host hc categoryUrl
                               categoryPrefixLen trydirs 1 host_category_dirs rc ;;
                url_startswith categoryUrl "http" ;;
                walk_categories options config host rest (fst r) (snd r)
            end
        end
  end.

Definition per_host (host_id : Z) (options : Options.t) (config : Config.t)
  : C Z :=
  session <- gets State.session ;;
  match get_host session host_id with
  | None => raise AttributeError
  | Some host =>
      if Host.private host && negb (Options.include_private options) then ret 1
      else
        in_world (modify (World.set_hoststate HostState.init)) ;;
        let host_categories_to_scan :=
          select_host_categories_to_scan session options host in
        if (length host_categories_to_scan =? 0)%nat then
          mark_not_up2date config host no_hcds_reason ;;
          ret 1
        else
          r <- walk_categories options config host host_categories_to_scan [] 0 ;;
          in_world hoststate_close ;;
          let host_category_dirs := fst r in
          let rc := snd r in
          (if rc =? 0 then
             if (0 <? length host_category_dirs)%nat
             then sync_hcds host host_category_dirs
             else ret tt
           else ret tt) ;;
          ret rc
  end.

(** ** The worker of one host *)

Definition worker (options : Options.t) (config : Config.t) (host : Host.t)
  : C Z :=
  now <- in_timer time_time ;;
  in_timer (modify (Timer.set_starttime now)) ;;
  try_except
    (rc <- per_host (Host.id host) options config ;;
     in_session Session.commit ;;
     in_session Session.close ;;
     ret rc)
    (fun e =>
       match e with
       | TimeoutException => ret 2
       | _ => ret 3
       end).

End Crawler.

(** ** The connection pool, looked up *)

(** [hostState.get_connection]: the pooled connection for [url], if there is
    one; a pooled connection is named by its key. *)
Definition get_connection (E : Env.t) (url : string) (h : HostState.t)
  : option string :=
  let parts := Env.urlsplit E url in
  let scheme := SplitResult.scheme parts in
  let netloc := SplitResult.netloc parts in
  if String.eqb scheme "ftp" then
    if has_key netloc (HostState.ftpconn h) then Some netloc else None
  else if String.eqb scheme "http" then
    if has_key netloc (HostState.httpconn h) then Some netloc else None
  else None.

(** ** Keep-alive

    [myHTTPResponse.keepalive_ok], a function of the HTTP version of the
    response (11 for HTTP/1.1) and of its headers Connection and Keep-Alive
    ([getheader] gives [None] for a header that is not there). *)

(** [s.lower()] on a byte string: the letters A to Z. *)
Definition lower_char (a : ascii) : ascii :=
  let n := nat_of_ascii a in
  if ((65 <=? n) && (n <=? 90))%nat then ascii_of_nat (n + 32) else a.

Fixpoint lower (s : string) : string :=
  match s with
  | EmptyString => EmptyString
  | String a s' => String (lower_char a) (lower s')
  end.

(** [s.find(p)]: the lowest index at which [p] occurs in [s]. *)
Fixpoint find_substring (p s : string) : option nat :=
  if String.prefix p s then Some 0%nat
  else match s with
       | EmptyString => None
       | String _ s' => option_map S (find_substring p s')
       end.

(** [ka and word in ka.lower()] *)
Definition mentions (word : string) (ka : option string) : bool :=
  match ka with
  | Some ka =>
      negb (String.eqb ka "") &&
      match find_substring word (lower ka) with
      | Some _ => true
      | None => false
      end
  | None => false
  end.

(** The body of the [try] of [keepalive_ok]; [None] stands for the
    [ValueError] that [ka.index('max=')] raises when there is no such
    parameter. *)
Definition keepalive_ok_protected (connection keep_alive : option string)
  : option bool :=
  match keep_alive with
  | Some ka =>
      match find_substring "max=" ka with
      | Some maxidx =>
          let maxval := Py.slice_from (maxidx + 4) ka in
          if String.eqb maxval "1" then Some false else Some true
      | None => None
      end
  | None =>
      if mentions "keep-alive" connection then Some true else Some false
  end.

Definition keepalive_ok (version : Z) (connection keep_alive : option string)
  : bool :=
  if version =? 11 then
    if mentions "close" connection then false else true
  else if mentions "keep-alive" connection then true
  else
    match keepalive_ok_protected connection keep_alive with
    | Some result => result
    | None => false
    end.

(** ** A mirror, its catalog and some remote sides, for the examples *)

Module Ex.

(** [urlsplit] for URLs of the form scheme://netloc/path. *)
Definition urlsplit (url : string) : SplitResult.t :=
  match Py.split_on ":" url with
  | scheme :: rest :: _ =>
      match Py.split_on "/" rest with
      | "" :: "" :: netloc :: path =>
          {| SplitResult.scheme := scheme; SplitResult.netloc := netloc;
             SplitResult.path := "/" +:+ Py.join "/" path;
             SplitResult.query := ""; SplitResult.fragment := "" |}
      | _ =>
          {| SplitResult.scheme := scheme; SplitResult.netloc := "";
             SplitResult.path := rest;
             SplitResult.query := ""; SplitResult.fragment := "" |}
      end
  | _ =>
      {| SplitResult.scheme := ""; SplitResult.netloc := "";
         SplitResult.path := url;
         SplitResult.query := ""; SplitResult.fragment := "" |}
  end.

(** A remote side that answers every HEAD with [head], every FTP listing
    with [ftp], and has no rsync; the [n]-th reading of the clock is
    [clock n]. *)
Definition remote (clock : nat -> Z) (head : nat -> string -> http_reply)
    (ftp : nat -> string -> ftp_reply) : Env.t :=
  {| Env.clock := clock;
     Env.utcnow := fun n => 1000 + Z.of_nat n;
     Env.http_head := head;
     Env.ftp_list := ftp;
     Env.rsync := fun _ _ => RsyncRaises;
     Env.urlread := fun _ _ => None;
     Env.sha256_hexdigest := fun s => s;
     Env.urlsplit := urlsplit |}.

Definition seconds (n : nat) : Z := Z.of_nat n.

(** The worker starts at 0; every later reading of the clock is 100000. *)
Definition late (n : nat) : Z := if (n =? 0)%nat then 0 else 100000.

Definition ftp_busy (n : nat) (url : string) : ftp_reply :=
  FtpRaises (error_temp "421 Too many connections").

(** Every file is there, 100 bytes long. *)
Definition head_ok (n : nat) (url : string) : http_reply :=
  HttpResponse 200 (Some "100") None true.

(** The server fails. *)
Definition head_503 (n : nat) (url : string) : http_reply :=
  HttpResponse 503 None None false.

(** The first [k] HEADs are redirected, the next finds the file. *)
Definition head_redirects (k : nat) (n : nat) (url : string) : http_reply :=
  if (n <? k)%nat
  then HttpResponse 302 None (Some "http://m.example/next") true
  else HttpResponse 200 (Some "100") None true.

(** The FTP server is busy at the first listing and lists both files of the
    release from then on. *)
Definition ftp_busy_once (n : nat) (url : string) : ftp_reply :=
  if (n =? 0)%nat then FtpRaises (error_temp "421 Too many connections")
  else FtpListing ["-rw-r--r-- 1 ftp ftp 100 Jan 1 2014 a.iso";
                   "-rw-r--r-- 1 ftp ftp 5 Jan 1 2014 c.iso"].

Definition dir (id : Z) (name : string) (readable : bool)
    (files : list (string * string)) : Directory.t :=
  {| Directory.id := id; Directory.name := name;
     Directory.readable := readable; Directory.files := Some files;
     Directory.fileDetails := [] |}.

Definition pub : Directory.t := dir 5 "pub" true [].
Definition topdir : Directory.t := dir 1 "pub/fedora" true [].
Definition d20 : Directory.t := dir 2 "pub/fedora/20" true [("a.iso", "100")].
Definition secret : Directory.t := dir 3 "pub/fedora/secret" false [("b.iso", "7")].
Definition d20os : Directory.t := dir 4 "pub/fedora/20/os" true [("a.iso", "100")].
Definition d21 : Directory.t := dir 6 "pub/fedora/21" true [("c.iso", "5")].

Definition fedora : Category.t :=
  {| Category.name := "Fedora Linux"; Category.topdir := topdir |}.

Definition hc (urls : list string) : HostCategory.t :=
  {| HostCategory.id := 10; HostCategory.category := fedora;
     HostCategory.always_up2date := false; HostCategory.urls := urls |}.

Definition site : Site.t :=
  {| Site.private := false; Site.user_active := true; Site.admin_active := true |}.

Definition host (urls : list string) : Host.t :=
  {| Host.id := 1; Host.name := "m.example"; Host.private := false;
     Host.admin_active := false; Host.user_active := true;
     Host.site := site; Host.categories := [hc urls] |}.

Definition http_host : Host.t := host ["http://m.example/fedora"].
Definition ftp_host : Host.t := host ["ftp://m.example/fedora"].

Definition hcd (path : string) (d : Directory.t) (up2date : option bool)
  : HostCategoryDir.t :=
  {| HostCategoryDir.host_category_id := 10; HostCategoryDir.path := path;
     HostCategoryDir.directory_id := Some (Directory.id d);
     HostCategoryDir.directory := Some d;
     HostCategoryDir.up2date := up2date |}.

Definition session (h : Host.t) (rows : list HostCategoryDir.t) : Session.t :=
  {| Session.hosts := [h];
     Session.directories := [pub; topdir; d20; secret; d20os; d21];
     Session.hcds := rows; Session.added := []; Session.commits := 0;
     Session.closed := false; Session.lastCrawled := None;
     Session.not_up2date := false |}.

Definition state (h : Host.t) (rows : list HostCategoryDir.t) : State.t :=
  {| State.world := World.init; State.timer := Timer.init;
     State.session := session h rows |}.

Definition options (categories : list string) (timeout_minutes : Z) : Options.t :=
  {| Options.include_private := false; Options.threads := 10;
     Options.timeout_minutes := timeout_minutes;
     Options.startid := 0; Options.stopid := 1000;
     Options.categories := categories;
     Options.canary := false; Options.debug := false |}.

Definition config : Config.t := {| Config.crawler_send_email := true |}.

End Ex.

(** ** Notions used to state the properties *)

(** The first URL of a scheme, the next scheme being tried when there is
    none. *)
Definition or_else (a b : option string) : option string :=
  match a with Some u => Some u | None => b end.

(** The key of an entry of the verdict map, as the dictionary sees it. *)
Definition key_ids (hc : HostCategory.t) (d : Directory.t) : Z * Z :=
  (HostCategory.id hc, Directory.id d).

(** The verdict an entry has, [None] standing for no entry as well. *)
Definition verdict_or_null (v : option (option bool)) : option bool :=
  match v with Some v => v | None => None end.

(** [m'] differs from [m] only by keys that had no entry and now have the
    verdict null. *)
Definition only_nulls_added (m m' : verdicts) : Prop :=
  forall hc d,
    vm_lookup hc d m' = vm_lookup hc d m \/
    (vm_lookup hc d m = None /\ vm_lookup hc d m' = Some None).

(** The world after the HEAD exchange for [url] that got a reply:
    [open_http], the request, and the pooled connection kept or dropped. *)
Definition head_done (E : Env.t) (url : string) (keepalive_ok : bool)
    (w : World.t) : World.t :=
  snd ((open_http E url ;;
        interact [EvHead url] (fun _ => tt) ;;
        if keepalive_ok
        then with_hoststate (HostState.set_keepalives_available true)
        else close_http E url) w).

(** The reply that sends the client to [target]. *)
Definition redirects_at (E : Env.t) (target : string) (n : nat) : Prop :=
  forall url, Env.http_head E n url = HttpResponse 302 None (Some target) true.

(** The reply that finds the file, [size] bytes long. *)
Definition serves_at (E : Env.t) (size : string) (n : nat) : Prop :=
  forall url, Env.http_head E n url = HttpResponse 200 (Some size) None true.

(** [wp m s Q]: running [m] from [s] ends with an outcome and a state that
    satisfy [Q]. *)
Definition wp {S A} (m : M S A) (s : S) (Q : outcome A -> S -> Prop) : Prop :=
  Q (fst (m s)) (snd (m s)).

(** What [Q] asks of the rest [k] of a computation, after an outcome [r]. *)
Definition wp_then {S A B} (k : A -> M S B) (Q : outcome B -> S -> Prop)
    (r : outcome A) (s : S) : Prop :=
  match r with
  | Ret a => wp (k a) s Q
  | Raise e => Q (Raise e) s
  | NoFuel => Q NoFuel s
  end.

(** What [Q] asks of the handler [h] of a [try], after an outcome [r]. *)
Definition wp_handle {S A} (h : exn -> M S A) (Q : outcome A -> S -> Prop)
    (r : outcome A) (s : S) : Prop :=
  match r with
  | Raise e => wp (h e) s Q
  | _ => Q r s
  end.

(** [m] keeps [P]: whatever [m] ends with, it leads from a state where [P]
    holds to one where it holds. *)
Definition preserves {S A} (P : S -> Prop) (m : M S A) : Prop :=
  forall s, P s -> P (snd (m s)).

(** The [path] of the row of [d] under [hc]: [d.name] without the name of
    the category's top directory and the slash after it. *)
Definition hcd_path (hc : HostCategory.t) (d : Directory.t) : string :=
  Py.slice_from
    (String.length (Directory.name (Category.topdir (HostCategory.category hc))) + 1)
    (Directory.name d).

(** The rows of the session beyond those of [old] were each made for an
    entry of [vm] with the verdict true. *)
Definition rows_made_for_true (old : list HostCategoryDir.t) (vm : verdicts)
    (s : Session.t) : Prop :=
  (length old <= length (Session.hcds s))%nat /\
  forall i row,
    (length old <= i)%nat -> Session.hcds s !! i = Some row ->
    exists hc d,
      vm_lookup hc d vm = Some (Some true) /\
      HostCategoryDir.host_category_id row = HostCategory.id hc /\
      HostCategoryDir.path row = hcd_path hc d /\
      HostCategoryDir.directory_id row = Some (Directory.id d).

(** [f] leaves the three attributes a row is made with as they are. *)
Definition keeps_key (f : HostCategoryDir.t -> HostCategoryDir.t) : Prop :=
  forall row,
    HostCategoryDir.host_category_id (f row) = HostCategoryDir.host_category_id row /\
    HostCategoryDir.path (f row) = HostCategoryDir.path row /\
    HostCategoryDir.directory_id (f row) = HostCategoryDir.directory_id row.

(** The counters [sync_hcds] gives [stats] at the start. *)
Definition counters : list string :=
  ["up2date"; "not_up2date"; "unchanged"; "unknown"; "newdir";
   "deleted_on_master"].

(** [stats] holds the counters of the start, and no key [unreadable]. *)
Definition stats_ready (stats : gmap string Z) : Prop :=
  stats !! "unreadable" = None /\
  Forall (fun key => is_Some (stats !! key)) counters.

(** Row [i] of the session is a row of [hc], and [d] is its directory. *)
Definition row_of (i : nat) (hc : HostCategory.t) (d : Directory.t)
    (s : Session.t) : Prop :=
  exists row,
    Session.hcds s !! i = Some row /\
    HostCategoryDir.host_category_id row = HostCategory.id hc /\
    HostCategoryDir.directory row = Some d.

(** Row [i] stays the row of [hc] with the directory [d], and the session
    has [c] commits. *)
Definition row_stays (i : nat) (hc : HostCategory.t) (d : Directory.t) (c : nat)
    (s : Session.t) : Prop :=
  row_of i hc d s /\ Session.commits s = c.

(** [now] is within the deadline of a worker that started at [start]. *)
Definition within (options : Options.t) (start now : Z) : Prop :=
  now - start <= Options.timeout_minutes options * 60.

(** What [st] has of [st0]'s clock, commits and open session. *)
Definition frame (st0 st : State.t) : Prop :=
  State.timer st = State.timer st0 /\
  Session.commits (State.session st) = Session.commits (State.session st0) /\
  Session.closed (State.session st) = Session.closed (State.session st0).

(** [m] neither reads the clock nor commits nor closes the session. *)
Definition quiet {A} (m : C A) : Prop := forall st0, preserves (frame st0) m.

(** [m] does not end with the timeout signal. *)
Definition never_timeout {S A} (m : M S A) : Prop :=
  forall s, fst (m s) <> Raise TimeoutException.

Definition calm {A} (m : C A) : Prop := quiet m /\ never_timeout m.

(** The readings [new] a computation added to the clock's, for its outcome
    [r]: the timeout signal comes with a last reading past the deadline, and
    all other readings are within it. *)
Definition readings_ok {A} (options : Options.t) (start : Z) (r : outcome A)
    (new : list Z) : Prop :=
  match r with
  | Raise TimeoutException =>
      exists pre last,
        new = pre ++ [last] /\
        Forall (within options start) pre /\ ~ within options start last
  | _ => Forall (within options start) new
  end.

(** What the walker's computations do from [st]: they do not commit, close
    or restart the clock, and their readings are as [readings_ok] says. *)
Definition timed_post {A} (options : Options.t) (st : State.t)
    (r : outcome A) (st' : State.t) : Prop :=
  Session.commits (State.session st') = Session.commits (State.session st) /\
  Session.closed (State.session st') = Session.closed (State.session st) /\
  Timer.starttime (State.timer st') = Timer.starttime (State.timer st) /\
  exists new,
    Timer.readings (State.timer st') = Timer.readings (State.timer st) ++ new /\
    readings_ok options (Timer.starttime (State.timer st)) r new.

Definition timed {A} (options : Options.t) (m : C A) : Prop :=
  forall st, wp m st (timed_post options st).

(** [m] neither reads the clock nor ends with the timeout signal (it may
    commit). *)
Definition silent {A} (m : C A) : Prop :=
  (forall st, State.timer (snd (m st)) = State.timer st) /\ never_timeout m.

(** What [per_host] does from [st]: as [timed_post], except that it may
    commit when it does not end with the timeout signal. *)
Definition walked_post {A} (options : Options.t) (st : State.t)
    (r : outcome A) (st' : State.t) : Prop :=
  Timer.starttime (State.timer st') = Timer.starttime (State.timer st) /\
  exists new,
    Timer.readings (State.timer st') = Timer.readings (State.timer st) ++ new /\
    readings_ok options (Timer.starttime (State.timer st)) r new /\
    (r = Raise TimeoutException ->
     Session.commits (State.session st') = Session.commits (State.session st) /\
     Session.closed (State.session st') = Session.closed (State.session st)).

Definition walked {A} (options : Options.t) (m : C A) : Prop :=
  forall st, wp m st (walked_post options st).

(** The readings of the clock between the start of the worker, from [st],
    and its end in [st']: those of [timeout_check]. *)
Definition deadline_checks (st st' : State.t) : list Z :=
  drop (S (length (Timer.readings (State.timer st))))
       (Timer.readings (State.timer st')).

(** [m] does not end for want of fuel. *)
Definition has_fuel {S A} (m : M S A) : Prop :=
  forall s, fst (m s) <> NoFuel.

(** The values [m] returns satisfy [R]. *)
Definition returns_only {S A} (R : A -> Prop) (m : M S A) : Prop :=
  forall s a, fst (m s) = Ret a -> R a.

(** The exit codes of [per_host]. *)
Definition zero_or_one (rc : Z) : Prop := rc = 0 \/ rc = 1.

(** The exceptions [m] ends with satisfy [P]. *)
Definition raises_only {S A} (P : exn -> Prop) (m : M S A) : Prop :=
  forall s e, fst (m s) = Raise e -> P e.

(** What one call of [get_ftp_dir] that starts at the retry count [i] does
    from [w]: it asks for [k] listings of [url], at most [2 - i] of them; it
    does not end with the two exceptions it retries on nor for want of fuel;
    and a listing it returns is empty or the server's answer to one of its
    requests. *)
Definition ftp_attempts (E : Env.t) (url : string) (i : Z) (w : World.t)
    (r : outcome (option (list string))) (w' : World.t) : Prop :=
  exists k : nat,
    (k <= Z.to_nat (2 - i))%nat /\
    (i <= 1 -> (1 <= k)%nat) /\
    World.tick w' = (World.tick w + k)%nat /\
    World.trace w' = World.trace w ++ repeat (EvFtpList url) k /\
    r <> Raise EOFError /\ r <> Raise socket_error /\ r <> NoFuel /\
    r <> Ret None /\
    forall listing,
      r = Ret (Some listing) ->
      listing = [] \/
      exists n, (World.tick w <= n < World.tick w + k)%nat /\
                Env.ftp_list E n url = FtpListing listing.

(** The answers to a request for a listing on which [get_ftp_dir] closes the
    connection and asks again: the connection was dropped, or the login was
    refused with the code 530. *)
Definition asks_again (reply : ftp_reply) : bool :=
  match reply with
  | FtpRaises EOFError | FtpRaises socket_error => true
  | FtpRaises (error_perm msg) =>
      negb (Py.startswith msg "550") && negb (Py.startswith msg "553") &&
      Py.startswith msg "530"
  | _ => false
  end.

(** ** What the walker sends, and for which directories *)

(** A host category that offers an rsync URL. *)
Definition offers_rsync (hc : HostCategory.t) : bool :=
  existsb (fun u => Py.startswith u "rsync:") (HostCategory.urls hc).

(** The events of the rsync probe and of a report by mail. *)
Definition rsync_or_mail (ev : event) : bool :=
  match ev with
  | EvRsync _ | EvEmail _ _ => true
  | _ => false
  end.

(** The world [w'] has the trace of [w] and then events that satisfy [ok]. *)
Definition adds_only (ok : event -> bool) (w w' : World.t) : Prop :=
  exists evs, World.trace w' = World.trace w ++ evs /\ forallb ok evs = true.

(** The directories the loop of [per_host] passes over: not readable, or, in
    canary mode, neither a repodata nor an iso directory. *)
Definition passed_over (options : Options.t) (d : Directory.t) : bool :=
  negb (Directory.readable d) ||
  (Options.canary options &&
   negb (Py.endswith (Directory.name d) "/repodata" ||
         Py.endswith (Directory.name d) "/iso")).

(** The session [s] has the rows, the additions and the commits of [s0]. *)
Definition rows_kept (s0 s : Session.t) : Prop :=
  Session.hcds s = Session.hcds s0 /\
  Session.added s = Session.added s0 /\
  Session.commits s = Session.commits s0.

(** ** What [sync_hcds] needs to run to its end *)

(** Every row of the session that has its directory has a readable one. *)
Definition rows_readable (s : Session.t) : Prop :=
  forall i row d,
    Session.hcds s !! i = Some row ->
    HostCategoryDir.directory row = Some d ->
    Directory.readable d = true.

(** Every directory with the verdict true or false in [vm] is readable. *)
Definition verdicts_readable (vm : verdicts) : Prop :=
  forall hc d v b,
    In (hc, d, v) vm -> vm_lookup hc d vm = Some (Some b) ->
    Directory.readable d = true.

(** [stats] has its counters and says [numkeys] for the number of keys. *)
Definition stats_full (numkeys : Z) (stats : gmap string Z) : Prop :=
  stats_ready stats /\ stats !! "numkeys" = Some numkeys.

(** What the two loops of [sync_hcds] keep of a session with readable
    rows: the rows stay readable, and nothing is committed and the date of
    the crawl is not touched. *)
Definition sync_steady (commits : nat) (lastCrawled : option Z) (s : Session.t)
  : Prop :=
  rows_readable s /\ Session.commits s = commits /\
  Session.lastCrawled s = lastCrawled.

(** The rows [old] are still rows of [s], each at its place, with its host
    category, its path and its directory id, and with its directory if it had
    one. *)
Definition rows_stay (old : list HostCategoryDir.t) (s : Session.t) : Prop :=
  forall i row,
    old !! i = Some row ->
    exists row',
      Session.hcds s !! i = Some row' /\
      HostCategoryDir.host_category_id row' = HostCategoryDir.host_category_id row /\
      HostCategoryDir.path row' = HostCategoryDir.path row /\
      HostCategoryDir.directory_id row' = HostCategoryDir.directory_id row /\
      forall d, HostCategoryDir.directory row = Some d ->
                HostCategoryDir.directory row' = Some d.

(** Row [i] of the session has the flag [up2date] false. *)
Definition marked_false (i : nat) (s : Session.t) : Prop :=
  exists row,
    Session.hcds s !! i = Some row /\
    HostCategoryDir.up2date row = Some false.

(** No entry of [keys] that has the verdict true or false in [vm] is for the
    host category and the path of [row]. *)
Definition no_verdict_for (vm keys : verdicts) (row : HostCategoryDir.t) : Prop :=
  forall hc d v b,
    In (hc, d, v) keys -> vm_lookup hc d vm = Some (Some b) ->
    ~ (HostCategory.id hc = HostCategoryDir.host_category_id row /\
       hcd_path hc d = HostCategoryDir.path row).


(** The reply to the interaction [n] is a client error that [check_head]
    has no verdict for: 4xx, and not 403, 404 or 410. *)
Definition unknown_at (E : Env.t) (n : nat) : Prop :=
  forall url,
    exists status content_length location keepalive_ok,
      Env.http_head E n url
      = HttpResponse status content_length location keepalive_ok /\
      400 <= status < 500 /\ status <> 403 /\ status <> 404 /\ status <> 410.

(** The directories with the id of [d] among those of [trydirs] are all
    readable. *)
Definition readable_in (trydirs : list HostCategoryDir.t) (d : Directory.t)
  : Prop :=
  forall row d',
    In row trydirs -> HostCategoryDir.directory row = Some d' ->
    Directory.id d' = Directory.id d -> Directory.readable d' = true.

(** * Properties *)

(** ** Reasoning about computations *)

Lemma wp_ret {S A} (a : A) (s : S) Q : Q (Ret a) s -> wp (ret a) s Q.
Proof. exact (fun H => H). Qed.

Lemma wp_raise {S A} (e : exn) (s : S) (Q : outcome A -> S -> Prop) :
  Q (Raise e) s -> wp (raise e) s Q.
Proof. exact (fun H => H). Qed.

Lemma wp_no_fuel {S A} (s : S) (Q : outcome A -> S -> Prop) :
  Q NoFuel s -> wp no_fuel s Q.
Proof. exact (fun H => H). Qed.

Lemma wp_get {S} (s : S) Q : Q (Ret s) s -> wp get s Q.
Proof. exact (fun H => H). Qed.

Lemma wp_gets {S A} (f : S -> A) (s : S) Q : Q (Ret (f s)) s -> wp (gets f) s Q.
Proof. exact (fun H => H). Qed.

Lemma wp_modify {S} (f : S -> S) (s : S) Q : Q (Ret tt) (f s) -> wp (modify f) s Q.
Proof. exact (fun H => H). Qed.

Lemma wp_bind {S A B} (m : M S A) (k : A -> M S B) (s : S) Q :
  wp m s (wp_then k Q) -> wp (bind m k) s Q.
Proof.
  unfold wp, wp_then, bind. destruct (m s) as [[a|e|] s']; simpl; auto.
Qed.

Lemma wp_try_except {S A} (m : M S A) (h : exn -> M S A) (s : S) Q :
  wp m s (wp_handle h Q) -> wp (try_except m h) s Q.
Proof.
  unfold wp, wp_handle, try_except. destruct (m s) as [[a|e|] s']; simpl; auto.
Qed.

Lemma wp_zoom {S T A} (proj : T -> S) (put : S -> T -> T) (m : M S A) (t : T) Q :
  wp m (proj t) (fun r s' => Q r (put s' t)) -> wp (zoom proj put m) t Q.
Proof.
  unfold wp, zoom. destruct (m (proj t)) as [r s']; simpl; auto.
Qed.

Lemma wp_mono {S A} (m : M S A) (s : S) (Q Q' : outcome A -> S -> Prop) :
  wp m s Q -> (forall r s', Q r s' -> Q' r s') -> wp m s Q'.
Proof. unfold wp. auto. Qed.

Lemma wp_interact {A} (ev : list event) (answer : nat -> A) (w : World.t) Q :
  Q (Ret (answer (World.tick w))) (World.next ev w) ->
  wp (interact ev answer) w Q.
Proof. exact (fun H => H). Qed.

Lemma wp_time_time (E : Env.t) (tm : Timer.t) Q :
  Q (Ret (Env.clock E (length (Timer.readings tm))))
    (Timer.read (Env.clock E (length (Timer.readings tm))) tm) ->
  wp (time_time E) tm Q.
Proof. exact (fun H => H). Qed.

(** One step of a computation, by its shape. *)
Ltac wp_step :=
  lazymatch goal with
  | |- wp (bind _ _) _ _ => apply wp_bind
  | |- wp (try_except _ _) _ _ => apply wp_try_except
  | |- wp (in_world _) _ _ => apply wp_zoom
  | |- wp (in_timer _) _ _ => apply wp_zoom
  | |- wp (in_session _) _ _ => apply wp_zoom
  | |- wp (zoom _ _ _) _ _ => apply wp_zoom
  | |- wp (ret _) _ _ => apply wp_ret
  | |- wp (raise _) _ _ => apply wp_raise
  | |- wp no_fuel _ _ => apply wp_no_fuel
  | |- wp get _ _ => apply wp_get
  | |- wp (gets _) _ _ => apply wp_gets
  | |- wp (modify _) _ _ => apply wp_modify
  | |- wp (interact _ _) _ _ => apply wp_interact
  | |- wp (time_time _) _ _ => apply wp_time_time
  | |- wp_then _ _ (Ret _) _ => unfold wp_then at 1
  | |- wp_then _ _ (Raise _) _ => unfold wp_then at 1
  | |- wp_then _ _ NoFuel _ => unfold wp_then at 1
  | |- wp_handle _ _ (Ret _) _ => unfold wp_handle at 1
  | |- wp_handle _ _ (Raise _) _ => unfold wp_handle at 1
  | |- wp_handle _ _ NoFuel _ => unfold wp_handle at 1
  end.

Ltac wp_steps := repeat wp_step.

(** ** Host selection *)

(** C10. [doit] schedules a host exactly when it is one of the mirrors, its
    id lies in [startid, stopid), its site is not private, and its four
    activation flags are not all true: a host with all four flags true is
    never crawled. *)
Theorem doit_hosts_selected (options : Options.t) (mirrors : list Host.t)
    (host : Host.t) :
  In host (doit_hosts options mirrors) <->
  In host mirrors /\
  Options.startid options <= Host.id host < Options.stopid options /\
  Site.private (Host.site host) = false /\
  ~ (Host.admin_active host = true /\ Host.user_active host = true /\
     Site.user_active (Host.site host) = true /\
     Site.admin_active (Host.site host) = true).
Proof.
  unfold doit_hosts, crawl_wanted. rewrite filter_In.
  rewrite !andb_true_iff, !negb_true_iff.
  rewrite Z.ltb_ge, Z.geb_leb, Z.leb_gt.
  rewrite <- not_true_iff_false, !andb_true_iff.
  intuition auto.
Qed.

Lemma first_startswith_some p urls u :
  first_startswith p urls = Some u -> In u urls /\ Py.startswith u p = true.
Proof. unfold first_startswith. intros H. apply find_some in H. exact H. Qed.

Lemma rsync_loop_prev_rsync prev urls :
  Py.startswith prev "rsync:" = true -> rsync_loop prev urls = None.
Proof. intros H. destruct urls; simpl; [reflexivity | now rewrite H]. Qed.

Lemma rsync_loop_find prev urls :
  Py.startswith prev "rsync:" = false ->
  rsync_loop prev urls = first_startswith "rsync:" urls.
Proof.
  intros H. induction urls as [|u urls IH]; simpl; [reflexivity|].
  rewrite H. destruct (Py.startswith u "rsync:"); [reflexivity | exact IH].
Qed.

(** C5, as amended. When the previous choice is not an rsync URL,
    [method_pref] returns the first rsync URL, else the first http URL, else
    the first ftp URL, else null.  When the previous choice is an rsync URL
    it does not return null: it skips the rsync URLs and returns the first
    http URL, else the first ftp URL, else null. *)
Theorem method_pref_amended (urls : list string) (prev : string) :
  method_pref urls prev =
  if Py.startswith prev "rsync:"
  then or_else (first_startswith "http:" urls) (first_startswith "ftp:" urls)
  else or_else (first_startswith "rsync:" urls)
         (or_else (first_startswith "http:" urls) (first_startswith "ftp:" urls)).
Proof.
  unfold method_pref, or_else.
  destruct (Py.startswith prev "rsync:") eqn:Hp.
  - now rewrite rsync_loop_prev_rsync.
  - now rewrite rsync_loop_find.
Qed.

Lemma method_pref_fallback_after_rsync :
  Py.startswith "rsync://m.example/fedora" "rsync:" = true /\
  method_pref ["rsync://m.example/fedora"; "http://m.example/fedora"]
              "rsync://m.example/fedora"
  = Some "http://m.example/fedora".
Proof. split; reflexivity. Qed.

Lemma select_items_are_lists session options host :
  Options.categories options <> [] ->
  Forall (fun item => exists l, item = ItemList l)
         (select_host_categories_to_scan session options host).
Proof.
  unfold select_host_categories_to_scan. intros Hne.
  destruct (Options.categories options) as [|c cs] eqn:Hc; [congruence|].
  apply List.Forall_forall. intros item Hin.
  apply in_flat_map in Hin. destruct Hin as [category [_ Hin]].
  apply in_map_iff in Hin. destruct Hin as [entry [Heq _]].
  eexists. symmetry. exact Heq.
Qed.

(** C7. With the option --category given, every element that
    [select_host_categories_to_scan] returns is a list of host categories,
    not a host category; when there is such an element for a host the worker
    gets as far as scanning, reading [always_up2date] off the list ends the
    worker with exit code 3 and without a commit. *)
Theorem category_filter_selects_lists (E : Env.t) (options : Options.t)
    (config : Config.t) (host host' : Host.t) (st : State.t) :
  Options.categories options <> [] ->
  get_host (State.session st) (Host.id host) = Some host' ->
  Host.private host' && negb (Options.include_private options) = false ->
  select_host_categories_to_scan (State.session st) options host' <> [] ->
  Forall (fun item => exists l, item = ItemList l)
         (select_host_categories_to_scan (State.session st) options host') /\
  fst (worker E options config host st) = Ret 3 /\
  Session.commits (State.session (snd (worker E options config host st)))
  = Session.commits (State.session st).
Proof.
  intros Hcat Hhost Hpriv Hsel.
  pose proof (select_items_are_lists (State.session st) options host' Hcat) as Hall.
  split; [exact Hall|].
  change (wp (worker E options config host) st
            (fun r st' => r = Ret 3 /\
               Session.commits (State.session st') = Session.commits (State.session st))).
  unfold worker. wp_steps. unfold per_host. wp_steps.
  cbn [State.session State.set_timer State.timer State.world].
  rewrite Hhost, Hpriv. wp_steps.
  destruct (select_host_categories_to_scan (State.session st) options host')
    as [|item items] eqn:Hs; [congruence|].
  inversion Hall as [|? ? [l Hl] _]; subst item.
  cbn [length Nat.eqb walk_categories]. wp_steps.
  split; reflexivity.
Qed.

Lemma category_filter_selects_lists_witness :
  let options := Ex.options ["Fedora Linux"] 120 in
  let st := Ex.state Ex.http_host [Ex.hcd "20" Ex.d20 None] in
  select_host_categories_to_scan (State.session st) options Ex.http_host
  = [ItemList [Ex.hc ["http://m.example/fedora"]]] /\
  fst (worker (Ex.remote Ex.seconds Ex.head_ok Ex.ftp_busy) options Ex.config
              Ex.http_host st) = Ret 3.
Proof.
  split; [reflexivity|].
  apply (category_filter_selects_lists
           (Ex.remote Ex.seconds Ex.head_ok Ex.ftp_busy)
           (Ex.options ["Fedora Linux"] 120) Ex.config Ex.http_host Ex.http_host
           (Ex.state Ex.http_host [Ex.hcd "20" Ex.d20 None])).
  - discriminate.
  - reflexivity.
  - reflexivity.
  - discriminate.
Defined.

(** ** Facts about strings *)

Lemma split_on_not_nil (c : ascii) (s : string) : Py.split_on c s <> [].
Proof.
  destruct s as [|a s]; simpl; [discriminate|].
  destruct (Ascii.eqb a c); [discriminate|].
  destruct (Py.split_on c s); discriminate.
Qed.

Lemma join_split_on (c : ascii) (s : string) :
  Py.join (String c "") (Py.split_on c s) = s.
Proof.
  unfold Py.join. induction s as [|a s IH]; [reflexivity|].
  pose proof (split_on_not_nil c s) as Hne.
  simpl. destruct (Py.split_on c s) as [|h t] eqn:Hs; [congruence|].
  destruct (Ascii.eqb_spec a c) as [->|Hneq].
  - simpl in *. now rewrite IH.
  - destruct t; simpl in *; now rewrite <- IH.
Qed.

Lemma length_append (a b : string) :
  String.length (a +:+ b) = (String.length a + String.length b)%nat.
Proof. induction a; simpl; [reflexivity | now rewrite IHa]. Qed.

(** Joining all but the last piece gives a shorter string. *)
Lemma length_join_removelast (sep : string) (l : list string) :
  (0 < String.length sep)%nat ->
  removelast l <> [] ->
  (String.length (String.concat sep (removelast l))
   < String.length (String.concat sep l))%nat.
Proof.
  intros Hsep.
  induction l as [|x l IH]; [intros []; reflexivity|].
  destruct l as [|y l]; [intros []; reflexivity|].
  intros _. destruct l as [|z l].
  - simpl. rewrite !length_append. lia.
  - change (removelast (x :: y :: z :: l)) with (x :: removelast (y :: z :: l)).
    assert (Hne : removelast (y :: z :: l) <> []).
    { simpl. destruct l; discriminate. }
    specialize (IH Hne).
    change (String.concat sep (x :: y :: z :: l))
      with (x +:+ sep +:+ String.concat sep (y :: z :: l)).
    destruct (removelast (y :: z :: l)) as [|u r] eqn:Hr; [congruence|].
    change (String.concat sep (x :: u :: r))
      with (x +:+ sep +:+ String.concat sep (u :: r)).
    rewrite !length_append. lia.
Qed.

Lemma parent_shorter (session : Session.t) (d p : Directory.t) :
  parent session d = Some p ->
  (String.length (Directory.name p) < String.length (Directory.name d))%nat.
Proof.
  unfold parent, get_directory_by_name.
  destruct (0 <? length (removelast (Py.split_on "/" (Directory.name d))))%nat
    eqn:Hlen; [|discriminate].
  intros Hfind. apply find_some in Hfind. destruct Hfind as [_ Heq].
  apply String.eqb_eq in Heq. rewrite Heq. unfold Py.join.
  rewrite <- (join_split_on "/" (Directory.name d)) at 2. unfold Py.join.
  apply length_join_removelast; [simpl; lia|].
  apply Nat.ltb_lt in Hlen. destruct (removelast _); [simpl in Hlen; lia | discriminate].
Qed.

(** ** Facts about the verdict map *)

Lemma same_key_ids hc d entry :
  same_key hc d entry = true <->
  key_ids hc d = key_ids (fst (fst entry)) (snd (fst entry)).
Proof.
  unfold same_key, same_host_category, same_directory, key_ids.
  rewrite andb_true_iff, !Z.eqb_eq. split; [intros [-> ->]; reflexivity|].
  intros H. injection H. auto.
Qed.

Lemma same_key_ids_false hc d entry :
  same_key hc d entry = false <->
  key_ids hc d <> key_ids (fst (fst entry)) (snd (fst entry)).
Proof. rewrite <- same_key_ids. destruct (same_key hc d entry); split; congruence. Qed.

Lemma vm_mem_lookup hc d m :
  vm_mem hc d m = true <-> vm_lookup hc d m <> None.
Proof.
  unfold vm_mem, vm_lookup. induction m as [|e m IH]; simpl; [split; [discriminate|congruence]|].
  destruct (same_key hc d e); simpl; [split; [discriminate|reflexivity]|exact IH].
Qed.

Lemma vm_lookup_ids hc d hc' d' m :
  key_ids hc d = key_ids hc' d' -> vm_lookup hc d m = vm_lookup hc' d' m.
Proof.
  intros Hk. unfold vm_lookup. induction m as [|e m IH]; simpl; [reflexivity|].
  destruct (same_key hc d e) eqn:H1, (same_key hc' d' e) eqn:H2; try reflexivity.
  - apply same_key_ids in H1. apply same_key_ids_false in H2. congruence.
  - apply same_key_ids in H2. apply same_key_ids_false in H1. congruence.
  - exact IH.
Qed.

Lemma vm_lookup_set_same hc d v m : vm_lookup hc d (vm_set hc d v m) = Some v.
Proof.
  unfold vm_lookup. induction m as [|e m IH]; simpl.
  - assert (H : same_key hc d (hc, d, v) = true) by now apply same_key_ids.
    now rewrite H.
  - destruct (same_key hc d e) eqn:He; simpl.
    + assert (H : same_key hc d (fst e, v) = true).
      { apply same_key_ids. apply same_key_ids in He. exact He. }
      now rewrite H.
    + rewrite He. exact IH.
Qed.

Lemma vm_lookup_set_other hc d v hc' d' m :
  key_ids hc d <> key_ids hc' d' ->
  vm_lookup hc' d' (vm_set hc d v m) = vm_lookup hc' d' m.
Proof.
  intros Hne. unfold vm_lookup. induction m as [|e m IH]; simpl.
  - assert (H : same_key hc' d' (hc, d, v) = false).
    { apply same_key_ids_false. simpl. congruence. }
    now rewrite H.
  - destruct (same_key hc d e) eqn:He; simpl.
    + assert (H1 : same_key hc' d' (fst e, v) = false).
      { apply same_key_ids_false. apply same_key_ids in He. simpl. congruence. }
      assert (H2 : same_key hc' d' e = false).
      { apply same_key_ids_false. apply same_key_ids in He. congruence. }
      now rewrite H1, H2.
    + destruct (same_key hc' d' e); [reflexivity | exact IH].
Qed.

(** ** Parent propagation *)

Lemma only_nulls_added_refl m : only_nulls_added m m.
Proof. intros hc d. now left. Qed.

Lemma only_nulls_added_trans m1 m2 m3 :
  only_nulls_added m1 m2 -> only_nulls_added m2 m3 -> only_nulls_added m1 m3.
Proof.
  intros H12 H23 hc d. destruct (H12 hc d) as [E1|[E1 E1']], (H23 hc d) as [E2|[E2 E2']].
  - left. congruence.
  - right. split; congruence.
  - right. split; congruence.
  - congruence.
Qed.

Lemma verdict_or_null_stable m m' hc d :
  only_nulls_added m m' ->
  verdict_or_null (vm_lookup hc d m') = verdict_or_null (vm_lookup hc d m).
Proof. intros H. destruct (H hc d) as [->|[-> ->]]; reflexivity. Qed.

(** The step of [add_parents] on the parent [p]. *)
Lemma add_parent_step hc p m :
  let m1 := if negb (vm_mem hc p m) then vm_set hc p None m else m in
  vm_lookup hc p m1 = Some (verdict_or_null (vm_lookup hc p m)) /\
  only_nulls_added m m1.
Proof.
  simpl. destruct (vm_mem hc p m) eqn:Hmem; simpl.
  - apply vm_mem_lookup in Hmem. split; [|apply only_nulls_added_refl].
    destruct (vm_lookup hc p m); [reflexivity | congruence].
  - assert (Hnone : vm_lookup hc p m = None).
    { destruct (vm_lookup hc p m) eqn:Hl; [|reflexivity].
      assert (vm_mem hc p m = true) by (apply vm_mem_lookup; congruence). congruence. }
    split; [now rewrite vm_lookup_set_same, Hnone|].
    intros hc' d'. destruct (decide (key_ids hc p = key_ids hc' d')) as [Heq|Hne].
    + right. rewrite <- !(vm_lookup_ids hc p hc' d') by exact Heq.
      now rewrite vm_lookup_set_same.
    + left. now apply vm_lookup_set_other.
Qed.

Lemma propagates_to_inv session hc d a :
  propagates_to session hc d a ->
  exists p,
    parent session d = Some p /\
    (a = p \/
     (same_directory p (Category.topdir (HostCategory.category hc)) = false /\
      propagates_to session hc p a)).
Proof. intros H. inversion H; subst; eauto 6. Qed.

Lemma add_parents_rec_spec (fuel : nat) (session : Session.t) (hc : HostCategory.t) :
  forall (m : verdicts) (d : Directory.t),
    (String.length (Directory.name d) < fuel)%nat ->
    exists m',
      add_parents_rec fuel session m hc d = Some m' /\
      (forall a, propagates_to session hc d a ->
                 vm_lookup hc a m' = Some (verdict_or_null (vm_lookup hc a m))) /\
      only_nulls_added m m'.
Proof.
  induction fuel as [|fuel IH]; intros m d Hlen; [lia|].
  simpl. destruct (parent session d) as [p|] eqn:Hp.
  - pose proof (parent_shorter _ _ _ Hp) as Hshort.
    destruct (add_parent_step hc p m) as [Hlook Hadded].
    set (m1 := if negb (vm_mem hc p m) then vm_set hc p None m else m) in *.
    destruct (same_directory p (Category.topdir (HostCategory.category hc))) eqn:Htop;
      simpl.
    + exists m1. split; [reflexivity|]. split; [|exact Hadded].
      intros a Ha. apply propagates_to_inv in Ha.
      destruct Ha as [p0 [Hp0 [->|[Htop0 _]]]]; congruence.
    + destruct (IH m1 p ltac:(lia)) as [m' [Hrec [Hanc Hadd']]].
      exists m'. split; [exact Hrec|]. split.
      * intros a Ha. apply propagates_to_inv in Ha.
        destruct Ha as [p0 [Hp0 [->|[Htop0 Hrest]]]];
          assert (p0 = p) by congruence; subst p0.
        -- destruct (Hadd' hc p) as [->|[Hn _]]; [exact Hlook | congruence].
        -- rewrite (Hanc a Hrest). f_equal. now apply verdict_or_null_stable.
      * eapply only_nulls_added_trans; eassumption.
  - exists m. split; [reflexivity|]. split; [|apply only_nulls_added_refl].
    intros a Ha. apply propagates_to_inv in Ha.
    destruct Ha as [p0 [Hp0 _]]. congruence.
Qed.

(** C4, as amended. [add_parents] returns, and in the map it returns every
    ancestor that the parent chain of the catalog reaches from [d], the
    category's top directory included, has an entry: the verdict it had
    before, or null when it had none.  No other entry changes, and the
    verdict true is never written. *)
Theorem add_parents_amended (m : verdicts) (hc : HostCategory.t)
    (d : Directory.t) (st : State.t) :
  exists m',
    add_parents m hc d st = (Ret m', st) /\
    (forall a, propagates_to (State.session st) hc d a ->
               vm_lookup hc a m' = Some (verdict_or_null (vm_lookup hc a m))) /\
    only_nulls_added m m'.
Proof.
  destruct (add_parents_rec_spec (S (String.length (Directory.name d)))
              (State.session st) hc m d ltac:(lia)) as [m' [Hrec Hrest]].
  exists m'. split; [|exact Hrest]. unfold add_parents. now rewrite Hrec.
Qed.

Lemma add_parents_writes_null :
  let hc := Ex.hc ["http://m.example/fedora"] in
  let m := [(hc, Ex.d20os, Some true)] in
  let st := Ex.state Ex.http_host [] in
  propagates_to (State.session st) hc Ex.d20os Ex.d20 /\
  same_directory Ex.d20 (Category.topdir (HostCategory.category hc)) = false /\
  vm_lookup hc Ex.d20 m = None /\
  fst (add_parents m hc Ex.d20os st)
  = Ret [(hc, Ex.d20os, Some true); (hc, Ex.d20, None); (hc, Ex.topdir, None)].
Proof.
  repeat split; try reflexivity.
  apply propagates_parent. reflexivity.
Qed.

(** ** The HTTP probe *)

Lemma head_done_tick E url ka w :
  World.tick (head_done E url ka w) = S (World.tick w).
Proof. unfold head_done. destruct ka; reflexivity. Qed.

Lemma head_done_trace E url ka w :
  World.trace (head_done E url ka w) = World.trace w ++ [EvHead url].
Proof. unfold head_done. destruct ka; reflexivity. Qed.

(** [check_head] on a reply, as far as the status decides. *)
Lemma check_head_rec_response E fuel url filedata recursion readable retry w
    status content_length location keepalive_ok :
  Env.http_head E (World.tick w) url
  = HttpResponse status content_length location keepalive_ok ->
  check_head_rec E (S fuel) url filedata recursion readable retry w =
  (if (status >=? 200) && (status <? 300) then
     match content_length with
     | Some len => ret (Some (String.eqb filedata len))
     | None => ret (Some true)
     end
   else if (status >=? 300) && (status <? 400) then
     handle_redirect_rec E fuel url location filedata recursion readable
   else if (status >=? 400) && (status <? 500) then
     if status =? 403 then
       (if readable then ret (Some false) else raise ForbiddenExpected)
     else if (status =? 404) || (status =? 410) then ret (Some false)
     else ret None
   else if status >=? 500 then raise HTTP500
   else raise HTTPUnknown) (head_done E url keepalive_ok w).
Proof.
  intros Hreply. cbn [check_head_rec]. unfold bind at 1. unfold gets at 1.
  rewrite Hreply. unfold head_done.
  unfold bind, open_http, close_http, with_hoststate, modify, interact.
  destruct keepalive_ok; reflexivity.
Qed.

Lemma check_head_rec_500 E fuel url filedata recursion readable retry w
    status content_length location keepalive_ok :
  Env.http_head E (World.tick w) url
  = HttpResponse status content_length location keepalive_ok ->
  500 <= status ->
  check_head_rec E (S fuel) url filedata recursion readable retry w
  = (Raise HTTP500, head_done E url keepalive_ok w).
Proof.
  intros Hreply Hstatus.
  rewrite (check_head_rec_response _ _ _ _ _ _ _ _ _ _ _ _ Hreply).
  replace ((status >=? 200) && (status <? 300)) with false by lia.
  replace ((status >=? 300) && (status <? 400)) with false by lia.
  replace ((status >=? 400) && (status <? 500)) with false by lia.
  replace (status >=? 500) with true by lia.
  reflexivity.
Qed.

Lemma check_head_500 E url filedata recursion readable retry w
    status content_length location keepalive_ok :
  Env.http_head E (World.tick w) url
  = HttpResponse status content_length location keepalive_ok ->
  500 <= status ->
  check_head E url filedata recursion readable retry w
  = (Raise HTTP500, head_done E url keepalive_ok w).
Proof.
  intros Hreply Hstatus. unfold check_head, fuel_for.
  change (4 + 4 * Z.to_nat (11 - recursion))%nat
    with (S (3 + 4 * Z.to_nat (11 - recursion)))%nat.
  eapply check_head_rec_500; eassumption.
Qed.

Lemma check_url_rec_http E fuel url filedata recursion readable w :
  Py.startswith url "http:" = true ->
  check_url_rec E (S fuel) url filedata recursion readable w
  = check_head_rec E fuel url filedata recursion readable 0 w.
Proof. intros H. cbn [check_url_rec]. now rewrite H. Qed.

Lemma startswith_cons (a b : ascii) (s p : string) :
  Py.startswith (String a s) (String b p)
  = if ascii_dec b a then Py.startswith s p else false.
Proof. reflexivity. Qed.

Lemma startswith_first (s p : string) (a b : ascii) :
  Py.startswith s (String a p) = true -> a <> b ->
  forall q, Py.startswith s (String b q) = false.
Proof.
  destruct s as [|c s]; [discriminate|]. rewrite startswith_cons.
  destruct (ascii_dec a c) as [->|]; [|discriminate]. intros _ Hne q.
  rewrite startswith_cons. destruct (ascii_dec b c); [congruence|reflexivity].
Qed.

Lemma startswith_append (s t p : string) :
  Py.startswith s p = true -> Py.startswith (s +:+ t) p = true.
Proof.
  revert s. induction p as [|a p IH]; intros s.
  - intros _. destruct (s +:+ t); reflexivity.
  - destruct s as [|c s]; [discriminate|].
    change (String c s +:+ t) with (String c (s +:+ t)).
    rewrite !startswith_cons. destruct (ascii_dec a c); [apply IH|discriminate].
Qed.

Lemma startswith_http_not_slash (s : string) :
  Py.startswith s "http:" = true -> Py.startswith s "/" = false.
Proof. intros H. apply (startswith_first _ _ _ _ H). discriminate. Qed.

Lemma startswith_http_not_ftp (s : string) :
  Py.startswith s "http:" = true -> Py.startswith s "ftp" = false.
Proof. intros H. apply (startswith_first _ _ _ _ H). discriminate. Qed.

(** One redirect that is let through: two rounds of fuel, one HEAD. *)
Lemma check_url_rec_redirect E fuel url target filedata recursion readable w :
  Py.startswith url "http:" = true ->
  Py.startswith target "http:" = true ->
  redirects_at E target (World.tick w) ->
  recursion <= 10 ->
  check_url_rec E (S (S (S fuel))) url filedata recursion readable w
  = check_url_rec E fuel target filedata (recursion + 1) readable
      (head_done E url true w).
Proof.
  intros Hurl Htarget Hreply Hrec.
  rewrite check_url_rec_http by exact Hurl.
  rewrite (check_head_rec_response _ _ _ _ _ _ _ _ _ _ _ _ (Hreply url)).
  cbn [Z.geb Z.ltb Z.compare Pos.compare Pos.compare_cont andb].
  cbn [handle_redirect_rec].
  replace (recursion >? 10) with false by lia.
  now rewrite (startswith_http_not_slash _ Htarget).
Qed.

(** The redirect that is not: [recursion] is past 10. *)
Lemma check_url_rec_redirect_refused E fuel url target filedata recursion readable w :
  Py.startswith url "http:" = true ->
  redirects_at E target (World.tick w) ->
  10 < recursion ->
  check_url_rec E (S (S (S fuel))) url filedata recursion readable w
  = (Raise HTTPUnknown, head_done E url true w).
Proof.
  intros Hurl Hreply Hrec.
  rewrite check_url_rec_http by exact Hurl.
  rewrite (check_head_rec_response _ _ _ _ _ _ _ _ _ _ _ _ (Hreply url)).
  cbn [Z.geb Z.ltb Z.compare Pos.compare Pos.compare_cont andb].
  cbn [handle_redirect_rec].
  replace (recursion >? 10) with true by lia. reflexivity.
Qed.

Lemma check_url_rec_served E fuel url filedata recursion readable w :
  Py.startswith url "http:" = true ->
  serves_at E filedata (World.tick w) ->
  check_url_rec E (S (S fuel)) url filedata recursion readable w
  = (Ret (Some true), head_done E url true w).
Proof.
  intros Hurl Hreply.
  rewrite check_url_rec_http by exact Hurl.
  rewrite (check_head_rec_response _ _ _ _ _ _ _ _ _ _ _ _ (Hreply url)).
  cbn [Z.geb Z.ltb Z.compare Pos.compare Pos.compare_cont andb].
  unfold ret. now rewrite String.eqb_refl.
Qed.

(** [k] redirects in a row from [recursion <= 11 - k], then the file. *)
Lemma check_url_rec_follows E target filedata readable (k : nat) :
  Py.startswith target "http:" = true ->
  forall fuel url recursion w,
    Py.startswith url "http:" = true ->
    (forall n, (World.tick w <= n < World.tick w + k)%nat -> redirects_at E target n) ->
    serves_at E filedata (World.tick w + k) ->
    recursion + Z.of_nat k <= 11 ->
    (2 + 3 * k <= fuel)%nat ->
    exists w',
      check_url_rec E fuel url filedata recursion readable w = (Ret (Some true), w') /\
      World.tick w' = (World.tick w + k + 1)%nat.
Proof.
  intros Htarget. induction k as [|k IH]; intros fuel url recursion w Hurl Hred Hserve Hrec Hfuel.
  - destruct fuel as [|[|fuel]]; try lia.
    rewrite check_url_rec_served; [|exact Hurl|].
    + eexists. split; [reflexivity|]. rewrite head_done_tick. lia.
    + now rewrite Nat.add_0_r in Hserve.
  - destruct fuel as [|[|[|fuel]]]; try lia.
    rewrite (check_url_rec_redirect E fuel url target); try assumption; try lia.
    + destruct (IH fuel target (recursion + 1) (head_done E url true w))
        as [w' [Hrun Htick]]; try assumption; try lia.
      * intros n Hn. apply Hred. rewrite head_done_tick in Hn. lia.
      * rewrite head_done_tick. now replace (S (World.tick w) + k)%nat
          with (World.tick w + S k)%nat by lia.
      * exists w'. split; [exact Hrun|]. rewrite Htick, head_done_tick. lia.
    + apply Hred. lia.
Qed.

(** [k] redirects let through from [recursion = 11 - k], and one more. *)
Lemma check_url_rec_gives_up E target filedata readable (k : nat) :
  Py.startswith target "http:" = true ->
  forall fuel url recursion w,
    Py.startswith url "http:" = true ->
    (forall n, (World.tick w <= n < World.tick w + S k)%nat -> redirects_at E target n) ->
    recursion + Z.of_nat k = 11 ->
    (3 + 3 * k <= fuel)%nat ->
    check_url_rec E fuel url filedata recursion readable w
    = (Raise HTTPUnknown,
       fold_left (fun w u => head_done E u true w) (url :: repeat target k) w).
Proof.
  intros Htarget. induction k as [|k IH]; intros fuel url recursion w Hurl Hred Hrec Hfuel.
  - destruct fuel as [|[|[|fuel]]]; try lia.
    rewrite (check_url_rec_redirect_refused E fuel url target); try assumption; try lia.
    + reflexivity.
    + apply Hred. lia.
  - destruct fuel as [|[|[|fuel]]]; try lia.
    rewrite (check_url_rec_redirect E fuel url target); try assumption; try lia.
    + rewrite (IH fuel target (recursion + 1) (head_done E url true w));
        try assumption; try lia.
      * reflexivity.
      * intros n Hn. apply Hred. rewrite head_done_tick in Hn. lia.
    + apply Hred. lia.
Qed.

Lemma fold_head_done_trace E urls w :
  World.trace (fold_left (fun w u => head_done E u true w) urls w)
  = World.trace w ++ map EvHead urls.
Proof.
  revert w. induction urls as [|u urls IH]; intros w; simpl.
  - now rewrite app_nil_r.
  - rewrite IH, head_done_trace, <- app_assoc. reflexivity.
Qed.

Lemma try_per_file_first_raises E d url filename filedata rest e w w' :
  Directory.files d = Some ((filename, filedata) :: rest) ->
  check_url E (url +:+ "/" +:+ filename) filedata 0 (Directory.readable d) w
  = (Raise e, w') ->
  e <> TryLater -> ftplib_all_errors e = false ->
  try_per_file E d url w = (Ret None, w').
Proof.
  intros Hfiles Hcheck Hnot Hftp. unfold try_per_file. rewrite Hfiles.
  cbn [try_per_file_loop]. unfold bind at 1, try_except at 1, bind at 1.
  rewrite Hcheck.
  destruct e; try congruence; try discriminate; reflexivity.
Qed.

Lemma try_per_dir_not_ftp E d url files w :
  Directory.files d = Some files ->
  Py.startswith url "ftp" = false ->
  try_per_dir E d url w = (Ret None, w).
Proof. intros Hfiles Hurl. unfold try_per_dir. now rewrite Hfiles, Hurl. Qed.

(** C6, as amended. For a file of a directory probed over http: a chain of
    [k <= 11] redirects that ends at the file is followed to the end, with
    [k + 1] HEAD requests and the verdict true for the file; when twelve
    replies in a row redirect, [check_url] raises the HTTP-unknown signal
    after exactly twelve HEAD requests (eleven redirects followed, the
    twelfth refused) and [try_per_file] returns null for the directory. *)
Theorem redirect_limit_amended (E : Env.t) (d : Directory.t)
    (url filename filedata target : string) (rest : list (string * string))
    (w : World.t) :
  Directory.files d = Some ((filename, filedata) :: rest) ->
  Py.startswith url "http:" = true ->
  Py.startswith target "http:" = true ->
  let graburl := url +:+ "/" +:+ filename in
  (forall k : nat,
     (k <= 11)%nat ->
     (forall n, (World.tick w <= n < World.tick w + k)%nat -> redirects_at E target n) ->
     serves_at E filedata (World.tick w + k) ->
     exists w',
       check_url E graburl filedata 0 (Directory.readable d) w
       = (Ret (Some true), w') /\
       World.tick w' = (World.tick w + k + 1)%nat) /\
  ((forall n, (World.tick w <= n < World.tick w + 12)%nat -> redirects_at E target n) ->
   exists w',
     check_url E graburl filedata 0 (Directory.readable d) w
     = (Raise HTTPUnknown, w') /\
     World.trace w' = World.trace w ++ EvHead graburl :: repeat (EvHead target) 11 /\
     try_per_file E d url w = (Ret None, w')).
Proof.
  intros Hfiles Hurl Htarget graburl.
  assert (Hgrab : Py.startswith graburl "http:" = true)
    by (apply startswith_append; exact Hurl).
  split.
  - intros k Hk Hred Hserve. unfold check_url.
    apply (check_url_rec_follows E target filedata (Directory.readable d) k Htarget);
      try assumption; try lia.
    unfold fuel_for. simpl. lia.
  - intros Hred.
    assert (Hrun := check_url_rec_gives_up E target filedata (Directory.readable d)
                      11 Htarget (fuel_for 0) graburl 0 w Hgrab Hred eq_refl).
    specialize (Hrun ltac:(unfold fuel_for; simpl; lia)).
    eexists. split; [exact Hrun|]. split.
    + rewrite fold_head_done_trace. rewrite map_cons.
      now rewrite map_repeat.
    + eapply try_per_file_first_raises; [exact Hfiles|exact Hrun|discriminate|reflexivity].
Qed.

Lemma redirects_twelve_times
    (n : nat) (Hn : (World.tick World.init <= n < World.tick World.init + 12)%nat) :
  redirects_at (Ex.remote Ex.seconds (Ex.head_redirects 12) Ex.ftp_busy)
               "http://m.example/next" n.
Proof.
  intros url. simpl. unfold Ex.head_redirects.
  destruct (Nat.ltb_spec n 12) as [_|Hge]; [reflexivity|].
  simpl in Hn. lia.
Defined.

Lemma redirect_limit_amended_witness :
  fst (try_per_file (Ex.remote Ex.seconds (Ex.head_redirects 12) Ex.ftp_busy)
                    Ex.d20 "http://m.example/fedora/20" World.init)
  = Ret None.
Proof.
  destruct (proj2 (redirect_limit_amended
                     (Ex.remote Ex.seconds (Ex.head_redirects 12) Ex.ftp_busy)
                     Ex.d20 "http://m.example/fedora/20" "a.iso" "100"
                     "http://m.example/next" [] World.init
                     eq_refl eq_refl eq_refl)
                  redirects_twelve_times) as [w' [_ [_ Htry]]].
  now rewrite Htry.
Defined.

Lemma eleven_redirects_are_followed :
  let E := Ex.remote Ex.seconds (Ex.head_redirects 11) Ex.ftp_busy in
  let r := try_per_file E Ex.d20 "http://m.example/fedora/20" World.init in
  fst r = Ret (Some true) /\
  World.trace (snd r)
  = EvHead "http://m.example/fedora/20/a.iso"
    :: repeat (EvHead "http://m.example/next") 11.
Proof. split; reflexivity. Qed.

(** C3, as amended. When the HEAD for the first file of a directory probed
    over http gets a status of 500 or more, [check_head] raises the HTTP-500
    signal, [try_per_file] catches it and returns null, and the round of the
    walker for the directory ends normally with the verdict map as it
    was. *)
Theorem http_500_amended (E : Env.t) (hc : HostCategory.t) (d : Directory.t)
    (url filename filedata : string) (rest : list (string * string))
    (m : verdicts) (st : State.t)
    (status : Z) (content_length location : option string) (keepalive_ok : bool) :
  Directory.files d = Some ((filename, filedata) :: rest) ->
  Py.startswith url "http:" = true ->
  let graburl := url +:+ "/" +:+ filename in
  Env.http_head E (World.tick (State.world st)) graburl
  = HttpResponse status content_length location keepalive_ok ->
  500 <= status ->
  let w' := head_done E graburl keepalive_ok (State.world st) in
  check_head E graburl filedata 0 (Directory.readable d) 0 (State.world st)
  = (Raise HTTP500, w') /\
  try_per_file E d url (State.world st) = (Ret None, w') /\
  probe_dir E hc d url m st = (Ret m, State.set_world w' st).
Proof.
  intros Hfiles Hurl graburl Hreply Hstatus w'.
  assert (Hgrab : Py.startswith graburl "http:" = true)
    by (apply startswith_append; exact Hurl).
  assert (Hhead := check_head_500 E graburl filedata 0 (Directory.readable d) 0
                     (State.world st) _ _ _ _ Hreply Hstatus).
  assert (Htry : try_per_file E d url (State.world st) = (Ret None, w')).
  { apply (try_per_file_first_raises E d url filename filedata rest HTTP500
             _ _ Hfiles); [|discriminate|reflexivity].
    unfold check_url, fuel_for.
    change (4 + 4 * Z.to_nat (11 - 0))%nat with (S (S 46)).
    rewrite check_url_rec_http by exact Hgrab.
    eapply check_head_rec_500; eassumption. }
  split; [exact Hhead|]. split; [exact Htry|].
  unfold probe_dir, in_world, zoom, bind.
  rewrite (try_per_dir_not_ftp E d url _ (State.world st) Hfiles
             (startswith_http_not_ftp _ Hurl)).
  cbn [State.world State.set_world]. rewrite Htry. reflexivity.
Qed.

Lemma http_500_amended_witness :
  let E := Ex.remote Ex.seconds Ex.head_503 Ex.ftp_busy in
  let st := Ex.state Ex.http_host [Ex.hcd "20" Ex.d20 None] in
  fst (probe_dir E (Ex.hc ["http://m.example/fedora"]) Ex.d20
                 "http://m.example/fedora/20" [] st) = Ret [].
Proof.
  intros E st.
  destruct (http_500_amended E (Ex.hc ["http://m.example/fedora"]) Ex.d20
              "http://m.example/fedora/20" "a.iso" "100" [] [] st
              503 None None false eq_refl eq_refl eq_refl ltac:(lia))
    as [_ [_ Hprobe]].
  now rewrite Hprobe.
Defined.

Lemma http_500_leaves_host_alone :
  let E := Ex.remote Ex.seconds Ex.head_503 Ex.ftp_busy in
  let st := Ex.state Ex.http_host [Ex.hcd "20" Ex.d20 None] in
  fst (try_per_file E Ex.d20 "http://m.example/fedora/20" World.init) = Ret None /\
  fst (worker E (Ex.options [] 120) Ex.config Ex.http_host st) = Ret 0 /\
  Session.not_up2date
    (State.session (snd (worker E (Ex.options [] 120) Ex.config Ex.http_host st)))
  = false.
Proof. repeat split; reflexivity. Qed.

(** ** Back-off in the directory loop *)

Lemma backoff_from_one (n : nat) :
  Nat.iter n backoff 1 = Z.min (2 ^ Z.of_nat n) 8.
Proof.
  destruct n as [|[|[|n]]]; try reflexivity.
  assert (H : Nat.iter (S (S (S n))) backoff 1 = 8).
  { induction n as [|n IH]; [reflexivity|].
    change (Nat.iter (S (S (S (S n)))) backoff 1)
      with (backoff (Nat.iter (S (S (S n))) backoff 1)).
    rewrite IH. reflexivity. }
  rewrite H. symmetry. apply Z.min_r.
  change 8 with (2 ^ 3). apply Z.pow_le_mono_r; lia.
Qed.

(** The directory loop of a category starts with the delay 1. *)
Lemma walk_categories_first_delay (E : Env.t) (options : Options.t)
    (config : Config.t) (host : Host.t) (hc : HostCategory.t)
    (items : list scan_item) (url : string) (m m' : verdicts) (rc : Z)
    (st st' : State.t) :
  let categoryPrefixLen :=
    (String.length
       (Directory.name (Category.topdir (HostCategory.category hc))) + 1)%nat in
  let trydirs := map snd (host_category_rows (State.session st) hc) in
  HostCategory.always_up2date hc = false ->
  method_pref (HostCategory.urls hc) "" = Some url ->
  try_per_category E trydirs url m hc host categoryPrefixLen options config st
  = (Ret (None, m'), st') ->
  walk_categories E options config host (ItemHostCategory hc :: items) m rc st
  = (r <- walk_dirs E options config host hc
                    (method_pref (HostCategory.urls hc) url)
                    categoryPrefixLen trydirs 1 m' rc ;;
     url_startswith (method_pref (HostCategory.urls hc) url) "http" ;;
     walk_categories E options config host items (fst r) (snd r)) st'.
Proof.
  intros categoryPrefixLen trydirs Hnot Hpref Htry.
  cbn [walk_categories]. rewrite Hnot, Hpref.
  unfold bind at 1, gets at 1. unfold bind at 1.
  fold categoryPrefixLen trydirs. rewrite Htry. reflexivity.
Qed.

(** C2, as amended. When the probe of a readable directory raises the
    try-later signal, the walker sleeps for the current delay and goes on
    with the directories after it (the directory is not probed again), the
    verdict map unchanged and the delay moved on by [backoff].  The
    directory loop of each category starts with the delay 1, and from 1 the
    delays are 1, 2, 4, 8, 8, ... *)
Theorem try_later_moves_on (E : Env.t) (options : Options.t) (config : Config.t)
    (host : Host.t) (hc : HostCategory.t) (categoryUrl : string)
    (categoryPrefixLen : nat) (row : HostCategoryDir.t) (d : Directory.t)
    (rest : list HostCategoryDir.t) (try_later_delay : Z) (m : verdicts)
    (rc : Z) (st st1 st2 : State.t) :
  HostCategoryDir.directory row = Some d ->
  Directory.readable d = true ->
  Options.canary options &&
    negb (Py.endswith (Directory.name d) "/repodata" ||
          Py.endswith (Directory.name d) "/iso") = false ->
  in_timer (timeout_check E options) st = (Ret tt, st1) ->
  probe_dir E hc d
            (dir_url (Some categoryUrl)
                     (Py.slice_from categoryPrefixLen (Directory.name d)))
            m st1
  = (Raise TryLater, st2) ->
  walk_dirs E options config host hc (Some categoryUrl) categoryPrefixLen
            (row :: rest) try_later_delay m rc st
  = walk_dirs E options config host hc (Some categoryUrl) categoryPrefixLen
              rest (backoff try_later_delay) m rc
              (State.set_world
                 (World.next [EvSleep try_later_delay] (State.world st2)) st2)
  /\ (forall (items : list scan_item) (url : string) (m0 m' : verdicts)
             (st0 st' : State.t),
        HostCategory.always_up2date hc = false ->
        method_pref (HostCategory.urls hc) "" = Some url ->
        try_per_category
          E (map snd (host_category_rows (State.session st0) hc)) url m0 hc host
          (String.length
             (Directory.name (Category.topdir (HostCategory.category hc))) + 1)
          options config st0
        = (Ret (None, m'), st') ->
        walk_categories E options config host (ItemHostCategory hc :: items)
                        m0 rc st0
        = (r <- walk_dirs E options config host hc
                          (method_pref (HostCategory.urls hc) url)
                          (String.length
                             (Directory.name
                                (Category.topdir (HostCategory.category hc))) + 1)
                          (map snd (host_category_rows (State.session st0) hc))
                          1 m' rc ;;
           url_startswith (method_pref (HostCategory.urls hc) url) "http" ;;
           walk_categories E options config host items (fst r) (snd r)) st')
  /\ (forall n : nat, Nat.iter n backoff 1 = Z.min (2 ^ Z.of_nat n) 8).
Proof.
  intros Hdir Hreadable Hcanary Htimer Hprobe.
  split; [|split; [|exact backoff_from_one]].
  - cbn [walk_dirs]. unfold bind at 1. rewrite Htimer.
    rewrite Hdir, Hreadable, Hcanary. cbn [negb].
    unfold bind at 1, try_except at 1, bind at 1. rewrite Hprobe.
    reflexivity.
  - intros items url m0 m' st0 st' Hnot Hpref Htry.
    now apply walk_categories_first_delay.
Qed.

Lemma try_later_moves_on_witness :
  let E := Ex.remote Ex.seconds Ex.head_ok Ex.ftp_busy_once in
  let hc := Ex.hc ["ftp://m.example/fedora"] in
  let rows := [Ex.hcd "20" Ex.d20 None; Ex.hcd "21" Ex.d21 None] in
  let st := Ex.state Ex.ftp_host rows in
  let r := walk_dirs E (Ex.options [] 120) Ex.config Ex.ftp_host hc
                     (Some "ftp://m.example/fedora") 11 rows 1 [] 0 st in
  fst r = Ret ([(hc, Ex.d21, Some true); (hc, Ex.topdir, None)], 0) /\
  World.trace (State.world (snd r))
  = [EvFtpList "ftp://m.example/fedora/20/"; EvSleep 1;
     EvFtpList "ftp://m.example/fedora/21/"].
Proof.
  intros E hc rows st r. subst r.
  destruct (try_later_moves_on E (Ex.options [] 120) Ex.config Ex.ftp_host hc
              "ftp://m.example/fedora" 11 (Ex.hcd "20" Ex.d20 None) Ex.d20
              [Ex.hcd "21" Ex.d21 None] 1 [] 0 st
              (snd (in_timer (timeout_check E (Ex.options [] 120)) st))
              (snd (probe_dir E hc Ex.d20 "ftp://m.example/fedora/20" []
                      (snd (in_timer (timeout_check E (Ex.options [] 120)) st))))
              eq_refl eq_refl eq_refl eq_refl eq_refl) as [Hstep _].
  subst rows. rewrite Hstep. split; reflexivity.
Defined.

Lemma try_later_is_not_retried :
  let E := Ex.remote Ex.seconds Ex.head_ok Ex.ftp_busy_once in
  let st := Ex.state Ex.ftp_host [Ex.hcd "20" Ex.d20 None; Ex.hcd "21" Ex.d21 None] in
  let r := worker E (Ex.options [] 120) Ex.config Ex.ftp_host st in
  Ex.ftp_busy_once 1 "ftp://m.example/fedora/20/"
  = FtpListing ["-rw-r--r-- 1 ftp ftp 100 Jan 1 2014 a.iso";
                "-rw-r--r-- 1 ftp ftp 5 Jan 1 2014 c.iso"] /\
  fst r = Ret 0 /\
  World.trace (State.world (snd r))
  = [EvFtpList "ftp://m.example/fedora/20/"; EvSleep 1;
     EvFtpList "ftp://m.example/fedora/21/";
     EvReportStats [2; 1; 0; 0; 1; 0; 1]].
Proof. repeat split; vm_compute; reflexivity. Qed.

(** ** Invariants of computations *)

Lemma preserves_ret {S A} (P : S -> Prop) (a : A) : preserves P (ret a).
Proof. intros s H. exact H. Qed.

Lemma preserves_raise {S A} (P : S -> Prop) (e : exn) :
  preserves P (raise e : M S A).
Proof. intros s H. exact H. Qed.

Lemma preserves_get {S} (P : S -> Prop) : preserves P get.
Proof. intros s H. exact H. Qed.

Lemma preserves_gets {S A} (P : S -> Prop) (f : S -> A) : preserves P (gets f).
Proof. intros s H. exact H. Qed.

Lemma preserves_modify {S} (P : S -> Prop) (f : S -> S) :
  (forall s, P s -> P (f s)) -> preserves P (modify f).
Proof. intros Hf s H. apply Hf, H. Qed.

Lemma preserves_bind {S A B} (P : S -> Prop) (m : M S A) (k : A -> M S B) :
  preserves P m -> (forall a, preserves P (k a)) -> preserves P (bind m k).
Proof.
  intros Hm Hk s H. unfold bind. specialize (Hm s H).
  destruct (m s) as [[a| |] s']; simpl in *; [apply Hk|..]; exact Hm.
Qed.

Lemma preserves_try_except {S A} (P : S -> Prop) (m : M S A) (h : exn -> M S A) :
  preserves P m -> (forall e, preserves P (h e)) -> preserves P (try_except m h).
Proof.
  intros Hm Hh s H. unfold try_except. specialize (Hm s H).
  destruct (m s) as [[a|e|] s']; simpl in *; [|apply Hh|]; exact Hm.
Qed.

Lemma preserves_stats_incr {S} (P : S -> Prop) key stats :
  preserves P (stats_incr key stats : M S _).
Proof. unfold stats_incr. destruct (stats !! key); intros s H; exact H. Qed.

Lemma preserves_stats_get {S} (P : S -> Prop) key stats :
  preserves P (stats_get key stats : M S _).
Proof. unfold stats_get. destruct (stats !! key); intros s H; exact H. Qed.

(** A computation on one part of the state keeps what the other parts say. *)
Lemma preserves_zoom_frame {S T A} (P : T -> Prop) (proj : T -> S)
    (put : S -> T -> T) (m : M S A) :
  (forall s t, P t -> P (put s t)) -> preserves P (zoom proj put m).
Proof.
  intros Hput t H. unfold zoom. destruct (m (proj t)) as [r s']. simpl. auto.
Qed.

Lemma preserves_in_session {A} (P : Session.t -> Prop) (m : M Session.t A) :
  preserves P m -> preserves (fun st => P (State.session st)) (in_session m).
Proof.
  intros Hm st H. unfold in_session, zoom. specialize (Hm _ H).
  destruct (m (State.session st)) as [r s']. exact Hm.
Qed.

(** ** Invariants of the synchronisation

    What the rounds of [sync_hcds] keep, they all keep. *)

Section SyncInvariant.

Variable vm : verdicts.
Variable P : Session.t -> Prop.

Hypothesis keeps_sync_row :
  forall hcd d up2date stats current_hcds,
    preserves P (sync_row hcd d up2date stats current_hcds).
Hypothesis keeps_new_hcd :
  forall hc d,
    vm_lookup hc d vm = Some (Some true) ->
    preserves P (new_hcd (HostCategory.id hc) (hcd_path hc d) (Directory.id d)).
Hypothesis keeps_set_up2date :
  forall i v, preserves P (update_row i (set_up2date v)).
Hypothesis keeps_add : forall i, preserves P (Session.add i).
Hypothesis keeps_commit : preserves P Session.commit.
Hypothesis keeps_lastCrawled :
  forall v, preserves P (modify (Session.set_lastCrawled v)).

Lemma keeps_row_at i : preserves P (row_at i).
Proof.
  unfold row_at. apply preserves_bind; [apply preserves_get|]. intros s.
  destruct (Session.hcds s !! i); [apply preserves_ret | apply preserves_raise].
Qed.

Lemma keeps_sync_keys keys :
  forall stats current_hcds, preserves P (sync_keys keys vm stats current_hcds).
Proof.
  induction keys as [|[[hc d] v] keys IH]; intros stats current_hcds;
    cbn [sync_keys]; [apply preserves_ret|].
  destruct (vm_lookup hc d vm) as [[up2date|]|] eqn:Hv.
  - apply preserves_bind; [apply preserves_get|]. intros session.
    destruct (get_hostcategorydir_by_hostcategoryid_and_path _ _ _) as [|hcd hcds].
    + destruct up2date; cbn [negb]; [|apply IH].
      apply preserves_bind; [apply (keeps_new_hcd hc d Hv)|]. intros hcd.
      apply preserves_bind; [apply preserves_stats_incr|]. intros stats'.
      apply preserves_bind; [apply keeps_sync_row|]. intros r. apply IH.
    + apply preserves_bind; [apply keeps_sync_row|]. intros r. apply IH.
  - apply preserves_bind; [apply preserves_stats_incr|]. intros stats'. apply IH.
  - apply preserves_raise.
Qed.

Lemma keeps_sync_historical rows current_hcds :
  forall stats, preserves P (sync_historical rows current_hcds stats).
Proof.
  induction rows as [|hcd rows IH]; intros stats; cbn [sync_historical];
    [apply preserves_ret|].
  apply preserves_bind; [apply keeps_row_at|]. intros row.
  destruct (match HostCategoryDir.directory row with
            | Some directory => negb (Directory.readable directory)
            | None => false
            end).
  - apply preserves_bind; [apply preserves_stats_incr|]. intros stats'. apply IH.
  - destruct (negb (existsb _ _)); [|apply IH].
    destruct (negb (option_bool_eqb _ _)); [|apply IH].
    apply preserves_bind; [apply keeps_set_up2date|]. intros _.
    apply preserves_bind; [apply keeps_add|]. intros _.
    apply preserves_bind; [apply preserves_stats_incr|]. intros stats'. apply IH.
Qed.

Lemma keeps_sync_categories categories current_hcds :
  forall stats, preserves P (sync_categories categories current_hcds stats).
Proof.
  induction categories as [|hc categories IH]; intros stats; cbn [sync_categories];
    [apply preserves_ret|].
  apply preserves_bind; [apply preserves_get|]. intros session.
  apply preserves_bind; [apply keeps_sync_historical|]. intros stats'. apply IH.
Qed.

Lemma keeps_sync_hcds E host :
  preserves (fun st => P (State.session st)) (sync_hcds E host vm).
Proof.
  unfold sync_hcds.
  apply preserves_bind.
  { apply preserves_zoom_frame. intros s t H. exact H. }
  intros now. apply preserves_bind.
  { apply (preserves_in_session P), keeps_lastCrawled. }
  intros _. apply preserves_bind.
  { apply (preserves_in_session P), keeps_sync_keys. }
  intros r. apply preserves_bind.
  { apply (preserves_in_session P), keeps_sync_categories. }
  intros stats. apply preserves_bind.
  { apply (preserves_in_session P), keeps_commit. }
  intros _. apply preserves_zoom_frame. intros s t H. exact H.
Qed.

End SyncInvariant.

(** ** Rows are made for true verdicts only *)

Lemma keeps_key_set_directory d : keeps_key (set_directory d).
Proof. intros row. repeat split. Qed.

Lemma keeps_key_set_up2date v : keeps_key (set_up2date v).
Proof. intros row. repeat split. Qed.

Lemma made_update_row old vm i f :
  keeps_key f -> preserves (rows_made_for_true old vm) (update_row i f).
Proof.
  intros Hf. apply preserves_modify. intros s [Hlen Hrows].
  split; cbn [Session.hcds Session.set_hcds].
  - now rewrite length_alter.
  - intros j row Hj Hrow.
    destruct (decide (i = j)) as [->|Hne].
    + rewrite list_lookup_alter_eq in Hrow.
      destruct (Session.hcds s !! j) as [row0|] eqn:Hrow0; [|discriminate].
      injection Hrow as <-.
      destruct (Hrows j row0 Hj Hrow0) as [hc [d [Hv [H1 [H2 H3]]]]].
      destruct (Hf row0) as [K1 [K2 K3]].
      exists hc, d. rewrite K1, K2, K3. auto.
    + rewrite list_lookup_alter_ne in Hrow by exact Hne. eauto.
Qed.

Lemma made_new_hcd old vm hc d :
  vm_lookup hc d vm = Some (Some true) ->
  preserves (rows_made_for_true old vm)
            (new_hcd (HostCategory.id hc) (hcd_path hc d) (Directory.id d)).
Proof.
  intros Hv s [Hlen Hrows]. unfold rows_made_for_true, new_hcd, bind, get, modify, ret.
  cbn [fst snd Session.hcds Session.set_hcds]. split.
  - rewrite length_app. simpl. lia.
  - intros j row Hj Hrow.
    destruct (decide (j < length (Session.hcds s))%nat) as [Hlt|Hge].
    + rewrite lookup_app_l in Hrow by exact Hlt. eauto.
    + rewrite lookup_app_r in Hrow by lia.
      destruct (j - length (Session.hcds s))%nat; [|discriminate].
      injection Hrow as <-. exists hc, d. auto.
Qed.

Lemma made_sync_row old vm hcd d up2date stats current_hcds :
  preserves (rows_made_for_true old vm)
            (sync_row hcd d up2date stats current_hcds).
Proof.
  unfold sync_row.
  apply preserves_bind.
  { unfold row_at. apply preserves_bind; [apply preserves_get|]. intros s.
    destruct (Session.hcds s !! hcd); [apply preserves_ret | apply preserves_raise]. }
  intros row. apply preserves_bind.
  { destruct (HostCategoryDir.directory row);
      [apply preserves_ret | apply made_update_row, keeps_key_set_directory]. }
  intros _. apply preserves_bind; [|intros; apply preserves_ret].
  destruct (negb _); [|apply preserves_stats_incr].
  apply preserves_bind; [apply made_update_row, keeps_key_set_up2date|]. intros _.
  apply preserves_bind; [apply preserves_modify; intros s H; exact H|]. intros _.
  destruct (negb up2date); apply preserves_stats_incr.
Qed.

Lemma made_sync_hcds old vm E host :
  preserves (fun st => rows_made_for_true old vm (State.session st))
            (sync_hcds E host vm).
Proof.
  apply keeps_sync_hcds.
  - apply made_sync_row.
  - apply made_new_hcd.
  - intros i v. apply made_update_row, keeps_key_set_up2date.
  - intros i. apply preserves_modify. intros s H. exact H.
  - apply preserves_modify. intros s H. exact H.
  - intros v. apply preserves_modify. intros s H. exact H.
Qed.

(** C8. Whatever [sync_hcds] ends with, the rows of the session are those
    it started with, followed by rows that were each made for an entry of
    the verdict map with the verdict true, with that entry's host category,
    path and directory; a map without a true verdict makes no row. *)
Theorem sync_hcds_creates_rows_for_true_only (E : Env.t) (host : Host.t)
    (vm : verdicts) (st : State.t) :
  let old := Session.hcds (State.session st) in
  let new := Session.hcds (State.session (snd (sync_hcds E host vm st))) in
  ((length old <= length new)%nat /\
   forall i row,
     (length old <= i)%nat -> new !! i = Some row ->
     exists hc d,
       vm_lookup hc d vm = Some (Some true) /\
       HostCategoryDir.host_category_id row = HostCategory.id hc /\
       HostCategoryDir.path row = hcd_path hc d /\
       HostCategoryDir.directory_id row = Some (Directory.id d)) /\
  ((forall hc d, vm_lookup hc d vm <> Some (Some true)) ->
   length new = length old).
Proof.
  intros old new.
  assert (H : rows_made_for_true old vm (State.session (snd (sync_hcds E host vm st)))).
  { apply (made_sync_hcds old vm E host st). split; [reflexivity|].
    intros i row Hi Hrow. apply lookup_lt_Some in Hrow. fold old in Hrow. lia. }
  split; [exact H|]. intros Hnone. destruct H as [Hlen Hrows].
  fold new in Hlen, Hrows.
  destruct (decide (length new = length old)) as [|Hne]; [assumption|].
  destruct (lookup_lt_is_Some_2 new (length old) ltac:(lia)) as [row Hrow].
  destruct (Hrows _ row (le_n _) Hrow) as [hc [d [Hv _]]].
  destruct (Hnone hc d Hv).
Qed.

(** ** The counter that is not there *)

Lemma stats_init_ready n : stats_ready (<["numkeys" := n]> stats_init).
Proof.
  split.
  - rewrite lookup_insert_ne by discriminate. reflexivity.
  - unfold counters. repeat constructor;
      (rewrite lookup_insert_ne by discriminate; eexists; reflexivity).
Qed.

Lemma stats_ready_insert key n stats :
  stats_ready stats -> key <> "unreadable" -> stats_ready (<[key := n]> stats).
Proof.
  intros [Hun Hall] Hne. split.
  - now rewrite lookup_insert_ne.
  - eapply Forall_impl; [exact Hall|]. intros k [v Hk]. cbn beta.
    destruct (decide (key = k)) as [->|Hk'].
    + rewrite lookup_insert_eq. eauto.
    + rewrite lookup_insert_ne by exact Hk'. eauto.
Qed.

Lemma wp_stats_incr_ready {S} key stats (s : S) Q :
  stats_ready stats -> In key counters ->
  (forall stats', stats_ready stats' -> Q (Ret stats') s) ->
  wp (stats_incr key stats) s Q.
Proof.
  intros Hready Hin HQ. unfold stats_incr.
  assert (Hsome : is_Some (stats !! key)).
  { destruct Hready as [_ Hall]. rewrite List.Forall_forall in Hall. auto. }
  destruct Hsome as [n Hn]. rewrite Hn. apply wp_ret, HQ.
  apply stats_ready_insert; [exact Hready|].
  intros ->. destruct Hready as [Hun _]. congruence.
Qed.

Lemma wp_stats_incr_unreadable {S} stats (s : S) Q :
  stats_ready stats -> Q (Raise (KeyError "unreadable")) s ->
  wp (stats_incr "unreadable" stats) s Q.
Proof. intros [Hun _] HQ. unfold stats_incr. rewrite Hun. exact HQ. Qed.

Lemma indexed_row_valid {A} (l : list A) (j : nat) (x : A) :
  In (j, x) (imap (fun i y => (i, y)) l) <-> l !! j = Some x.
Proof.
  rewrite <- list_elem_of_In, elem_of_lookup_imap. split.
  - intros [i [y [Heq Hl]]]. now injection Heq as -> ->.
  - intros Hl. eauto.
Qed.

Lemma query_valid session host_category_id path j :
  In j (get_hostcategorydir_by_hostcategoryid_and_path session host_category_id path) ->
  (j < length (Session.hcds session))%nat.
Proof.
  unfold get_hostcategorydir_by_hostcategoryid_and_path. intros Hin.
  apply in_map_iff in Hin. destruct Hin as [[j' row] [Hj Hin]]. simpl in Hj. subst j'.
  apply filter_In in Hin. destruct Hin as [Hin _].
  apply indexed_row_valid in Hin. eapply lookup_lt_Some, Hin.
Qed.

Lemma host_category_rows_valid session hc j :
  In j (map fst (host_category_rows session hc)) ->
  (j < length (Session.hcds session))%nat.
Proof.
  unfold host_category_rows. intros Hin.
  apply in_map_iff in Hin. destruct Hin as [[j' row] [Hj Hin]]. simpl in Hj. subst j'.
  apply filter_In in Hin. destruct Hin as [Hin _].
  apply indexed_row_valid in Hin. eapply lookup_lt_Some, Hin.
Qed.

Lemma host_category_rows_has session hc j row :
  Session.hcds session !! j = Some row ->
  HostCategoryDir.host_category_id row = HostCategory.id hc ->
  In j (map fst (host_category_rows session hc)).
Proof.
  intros Hrow Hid. unfold host_category_rows. apply in_map_iff.
  exists (j, row). split; [reflexivity|]. apply filter_In. split.
  - now apply indexed_row_valid.
  - simpl. now apply Z.eqb_eq.
Qed.

(** [sync_row] on a row that is there ends well. *)
Lemma sync_row_returns hcd d up2date stats current_hcds s :
  (hcd < length (Session.hcds s))%nat -> stats_ready stats ->
  wp (sync_row hcd d up2date stats current_hcds) s
     (fun r _ => exists stats' current_hcds',
                   r = Ret (stats', current_hcds') /\ stats_ready stats').
Proof.
  intros Hvalid Hready. unfold sync_row, row_at. wp_steps.
  destruct (lookup_lt_is_Some_2 _ _ Hvalid) as [row Hrow]. rewrite Hrow.
  wp_steps.
  destruct (HostCategoryDir.directory row); unfold update_row; wp_steps.
  - destruct (negb (option_bool_eqb _ _)); unfold Session.add; wp_steps.
    + destruct (negb up2date);
        (apply wp_stats_incr_ready; [exact Hready|unfold counters; simpl; tauto|]);
        intros stats' Hready'; wp_steps; eauto.
    + apply wp_stats_incr_ready; [exact Hready|unfold counters; simpl; tauto|].
      intros stats' Hready'. wp_steps. eauto.
  - destruct (negb (option_bool_eqb _ _)); unfold Session.add; wp_steps.
    + destruct (negb up2date);
        (apply wp_stats_incr_ready; [exact Hready|unfold counters; simpl; tauto|]);
        intros stats' Hready'; wp_steps; eauto.
    + apply wp_stats_incr_ready; [exact Hready|unfold counters; simpl; tauto|].
      intros stats' Hready'. wp_steps. eauto.
Qed.
Lemma wp_and_preserves {S A} (P : S -> Prop) (m : M S A) (s : S)
    (Q : outcome A -> S -> Prop) :
  wp m s Q -> preserves P m -> P s -> wp m s (fun r s' => Q r s' /\ P s').
Proof. unfold wp, preserves. auto. Qed.
Lemma in_insert_by_name entry x l :
  In x (insert_by_name entry l) -> x = entry \/ In x l.
Proof.
  induction l as [|y l IH]; simpl; [intros [<-|[]]; now left|].
  destruct (String.leb _ _); simpl.
  - intros [<-|H]; [now left | now right].
  - intros [<-|H]; [right; now left|].
    destruct (IH H) as [->|Hin]; [now left | right; now right].
Qed.

Lemma in_sorted_by_name x m : In x (sorted_by_name m) -> In x m.
Proof.
  induction m as [|y m IH]; simpl; [exact (fun H => H)|].
  intros H. apply in_insert_by_name in H. destruct H as [->|H]; auto.
Qed.

Lemma vm_lookup_in hc d v m : In (hc, d, v) m -> vm_lookup hc d m <> None.
Proof.
  intros Hin. apply vm_mem_lookup. unfold vm_mem. apply existsb_exists.
  exists (hc, d, v). split; [exact Hin|]. now apply same_key_ids.
Qed.

Lemma sync_keys_returns vm keys :
  (forall hc d v, In (hc, d, v) keys -> vm_lookup hc d vm <> None) ->
  forall stats current_hcds s,
    stats_ready stats ->
    wp (sync_keys keys vm stats current_hcds) s
       (fun r _ => exists stats' current_hcds',
                     r = Ret (stats', current_hcds') /\ stats_ready stats').
Proof.
  induction keys as [|[[hc d] v] keys IH]; intros Hkeys stats current_hcds s Hready;
    cbn [sync_keys]; [wp_steps; eauto|].
  assert (IH' := IH (fun hc d v H => Hkeys hc d v (or_intror H))). clear IH.
  pose proof (Hkeys hc d v (or_introl eq_refl)) as Hfound.
  destruct (vm_lookup hc d vm) as [[up2date|]|]; [| |congruence].
  - wp_steps.
    destruct (get_hostcategorydir_by_hostcategoryid_and_path _ _ _)
      as [|hcd hcds] eqn:Hq.
    + destruct up2date; cbn [negb]; [|now apply IH'].
      unfold new_hcd. wp_steps.
      apply wp_stats_incr_ready; [exact Hready|unfold counters; simpl; tauto|].
      intros stats' Hready'. wp_steps.
      eapply wp_mono.
      { apply sync_row_returns; [|exact Hready'].
        cbn [Session.hcds Session.set_hcds]. rewrite length_app. simpl. lia. }
      intros r s' [stats'' [cur' [-> Hready'']]]. wp_steps. now apply IH'.
    + wp_steps. eapply wp_mono.
      { apply sync_row_returns; [|exact Hready].
        eapply query_valid. rewrite Hq. now left. }
      intros r s' [stats'' [cur' [-> Hready'']]]. wp_steps. now apply IH'.
  - wp_steps.
    apply wp_stats_incr_ready; [exact Hready|unfold counters; simpl; tauto|].
    intros stats' Hready'. wp_steps. now apply IH'.
Qed.

Section UnreadableRow.

Variable i : nat.
Variable hc : HostCategory.t.
Variable d : Directory.t.
Variable c : nat.

Local Abbreviation K := (row_stays i hc d c).

Lemma stays_alter s j f :
  K s ->
  (forall row,
     Session.hcds s !! j = Some row -> j = i ->
     HostCategoryDir.host_category_id (f row) = HostCategoryDir.host_category_id row /\
     HostCategoryDir.directory (f row) = HostCategoryDir.directory row) ->
  K (Session.set_hcds (alter f j (Session.hcds s)) s).
Proof.
  intros [[row [Hrow [Hid Hdir]]] Hc] Hf. split; [|exact Hc].
  unfold row_of. cbn [Session.hcds Session.set_hcds].
  destruct (decide (j = i)) as [->|Hne].
  - exists (f row). rewrite list_lookup_alter_eq, Hrow.
    destruct (Hf row Hrow eq_refl) as [-> ->]. auto.
  - exists row. rewrite list_lookup_alter_ne by exact Hne. auto.
Qed.

Lemma stays_set_up2date j v : preserves K (update_row j (set_up2date v)).
Proof.
  apply preserves_modify. intros s HK. apply stays_alter; [exact HK|].
  intros row _ _. split; reflexivity.
Qed.

Lemma stays_add j : preserves K (Session.add j).
Proof. apply preserves_modify. intros s HK. exact HK. Qed.

Lemma stays_sync_row hcd d' up2date stats current_hcds :
  preserves K (sync_row hcd d' up2date stats current_hcds).
Proof.
  intros s HK.
  change (wp (sync_row hcd d' up2date stats current_hcds) s (fun _ s' => K s')).
  unfold sync_row, row_at. wp_steps.
  destruct (Session.hcds s !! hcd) as [row|] eqn:Hrow; wp_steps; [|exact HK].
  assert (Hfirst :
    wp (match HostCategoryDir.directory row with
        | Some _ => ret tt
        | None => update_row hcd (set_directory d')
        end) s (fun _ s' => K s')).
  { destruct (HostCategoryDir.directory row) eqn:Hdir; [exact HK|].
    apply stays_alter; [exact HK|]. intros row0 Hrow0 ->.
    destruct HK as [[row1 [Hrow1 [_ Hdir1]]] _]. congruence. }
  eapply wp_mono; [exact Hfirst|]. intros r s1 HK1.
  destruct r; [|exact HK1..]. unfold wp_then, wp.
  apply (preserves_bind K); [|intros; apply preserves_ret|exact HK1].
  destruct (negb _); [|apply preserves_stats_incr].
  apply preserves_bind; [apply stays_set_up2date|]. intros _.
  apply preserves_bind; [apply stays_add|]. intros _.
  destruct (negb up2date); apply preserves_stats_incr.
Qed.

Lemma stays_new_hcd host_category_id path directory_id :
  preserves K (new_hcd host_category_id path directory_id).
Proof.
  intros s [[row [Hrow [Hid Hdir]]] Hc]. split; [|exact Hc].
  unfold row_of. exists row. unfold new_hcd, bind, get, modify, ret.
  cbn [fst snd Session.hcds Session.set_hcds].
  rewrite lookup_app_l by (eapply lookup_lt_Some, Hrow). auto.
Qed.

Lemma stays_sync_keys vm keys stats current_hcds :
  preserves K (sync_keys keys vm stats current_hcds).
Proof.
  apply keeps_sync_keys.
  - apply stays_sync_row.
  - intros. apply stays_new_hcd.
Qed.

Hypothesis unreadable : Directory.readable d = false.

(** The second pass over rows that are there: it stops at the counter that
    is not there, or the row is not among them. *)
Lemma sync_historical_stops current_hcds rows :
  forall stats s,
    stats_ready stats -> K s ->
    (forall j, In j rows -> (j < length (Session.hcds s))%nat) ->
    wp (sync_historical rows current_hcds stats) s
       (fun r s' =>
          K s' /\ length (Session.hcds s') = length (Session.hcds s) /\
          (r = Raise (KeyError "unreadable") \/
           (~ In i rows /\ exists stats', r = Ret stats' /\ stats_ready stats'))).
Proof.
  induction rows as [|j rows IH]; intros stats s Hready HK Hvalid;
    cbn [sync_historical].
  { wp_steps. split; [exact HK|]. split; [reflexivity|]. right. split; [intros []|eauto]. }
  unfold row_at. wp_steps.
  destruct (lookup_lt_is_Some_2 _ _ (Hvalid j (or_introl eq_refl))) as [row Hrow].
  rewrite Hrow. wp_steps.
  destruct (match HostCategoryDir.directory row with
            | Some directory => negb (Directory.readable directory)
            | None => false
            end) eqn:Hunreadable.
  { apply wp_bind, wp_stats_incr_unreadable; [exact Hready|].
    cbn [wp_then]. auto. }
  assert (Hne : j <> i).
  { intros ->. destruct HK as [[row' [Hrow' [_ Hdir']]] _].
    assert (row' = row) by congruence. subst row'.
    rewrite Hdir', unreadable in Hunreadable. discriminate. }
  assert (Hrest : forall stats' s',
            stats_ready stats' -> K s' ->
            length (Session.hcds s') = length (Session.hcds s) ->
            wp (sync_historical rows current_hcds stats') s'
               (fun r s'' =>
                  K s'' /\ length (Session.hcds s'') = length (Session.hcds s) /\
                  (r = Raise (KeyError "unreadable") \/
                   (~ In i (j :: rows) /\
                    exists stats'', r = Ret stats'' /\ stats_ready stats'')))).
  { intros stats' s' Hready' HK' Hlen. eapply wp_mono.
    - apply IH; [exact Hready'|exact HK'|].
      intros j' Hj'. rewrite Hlen. apply Hvalid. now right.
    - intros r s'' [HK'' [Hlen'' Hr]]. split; [exact HK''|]. split; [congruence|].
      destruct Hr as [->|[Hnot Hret]]; [now left|right].
      split; [|exact Hret]. intros [Heq|Hin]; [congruence|auto]. }
  destruct (negb (existsb _ _)); [|now apply Hrest].
  destruct (negb (option_bool_eqb _ _)); [|now apply Hrest].
  unfold update_row, Session.add. wp_steps.
  apply wp_stats_incr_ready; [exact Hready|unfold counters; simpl; tauto|].
  intros stats' Hready'. wp_steps. apply Hrest; [exact Hready'| |].
  - apply (stays_add j), (stays_set_up2date j (Some false)), HK.
  - cbn [Session.hcds Session.set_hcds Session.set_added]. apply length_alter.
Qed.

Lemma sync_categories_stops current_hcds categories :
  forall stats s,
    stats_ready stats -> K s ->
    wp (sync_categories categories current_hcds stats) s
       (fun r s' =>
          K s' /\
          (r = Raise (KeyError "unreadable") \/
           (~ (exists hc', In hc' categories /\ HostCategory.id hc' = HostCategory.id hc) /\
            exists stats', r = Ret stats' /\ stats_ready stats'))).
Proof.
  induction categories as [|hc' categories IH]; intros stats s Hready HK;
    cbn [sync_categories].
  { wp_steps. split; [exact HK|]. right. split; [intros [? [[] _]]|eauto]. }
  wp_steps. eapply wp_mono.
  { apply sync_historical_stops; [exact Hready|exact HK|].
    intros j. apply host_category_rows_valid. }
  intros r s' [HK' [Hlen Hr]]. destruct Hr as [->|[Hnot [stats' [-> Hready']]]].
  { cbn [wp_then]. auto. }
  wp_steps. eapply wp_mono; [apply IH; assumption|].
  intros r s'' [HK'' Hr]. split; [exact HK''|].
  destruct Hr as [->|[Hnone Hret]]; [now left|right]. split; [|exact Hret].
  intros [hc0 [[<-|Hin] Hid]]; [|apply Hnone; eauto].
  apply Hnot. destruct HK as [[row [Hrow [Hrid _]]] _].
  eapply host_category_rows_has; [exact Hrow|congruence].
Qed.

End UnreadableRow.

(** C1. A host category of the host with a row whose directory is not
    readable: [sync_hcds] ends with [KeyError] for the key [unreadable],
    which [stats] never had; nothing is committed and no statistics are
    reported. *)
Theorem sync_hcds_unreadable_aborts (E : Env.t) (host : Host.t) (vm : verdicts)
    (st : State.t) (hc : HostCategory.t) (i : nat) (d : Directory.t) :
  In hc (Host.categories host) ->
  row_of i hc d (State.session st) ->
  Directory.readable d = false ->
  let r := sync_hcds E host vm st in
  fst r = Raise (KeyError "unreadable") /\
  Session.commits (State.session (snd r)) = Session.commits (State.session st) /\
  World.trace (State.world (snd r)) = World.trace (State.world st).
Proof.
  intros Hhc Hrow Hunreadable r. subst r.
  change (wp (sync_hcds E host vm) st
            (fun r st' =>
               r = Raise (KeyError "unreadable") /\
               Session.commits (State.session st') = Session.commits (State.session st) /\
               World.trace (State.world st') = World.trace (State.world st))).
  set (K := row_stays i hc d (Session.commits (State.session st))).
  unfold sync_hcds, utcnow. wp_steps.
  cbn [State.session State.set_world State.set_session State.world].
  eapply wp_mono.
  { apply (wp_and_preserves K).
    - apply sync_keys_returns; [|apply stats_init_ready].
      intros hc' d' v Hin. eapply vm_lookup_in, in_sorted_by_name, Hin.
    - apply stays_sync_keys.
    - split; [exact Hrow|reflexivity]. }
  intros r s1 [[stats' [cur' [-> Hready]]] HK1]. wp_steps.
  cbn [State.session State.set_world State.set_session State.world fst snd].
  eapply wp_mono.
  { apply (sync_categories_stops i hc d (Session.commits (State.session st))
             Hunreadable); [exact Hready|exact HK1]. }
  intros r s2 [[_ Hc] Hr]. destruct Hr as [->|[Hnot _]].
  - cbn [wp_then]. cbn [State.session State.set_world State.set_session State.world].
    split; [reflexivity|]. split; [exact Hc|].
    cbn [World.next World.trace]. apply app_nil_r.
  - destruct Hnot. eauto.
Qed.
Lemma sync_hcds_unreadable_aborts_witness :
  let E := Ex.remote Ex.seconds Ex.head_ok Ex.ftp_busy in
  let hc := Ex.hc ["http://m.example/fedora"] in
  let st := Ex.state Ex.http_host
              [Ex.hcd "20" Ex.d20 None; Ex.hcd "secret" Ex.secret (Some true)] in
  fst (sync_hcds E Ex.http_host [(hc, Ex.d20, Some true); (hc, Ex.topdir, None)] st)
  = Raise (KeyError "unreadable") /\
  fst (worker E (Ex.options [] 120) Ex.config Ex.http_host st) = Ret 3 /\
  Session.commits
    (State.session (snd (worker E (Ex.options [] 120) Ex.config Ex.http_host st)))
  = 0%nat.
Proof.
  intros E hc st. split; [|split; reflexivity].
  apply (sync_hcds_unreadable_aborts E Ex.http_host
           [(hc, Ex.d20, Some true); (hc, Ex.topdir, None)] st hc 1 Ex.secret).
  - left. reflexivity.
  - exists (Ex.hcd "secret" Ex.secret (Some true)). repeat split.
  - reflexivity.
Defined.

(** ** The deadline *)

Lemma never_timeout_ret {S A} (a : A) : never_timeout (ret a : M S A).
Proof. intros s. discriminate. Qed.

Lemma never_timeout_raise {S A} (e : exn) :
  e <> TimeoutException -> never_timeout (raise e : M S A).
Proof. intros He s. simpl. congruence. Qed.

Lemma never_timeout_no_fuel {S A} : never_timeout (no_fuel : M S A).
Proof. intros s. discriminate. Qed.

Lemma never_timeout_get {S} : never_timeout (get : M S S).
Proof. intros s. discriminate. Qed.

Lemma never_timeout_gets {S A} (f : S -> A) : never_timeout (gets f).
Proof. intros s. discriminate. Qed.

Lemma never_timeout_modify {S} (f : S -> S) : never_timeout (modify f).
Proof. intros s. discriminate. Qed.

Lemma never_timeout_interact {A} ev (answer : nat -> A) :
  never_timeout (interact ev answer).
Proof. intros s. discriminate. Qed.

Lemma never_timeout_bind {S A B} (m : M S A) (k : A -> M S B) :
  never_timeout m -> (forall a, never_timeout (k a)) -> never_timeout (bind m k).
Proof.
  intros Hm Hk s. unfold bind. specialize (Hm s).
  destruct (m s) as [[a|e|] s']; simpl in *; [apply Hk| |discriminate].
  intros Heq. apply Hm. injection Heq as ->. reflexivity.
Qed.

Lemma never_timeout_zoom {S T A} (proj : T -> S) (put : S -> T -> T) (m : M S A) :
  never_timeout m -> never_timeout (zoom proj put m).
Proof.
  intros Hm t. unfold zoom. specialize (Hm (proj t)).
  destruct (m (proj t)) as [r s']. exact Hm.
Qed.

Lemma never_timeout_stats_incr {S} key stats :
  never_timeout (stats_incr key stats : M S _).
Proof. unfold stats_incr. destruct (stats !! key); intros s; discriminate. Qed.

Lemma never_timeout_stats_get {S} key stats :
  never_timeout (stats_get key stats : M S _).
Proof. unfold stats_get. destruct (stats !! key); intros s; discriminate. Qed.

Lemma never_timeout_for_each {S A} (l : list A) (body : A -> M S unit) :
  (forall x, never_timeout (body x)) -> never_timeout (for_each l body).
Proof.
  intros Hbody. induction l as [|x l IH]; simpl; [apply never_timeout_ret|].
  apply never_timeout_bind; [apply Hbody | intros _; exact IH].
Qed.

(** By the shape of the computation. *)
Ltac never_timeout_step :=
  lazymatch goal with
  | |- forall _, _ => intros ?
  | |- never_timeout (ret _) => apply never_timeout_ret
  | |- never_timeout no_fuel => apply never_timeout_no_fuel
  | |- never_timeout get => apply never_timeout_get
  | |- never_timeout (gets _) => apply never_timeout_gets
  | |- never_timeout (modify _) => apply never_timeout_modify
  | |- never_timeout (interact _ _) => apply never_timeout_interact
  | |- never_timeout (stats_incr _ _) => apply never_timeout_stats_incr
  | |- never_timeout (stats_get _ _) => apply never_timeout_stats_get
  | |- never_timeout (raise _) => apply never_timeout_raise; discriminate
  | |- never_timeout (zoom _ _ _) => apply never_timeout_zoom
  | |- never_timeout (in_world _) => apply never_timeout_zoom
  | |- never_timeout (in_session _) => apply never_timeout_zoom
  | |- never_timeout (bind _ _) => apply never_timeout_bind
  end.

Ltac never_timeout := repeat never_timeout_step.

Lemma never_timeout_sync_row hcd d up2date stats current_hcds :
  never_timeout (sync_row hcd d up2date stats current_hcds).
Proof.
  unfold sync_row, row_at, update_row, Session.add.
  apply never_timeout_bind.
  { apply never_timeout_bind; [never_timeout|]. intros s.
    destruct (Session.hcds s !! hcd); never_timeout. }
  intros row. apply never_timeout_bind.
  { destruct (HostCategoryDir.directory row); never_timeout. }
  intros _. apply never_timeout_bind; [|never_timeout].
  destruct (negb _); [|never_timeout].
  never_timeout. destruct (negb up2date); never_timeout.
Qed.

Lemma never_timeout_sync_keys vm keys :
  forall stats current_hcds, never_timeout (sync_keys keys vm stats current_hcds).
Proof.
  induction keys as [|[[hc d] v] keys IH]; intros stats current_hcds;
    cbn [sync_keys]; [never_timeout|].
  destruct (vm_lookup hc d vm) as [[up2date|]|]; [| |never_timeout].
  - apply never_timeout_bind; [never_timeout|]. intros session.
    destruct (get_hostcategorydir_by_hostcategoryid_and_path _ _ _).
    + destruct (negb up2date); [apply IH|].
      unfold new_hcd. never_timeout; [apply never_timeout_sync_row | apply IH].
    + apply never_timeout_bind; [apply never_timeout_sync_row|]. intros r. apply IH.
  - never_timeout. apply IH.
Qed.

Lemma never_timeout_sync_historical current_hcds rows :
  forall stats, never_timeout (sync_historical rows current_hcds stats).
Proof.
  induction rows as [|hcd rows IH]; intros stats; cbn [sync_historical];
    [never_timeout|].
  unfold row_at, update_row, Session.add.
  apply never_timeout_bind.
  { apply never_timeout_bind; [never_timeout|]. intros s.
    destruct (Session.hcds s !! hcd); never_timeout. }
  intros row.
  destruct (match HostCategoryDir.directory row with
            | Some directory => negb (Directory.readable directory)
            | None => false
            end).
  - never_timeout. apply IH.
  - destruct (negb (existsb _ _)); [|apply IH].
    destruct (negb (option_bool_eqb _ _)); [|apply IH].
    never_timeout. apply IH.
Qed.

Lemma never_timeout_sync_categories current_hcds categories :
  forall stats, never_timeout (sync_categories categories current_hcds stats).
Proof.
  induction categories as [|hc categories IH]; intros stats; cbn [sync_categories];
    [never_timeout|].
  never_timeout; [apply never_timeout_sync_historical | apply IH].
Qed.

Lemma never_timeout_sync_hcds E host vm : never_timeout (sync_hcds E host vm).
Proof.
  unfold sync_hcds, utcnow, report_stats, Session.commit.
  never_timeout.
  - apply never_timeout_sync_keys.
  - apply never_timeout_sync_categories.
Qed.

(** [sync_hcds] does not read the clock. *)
Lemma sync_hcds_timer E host vm st :
  State.timer (snd (sync_hcds E host vm st)) = State.timer st.
Proof.
  assert (H : forall A (m : C A),
             (forall st', State.timer (snd (m st')) = State.timer st') ->
             preserves (fun st' => State.timer st' = State.timer st) m).
  { intros A m Hm st' Hst'. now rewrite Hm. }
  assert (Hw : forall A (m : W A) st',
             State.timer (snd (in_world m st')) = State.timer st').
  { intros A m st'. unfold in_world, zoom. now destruct (m (State.world st')). }
  assert (Hs : forall A (m : M Session.t A) st',
             State.timer (snd (in_session m st')) = State.timer st').
  { intros A m st'. unfold in_session, zoom. now destruct (m (State.session st')). }
  refine ((_ : preserves (fun st' => State.timer st' = State.timer st)
                         (sync_hcds E host vm)) st eq_refl).
  unfold sync_hcds.
  repeat (apply preserves_bind; [apply H; first [apply Hw | apply Hs]|intros]).
  apply H, Hw.
Qed.
Lemma never_timeout_try_except {S A} (m : M S A) (h : exn -> M S A) :
  (forall e, never_timeout (h e)) -> never_timeout (try_except m h).
Proof.
  intros Hh s. unfold try_except.
  destruct (m s) as [[a|e|] s']; simpl; [discriminate|apply Hh|discriminate].
Qed.

Lemma frame_refl st : frame st st.
Proof. repeat split. Qed.

Lemma quiet_in_world {A} (m : W A) : quiet (in_world m).
Proof. intros st0. apply preserves_zoom_frame. intros w st H. exact H. Qed.

Lemma quiet_in_session {A} (m : M Session.t A) :
  (forall s, Session.commits (snd (m s)) = Session.commits s /\
             Session.closed (snd (m s)) = Session.closed s) ->
  quiet (in_session m).
Proof.
  intros Hm st0 st [Ht [Hc Hb]]. unfold in_session, zoom.
  destruct (Hm (State.session st)) as [Hc' Hb'].
  destruct (m (State.session st)) as [r s']. cbn [fst snd] in *.
  split; [exact Ht|].
  split; cbn [State.session State.set_session]; congruence.
Qed.

Lemma quiet_unchanged {A} (m : C A) : (forall st, snd (m st) = st) -> quiet m.
Proof. intros Hm st0 st H. now rewrite Hm. Qed.

Lemma quiet_bind {A B} (m : C A) (k : A -> C B) :
  quiet m -> (forall a, quiet (k a)) -> quiet (bind m k).
Proof. intros Hm Hk st0. apply preserves_bind; [apply Hm|intros a; apply Hk]. Qed.

Lemma quiet_try_except {A} (m : C A) (h : exn -> C A) :
  quiet m -> (forall e, quiet (h e)) -> quiet (try_except m h).
Proof. intros Hm Hh st0. apply preserves_try_except; [apply Hm|intros e; apply Hh]. Qed.

Lemma calm_bind {A B} (m : C A) (k : A -> C B) :
  calm m -> (forall a, calm (k a)) -> calm (bind m k).
Proof.
  intros [Hq Hn] Hk. split.
  - apply quiet_bind; [exact Hq|]. intros a. apply Hk.
  - apply never_timeout_bind; [exact Hn|]. intros a. apply Hk.
Qed.

Lemma calm_unchanged {A} (m : C A) :
  (forall st, snd (m st) = st) -> never_timeout m -> calm m.
Proof. intros Hm Hn. split; [now apply quiet_unchanged | exact Hn]. Qed.

Lemma calm_ret {A} (a : A) : calm (ret a).
Proof. apply calm_unchanged; [reflexivity | apply never_timeout_ret]. Qed.

Lemma calm_raise {A} (e : exn) : e <> TimeoutException -> calm (raise e : C A).
Proof. intros He. apply calm_unchanged; [reflexivity | now apply never_timeout_raise]. Qed.

Lemma calm_in_world {A} (m : W A) : never_timeout m -> calm (in_world m).
Proof. intros Hn. split; [apply quiet_in_world | now apply never_timeout_zoom]. Qed.

Lemma calm_add_parents m hc d : calm (add_parents m hc d).
Proof.
  apply calm_unchanged.
  - intros st. unfold add_parents. now destruct (add_parents_rec _ _ _ _ _).
  - intros st. unfold add_parents. destruct (add_parents_rec _ _ _ _ _); discriminate.
Qed.

Lemma calm_url_startswith categoryUrl p : calm (url_startswith categoryUrl p : C bool).
Proof. destruct categoryUrl; [apply calm_ret | apply calm_raise; discriminate]. Qed.

Lemma calm_mark_not_up2date E config host reason :
  calm (mark_not_up2date E config host reason).
Proof.
  unfold mark_not_up2date. apply calm_bind.
  { split; [apply quiet_in_session; intros s; split; reflexivity|].
    unfold set_not_up2date. never_timeout. }
  intros _. apply calm_bind.
  { apply calm_in_world. unfold utcnow. never_timeout. }
  intros now. apply calm_bind.
  { split; [apply quiet_in_session; intros s; split; reflexivity|]. never_timeout. }
  intros _. apply calm_in_world. unfold send_email.
  destruct (negb _); never_timeout.
Qed.

Lemma quiet_probe_dir E hc d url m : quiet (probe_dir E hc d url m).
Proof.
  unfold probe_dir. apply quiet_bind; [apply quiet_in_world|]. intros r.
  apply quiet_bind.
  { destruct r; [apply calm_ret | apply quiet_in_world]. }
  intros [[|]|]; [apply calm_add_parents|apply calm_ret..].
Qed.

(** *** Computations that read the clock *)

Lemma readings_ok_raise {A B} options start (e : exn) new :
  readings_ok (A:=A) options start (Raise e) new ->
  readings_ok (A:=B) options start (Raise e) new.
Proof. destruct e; exact (fun H => H). Qed.

Lemma timeout_or_not {A} (r : outcome A) :
  {r = Raise TimeoutException} + {r <> Raise TimeoutException}.
Proof. destruct r as [a|[]|]; (left; reflexivity) || (right; discriminate). Qed.

Lemma readings_ok_not_timeout {A} options start (r : outcome A) new :
  r <> Raise TimeoutException ->
  readings_ok options start r new <-> Forall (within options start) new.
Proof. intros Hr. destruct r as [a|[]|]; try reflexivity. congruence. Qed.

Lemma timed_of_calm {A} options (m : C A) : calm m -> timed options m.
Proof.
  intros [Hq Hn] st. unfold wp. destruct (Hq st st (frame_refl st)) as [Ht [Hc Hb]].
  split; [exact Hc|]. split; [exact Hb|]. rewrite Ht. split; [reflexivity|].
  exists []. split; [now rewrite app_nil_r|].
  apply readings_ok_not_timeout; [apply Hn|constructor].
Qed.

Lemma timed_bind {A B} options (m : C A) (k : A -> C B) :
  timed options m -> (forall a, timed options (k a)) -> timed options (bind m k).
Proof.
  intros Hm Hk st. specialize (Hm st). unfold wp, bind in *.
  destruct (m st) as [r st1]. cbn [fst snd] in Hm.
  destruct Hm as [Hc [Hb [Hs [new [Hnew Hok]]]]].
  destruct r as [a|e|].
  - specialize (Hk a st1). unfold wp in Hk.
    destruct (k a st1) as [r2 st2]. cbn [fst snd] in *.
    destruct Hk as [Hc2 [Hb2 [Hs2 [new2 [Hnew2 Hok2]]]]].
    split; [congruence|]. split; [congruence|]. split; [congruence|].
    exists (new ++ new2). split; [rewrite Hnew2, Hnew; symmetry; apply app_assoc|].
    rewrite Hs in Hok2. cbn [readings_ok] in Hok.
    destruct (timeout_or_not r2) as [->|Hr2].
    + destruct Hok2 as [pre [last [-> [Hpre Hlast]]]].
      exists (new ++ pre), last. split; [apply app_assoc|].
      split; [apply Forall_app; auto | exact Hlast].
    + apply readings_ok_not_timeout; [exact Hr2|].
      apply readings_ok_not_timeout in Hok2; [|exact Hr2].
      apply Forall_app; auto.
  - cbn [fst snd]. repeat (split; [assumption|]).
    exists new. split; [exact Hnew|]. eapply readings_ok_raise, Hok.
  - cbn [fst snd]. repeat (split; [assumption|]).
    exists new. split; [exact Hnew|]. exact Hok.
Qed.

Lemma timed_timeout_check E options : timed options (in_timer (timeout_check E options)).
Proof.
  intros st. unfold wp, in_timer, zoom, timeout_check, bind, time_time, gets.
  cbn [fst snd Timer.starttime Timer.read].
  set (now := Env.clock E (length (Timer.readings (State.timer st)))).
  destruct (Z.gtb_spec (now - Timer.starttime (State.timer st))
                       (Options.timeout_minutes options * 60)) as [Hover|Hin];
    cbn [fst snd raise ret State.session State.set_timer State.timer
         Timer.starttime Timer.readings Timer.read];
    (split; [reflexivity|]); (split; [reflexivity|]); (split; [reflexivity|]);
    exists [now]; (split; [reflexivity|]).
  - exists [], now. split; [reflexivity|]. split; [constructor|].
    unfold within. lia.
  - repeat constructor. exact Hin.
Qed.
Lemma timed_rsync_dirs E options rsync categoryPrefixLen hc trydirs :
  forall m, timed options (rsync_dirs E options rsync categoryPrefixLen hc trydirs m).
Proof.
  induction trydirs as [|row trydirs IH]; intros m; cbn [rsync_dirs].
  { apply timed_of_calm, calm_ret. }
  apply timed_bind; [apply timed_timeout_check|]. intros _.
  destruct (HostCategoryDir.directory row) as [d|];
    [|apply timed_of_calm, calm_raise; discriminate].
  destruct (negb (Directory.readable d)); [apply IH|].
  destruct (Directory.files d) as [files|];
    [|apply timed_of_calm, calm_raise; discriminate].
  destruct (negb (rsync_all_files _ _ _)); [apply IH|].
  apply timed_bind; [apply timed_of_calm, calm_add_parents|]. intros m'. apply IH.
Qed.

Lemma timed_try_per_category E trydirs url m hc host categoryPrefixLen options config :
  timed options
        (try_per_category E trydirs url m hc host categoryPrefixLen options config).
Proof.
  unfold try_per_category.
  destruct (negb (Py.startswith url "rsync")); [apply timed_of_calm, calm_ret|].
  apply timed_bind.
  { apply timed_of_calm, calm_in_world, never_timeout_interact. }
  intros [|result listing]; [apply timed_of_calm, calm_ret|].
  destruct (result =? 10); [apply timed_of_calm, calm_ret|].
  destruct (size _ =? 0)%nat; [apply timed_of_calm, calm_ret|].
  apply timed_bind; [apply timed_rsync_dirs|]. intros m'.
  destruct (0 <? length m')%nat; [apply timed_of_calm, calm_ret|].
  apply timed_of_calm, calm_bind; [apply calm_mark_not_up2date|].
  intros _. apply calm_ret.
Qed.

(** One round of the directory loop past the deadline check: the probes are
    in a [try] and the handlers are calm. *)
Lemma calm_walk_round E config host hc d url categoryUrl try_later_delay m :
  calm (try_except
          (m' <- probe_dir E hc d url m ;; ret (Some (m', try_later_delay)))
          (fun e =>
             match e with
             | TryLater =>
                 url_startswith categoryUrl "http" ;;
                 in_world (time_sleep try_later_delay) ;;
                 ret (Some (m, backoff try_later_delay))
             | _ =>
                 mark_not_up2date E config host unhandled_reason ;;
                 ret None
             end)).
Proof.
  assert (Hhandler : forall e,
    calm (match e with
          | TryLater =>
              url_startswith categoryUrl "http" ;;
              in_world (time_sleep try_later_delay) ;;
              ret (Some (m, backoff try_later_delay))
          | _ =>
              mark_not_up2date E config host unhandled_reason ;;
              ret None
          end : C (option (verdicts * Z)))).
  { intros e.
    assert (Hmark : calm (mark_not_up2date E config host unhandled_reason ;;
                          ret None : C (option (verdicts * Z)))).
    { apply calm_bind; [apply calm_mark_not_up2date|]. intros _. apply calm_ret. }
    destruct e; try exact Hmark.
    apply calm_bind; [apply calm_url_startswith|]. intros _.
    apply calm_bind; [apply calm_in_world, never_timeout_interact|].
    intros _. apply calm_ret. }
  split.
  - apply quiet_try_except; [|intros e; apply Hhandler].
    apply quiet_bind; [apply quiet_probe_dir|]. intros m'. apply calm_ret.
  - apply never_timeout_try_except. intros e. apply Hhandler.
Qed.

Lemma timed_walk_dirs E options config host hc categoryUrl categoryPrefixLen trydirs :
  forall try_later_delay m rc,
    timed options
          (walk_dirs E options config host hc categoryUrl categoryPrefixLen
                     trydirs try_later_delay m rc).
Proof.
  induction trydirs as [|row trydirs IH]; intros try_later_delay m rc;
    cbn [walk_dirs].
  { apply timed_of_calm, calm_ret. }
  apply timed_bind; [apply timed_timeout_check|]. intros _.
  destruct (HostCategoryDir.directory row) as [d|];
    [|apply timed_of_calm, calm_raise; discriminate].
  destruct (negb (Directory.readable d)); [apply IH|].
  destruct (Options.canary options && _); [apply IH|].
  apply timed_bind; [apply timed_of_calm, calm_walk_round|].
  intros [[m' delay']|]; [apply IH | apply timed_of_calm, calm_ret].
Qed.

Lemma timed_walk_categories E options config host items :
  forall m rc, timed options (walk_categories E options config host items m rc).
Proof.
  induction items as [|[hc|l] items IH]; intros m rc; cbn [walk_categories].
  - apply timed_of_calm, calm_ret.
  - destruct (HostCategory.always_up2date hc); [apply IH|].
    destruct (method_pref (HostCategory.urls hc) "") as [categoryUrl|]; [|apply IH].
    apply timed_bind.
    { apply timed_of_calm, calm_unchanged; [reflexivity|apply never_timeout_gets]. }
    intros session. apply timed_bind; [apply timed_try_per_category|].
    intros [[b|] m']; cbn [fst snd]; [apply IH|].
    apply timed_bind; [apply timed_walk_dirs|]. intros r.
    apply timed_bind; [apply timed_of_calm, calm_url_startswith|]. intros _.
    apply IH.
  - apply timed_of_calm, calm_raise. discriminate.
Qed.

Lemma walked_of_timed {A} options (m : C A) : timed options m -> walked options m.
Proof.
  intros Hm st. eapply wp_mono; [apply Hm|].
  intros r st' [Hc [Hb [Hs [new [Hnew Hok]]]]]. split; [exact Hs|].
  exists new. auto.
Qed.

Lemma walked_of_silent {A} options (m : C A) : silent m -> walked options m.
Proof.
  intros [Ht Hn] st. unfold wp, walked_post. rewrite Ht. split; [reflexivity|].
  exists []. split; [now rewrite app_nil_r|]. split.
  - apply readings_ok_not_timeout; [apply Hn|constructor].
  - intros Hr. destruct (Hn st Hr).
Qed.

Lemma walked_bind {A B} options (m : C A) (k : A -> C B) :
  timed options m -> (forall a, walked options (k a)) -> walked options (bind m k).
Proof.
  intros Hm Hk st. specialize (Hm st). unfold wp, bind in *.
  destruct (m st) as [r st1]. cbn [fst snd] in Hm.
  destruct Hm as [Hc [Hb [Hs [new [Hnew Hok]]]]].
  destruct r as [a|e|].
  - specialize (Hk a st1). unfold wp in Hk.
    destruct (k a st1) as [r2 st2]. cbn [fst snd] in *.
    destruct Hk as [Hs2 [new2 [Hnew2 [Hok2 Hframe2]]]].
    split; [congruence|].
    exists (new ++ new2). split; [rewrite Hnew2, Hnew; symmetry; apply app_assoc|].
    rewrite Hs in Hok2. cbn [readings_ok] in Hok. split.
    + destruct (timeout_or_not r2) as [->|Hr2].
      * destruct Hok2 as [pre [last [-> [Hpre Hlast]]]].
        exists (new ++ pre), last. split; [apply app_assoc|].
        split; [apply Forall_app; auto | exact Hlast].
      * apply readings_ok_not_timeout; [exact Hr2|].
        apply readings_ok_not_timeout in Hok2; [|exact Hr2].
        apply Forall_app; auto.
    + intros Hr2. destruct (Hframe2 Hr2). split; congruence.
  - cbn [fst snd]. split; [exact Hs|]. exists new. split; [exact Hnew|].
    split; [eapply readings_ok_raise, Hok|auto].
  - cbn [fst snd]. split; [exact Hs|]. exists new. split; [exact Hnew|].
    split; [exact Hok|discriminate].
Qed.

Lemma silent_ret {A} (a : A) : silent (ret a).
Proof. split; [reflexivity | apply never_timeout_ret]. Qed.

Lemma silent_bind {A B} (m : C A) (k : A -> C B) :
  silent m -> (forall a, silent (k a)) -> silent (bind m k).
Proof.
  intros [Ht Hn] Hk. split.
  - intros st. unfold bind. specialize (Ht st).
    destruct (m st) as [[a|e|] st1]; cbn [fst snd] in *; [|exact Ht..].
    destruct (Hk a) as [Hkt _]. now rewrite Hkt.
  - apply never_timeout_bind; [exact Hn|]. intros a. apply Hk.
Qed.

Lemma silent_sync_hcds E host vm : silent (sync_hcds E host vm).
Proof. split; [apply sync_hcds_timer | apply never_timeout_sync_hcds]. Qed.

Lemma never_timeout_hoststate_close E : never_timeout (hoststate_close E).
Proof.
  unfold hoststate_close. never_timeout.
  - apply never_timeout_for_each. intros x. unfold close_http, with_hoststate.
    never_timeout.
  - apply never_timeout_for_each. intros x. unfold close_ftp, with_hoststate.
    never_timeout.
Qed.

Lemma walked_per_host E host_id options config :
  walked options (per_host E host_id options config).
Proof.
  unfold per_host. apply walked_bind.
  { apply timed_of_calm, calm_unchanged; [reflexivity|apply never_timeout_gets]. }
  intros session.
  destruct (get_host session host_id) as [host|];
    [|apply walked_of_timed, timed_of_calm, calm_raise; discriminate].
  destruct (Host.private host && negb (Options.include_private options));
    [apply walked_of_timed, timed_of_calm, calm_ret|].
  apply walked_bind.
  { apply timed_of_calm, calm_in_world, never_timeout_modify. }
  intros _. destruct (length _ =? 0)%nat.
  { apply walked_bind; [apply timed_of_calm, calm_mark_not_up2date|].
    intros _. apply walked_of_timed, timed_of_calm, calm_ret. }
  apply walked_bind; [apply timed_walk_categories|]. intros r.
  apply walked_bind.
  { apply timed_of_calm, calm_in_world, never_timeout_hoststate_close. }
  intros _. apply walked_of_silent, silent_bind; [|intros _; apply silent_ret].
  destruct (snd r =? 0); [|apply silent_ret].
  destruct (0 <? length (fst r))%nat; [apply silent_sync_hcds | apply silent_ret].
Qed.

(** C9. When a reading of the clock by [timeout_check] is past the deadline,
    the worker returns 2, and its session is neither committed nor
    closed. *)
Theorem deadline_unwinds_worker (E : Env.t) (options : Options.t)
    (config : Config.t) (host : Host.t) (st : State.t) :
  let start := Env.clock E (length (Timer.readings (State.timer st))) in
  let r := worker E options config host st in
  Exists (fun now => now - start > Options.timeout_minutes options * 60)
         (deadline_checks st (snd r)) ->
  fst r = Ret 2 /\
  Session.commits (State.session (snd r)) = Session.commits (State.session st) /\
  Session.closed (State.session (snd r)) = Session.closed (State.session st).
Proof.
  intros start r. subst r.
  change (wp (worker E options config host) st
            (fun r st' =>
               Exists (fun now => now - start > Options.timeout_minutes options * 60)
                      (deadline_checks st st') ->
               r = Ret 2 /\
               Session.commits (State.session st') = Session.commits (State.session st) /\
               Session.closed (State.session st') = Session.closed (State.session st))).
  unfold worker. wp_steps. fold start.
  set (st1 := State.set_timer _ (State.set_timer _ st)).
  assert (Hreadings : Timer.readings (State.timer st1)
                      = Timer.readings (State.timer st) ++ [start]) by reflexivity.
  assert (Hstart : Timer.starttime (State.timer st1) = start) by reflexivity.
  assert (Hsession : State.session st1 = State.session st) by reflexivity.
  clearbody st1.
  assert (Hchecks : forall st' new,
            Timer.readings (State.timer st')
            = Timer.readings (State.timer st1) ++ new ->
            deadline_checks st st' = new).
  { intros st' new Hnew. unfold deadline_checks.
    rewrite Hnew, Hreadings.
    rewrite drop_app_length'; [reflexivity|].
    rewrite length_app. simpl. lia. }
  assert (Hover : forall (A : Type) (r : outcome A) new,
            readings_ok options start r new ->
            Exists (fun now => now - start > Options.timeout_minutes options * 60) new ->
            r = Raise TimeoutException).
  { intros A r new Hok Hex. destruct (timeout_or_not r) as [|Hr]; [assumption|].
    apply readings_ok_not_timeout in Hok; [|exact Hr].
    apply List.Exists_exists in Hex. destruct Hex as [now [Hin Hnow]].
    rewrite List.Forall_forall in Hok. specialize (Hok now Hin).
    unfold within in Hok. lia. }
  pose proof (walked_per_host E (Host.id host) options config st1) as Hph.
  unfold wp in Hph. unfold wp.
  destruct (per_host E (Host.id host) options config st1) as [rph st2].
  cbn [fst snd] in *.
  destruct Hph as [Hs [new [Hnew [Hok Hframe]]]]. rewrite Hstart in Hok.
  destruct rph as [rc|e|]; cbn [wp_then wp_handle].
  - unfold Session.commit, Session.close. wp_steps.
    intros Hex. erewrite Hchecks in Hex by exact Hnew.
    apply (Hover _ _ _ Hok) in Hex. discriminate.
  - destruct e; wp_steps; intros Hex; erewrite Hchecks in Hex by exact Hnew;
      try (apply (Hover _ _ _ Hok) in Hex; discriminate).
    destruct (Hframe eq_refl) as [Hc Hb]. rewrite Hsession in Hc, Hb. auto.
  - intros Hex. erewrite Hchecks in Hex by exact Hnew.
    apply (Hover _ _ _ Hok) in Hex. discriminate.
Qed.
Lemma deadline_unwinds_worker_witness :
  let E := Ex.remote Ex.late Ex.head_ok Ex.ftp_busy in
  let st := Ex.state Ex.http_host [Ex.hcd "20" Ex.d20 None] in
  let r := worker E (Ex.options [] 120) Ex.config Ex.http_host st in
  deadline_checks st (snd r) = [100000] /\
  World.trace (State.world (snd r)) = [] /\
  fst r = Ret 2 /\
  Session.commits (State.session (snd r)) = 0%nat /\
  Session.closed (State.session (snd r)) = false.
Proof.
  intros E st r. split; [reflexivity|]. split; [reflexivity|].
  apply (deadline_unwinds_worker E (Ex.options [] 120) Ex.config Ex.http_host st).
  change (deadline_checks st
            (snd (worker E (Ex.options [] 120) Ex.config Ex.http_host st)))
    with [100000].
  apply List.Exists_cons_hd. reflexivity.
Defined.

(** ** The fuel is enough *)

Lemma has_fuel_ret {S A} (a : A) : has_fuel (ret a : M S A).
Proof. intros s. discriminate. Qed.

Lemma has_fuel_raise {S A} (e : exn) : has_fuel (raise e : M S A).
Proof. intros s. discriminate. Qed.

Lemma has_fuel_get {S} : has_fuel (get : M S S).
Proof. intros s. discriminate. Qed.

Lemma has_fuel_gets {S A} (f : S -> A) : has_fuel (gets f).
Proof. intros s. discriminate. Qed.

Lemma has_fuel_modify {S} (f : S -> S) : has_fuel (modify f).
Proof. intros s. discriminate. Qed.

Lemma has_fuel_interact {A} ev (answer : nat -> A) : has_fuel (interact ev answer).
Proof. intros s. discriminate. Qed.

Lemma has_fuel_time_time E : has_fuel (time_time E).
Proof. intros s. discriminate. Qed.

Lemma has_fuel_bind {S A B} (m : M S A) (k : A -> M S B) :
  has_fuel m -> (forall a, has_fuel (k a)) -> has_fuel (bind m k).
Proof.
  intros Hm Hk s. unfold bind. specialize (Hm s).
  destruct (m s) as [[a|e|] s']; simpl in *; [apply Hk|discriminate|congruence].
Qed.

Lemma has_fuel_try_except {S A} (m : M S A) (h : exn -> M S A) :
  has_fuel m -> (forall e, has_fuel (h e)) -> has_fuel (try_except m h).
Proof.
  intros Hm Hh s. unfold try_except. specialize (Hm s).
  destruct (m s) as [[a|e|] s']; simpl in *; [discriminate|apply Hh|congruence].
Qed.

Lemma has_fuel_zoom {S T A} (proj : T -> S) (put : S -> T -> T) (m : M S A) :
  has_fuel m -> has_fuel (zoom proj put m).
Proof.
  intros Hm t. unfold zoom. specialize (Hm (proj t)).
  destruct (m (proj t)) as [r s']. exact Hm.
Qed.

Lemma has_fuel_stats_incr {S} key stats : has_fuel (stats_incr key stats : M S _).
Proof. unfold stats_incr. destruct (stats !! key); intros s; discriminate. Qed.

Lemma has_fuel_stats_get {S} key stats : has_fuel (stats_get key stats : M S _).
Proof. unfold stats_get. destruct (stats !! key); intros s; discriminate. Qed.

Lemma has_fuel_index {S A} (l : list A) i : has_fuel (index l i : M S A).
Proof. unfold index. destruct (l !! i); intros s; discriminate. Qed.

Lemma has_fuel_for_each {S A} (l : list A) (body : A -> M S unit) :
  (forall x, has_fuel (body x)) -> has_fuel (for_each l body).
Proof.
  intros Hbody. induction l as [|x l IH]; simpl; [apply has_fuel_ret|].
  apply has_fuel_bind; [apply Hbody | intros _; exact IH].
Qed.

Lemma has_fuel_with_hoststate f : has_fuel (with_hoststate f).
Proof. apply has_fuel_modify. Qed.

Lemma has_fuel_url_startswith {S} categoryUrl p :
  has_fuel (url_startswith categoryUrl p : M S bool).
Proof. destruct categoryUrl; [apply has_fuel_ret | apply has_fuel_raise]. Qed.

(** By the shape of the computation. *)
Ltac has_fuel_step :=
  lazymatch goal with
  | |- forall _, _ => intros ?
  | |- has_fuel (ret _) => apply has_fuel_ret
  | |- has_fuel (raise _) => apply has_fuel_raise
  | |- has_fuel get => apply has_fuel_get
  | |- has_fuel (gets _) => apply has_fuel_gets
  | |- has_fuel (modify _) => apply has_fuel_modify
  | |- has_fuel (interact _ _) => apply has_fuel_interact
  | |- has_fuel (time_time _) => apply has_fuel_time_time
  | |- has_fuel (stats_incr _ _) => apply has_fuel_stats_incr
  | |- has_fuel (stats_get _ _) => apply has_fuel_stats_get
  | |- has_fuel (index _ _) => apply has_fuel_index
  | |- has_fuel (with_hoststate _) => apply has_fuel_with_hoststate
  | |- has_fuel (url_startswith _ _) => apply has_fuel_url_startswith
  | |- has_fuel (zoom _ _ _) => apply has_fuel_zoom
  | |- has_fuel (in_world _) => apply has_fuel_zoom
  | |- has_fuel (in_timer _) => apply has_fuel_zoom
  | |- has_fuel (in_session _) => apply has_fuel_zoom
  | |- has_fuel (bind _ _) => apply has_fuel_bind
  | |- has_fuel (try_except _ _) => apply has_fuel_try_except
  | |- has_fuel (if ?b then _ else _) => destruct b
  | |- has_fuel (match ?x with _ => _ end) => destruct x
  end.

Ltac has_fuel := repeat has_fuel_step.

Lemma has_fuel_ftp_dir E url : has_fuel (ftp_dir E url).
Proof. unfold ftp_dir, _open_ftp. has_fuel. Qed.

Lemma has_fuel_close_ftp E url : has_fuel (close_ftp E url).
Proof. unfold close_ftp. has_fuel. Qed.

Lemma has_fuel_close_http E url : has_fuel (close_http E url).
Proof. unfold close_http. has_fuel. Qed.

Lemma has_fuel_open_http E url : has_fuel (open_http E url).
Proof. unfold open_http. has_fuel. Qed.

Lemma has_fuel_get_ftp_dir_rec E url readable (fuel : nat) :
  forall i, (Z.to_nat (2 - i) < fuel)%nat ->
            has_fuel (get_ftp_dir_rec E fuel url readable i).
Proof.
  induction fuel as [|fuel IH]; intros i Hfuel; [lia|].
  cbn [get_ftp_dir_rec]. destruct (Z.gtb_spec i 1) as [Hgt|Hle]; [has_fuel|].
  assert (Hnext : has_fuel (get_ftp_dir_rec E fuel url readable (i + 1)))
    by (apply IH; lia).
  assert (Hclose := has_fuel_close_ftp E url).
  apply has_fuel_try_except.
  { apply has_fuel_bind; [apply has_fuel_ftp_dir|]. has_fuel. }
  intros e. destruct e; has_fuel; assumption.
Qed.

Lemma has_fuel_get_ftp_dir E url readable : has_fuel (get_ftp_dir E url readable).
Proof. apply has_fuel_get_ftp_dir_rec. simpl. lia. Qed.

Lemma has_fuel_check_ftp_file E url filedata readable :
  has_fuel (check_ftp_file E url filedata readable).
Proof.
  unfold check_ftp_file. apply has_fuel_bind.
  - apply has_fuel_try_except.
    + apply has_fuel_bind; [apply has_fuel_get_ftp_dir|]. has_fuel.
    + intros e. destruct e; has_fuel.
  - intros [[[|first [|second rest]]|]|]; has_fuel.
Qed.

(** The three functions of the HTTP probe, each with the fuel its depth of
    calls asks for. *)
Lemma has_fuel_http_rec E filedata readable (fuel : nat) :
  (forall url recursion,
     (4 + 4 * Z.to_nat (11 - recursion) <= fuel)%nat ->
     has_fuel (check_url_rec E fuel url filedata recursion readable)) /\
  (forall url location recursion,
     (1 + 4 * Z.to_nat (11 - recursion) <= fuel)%nat ->
     has_fuel (handle_redirect_rec E fuel url location filedata recursion readable)) /\
  (forall url recursion (retry : Z),
     ((if (retry =? 0)%Z then 3 else 2) + 4 * Z.to_nat (11 - recursion) <= fuel)%nat ->
     has_fuel (check_head_rec E fuel url filedata recursion readable retry)).
Proof.
  induction fuel as [|fuel [IHurl [IHredirect IHhead]]].
  { repeat split; intros; try lia. destruct (retry =? 0)%Z; lia. }
  repeat split.
  - intros url recursion Hfuel. cbn [check_url_rec].
    destruct (Py.startswith url "http:").
    + apply IHhead. simpl. lia.
    + destruct (Py.startswith url "ftp:"); [apply has_fuel_check_ftp_file|has_fuel].
  - intros url location recursion Hfuel. cbn [handle_redirect_rec].
    destruct (Z.gtb_spec recursion 10) as [Hgt|Hle]; [has_fuel|].
    destruct location as [location|]; [|has_fuel].
    apply IHurl. lia.
  - intros url recursion retry Hfuel. cbn [check_head_rec].
    assert (Hopen := has_fuel_open_http E url).
    assert (Hclose := has_fuel_close_http E url).
    apply has_fuel_bind; [has_fuel|]. intros reply.
    destruct reply as [| | |status content_length location keepalive_ok].
    + has_fuel.
    + has_fuel; assumption.
    + apply has_fuel_bind; [assumption|]. intros _.
      apply has_fuel_bind; [has_fuel|]. intros _.
      destruct (retry =? 0)%Z eqn:Hretry; [|has_fuel].
      apply has_fuel_bind; [assumption|]. intros _.
      apply IHhead. change (1 =? 0)%Z with false. cbv iota. lia.
    + apply has_fuel_bind; [assumption|]. intros _.
      apply has_fuel_bind; [has_fuel|]. intros _.
      apply has_fuel_bind; [destruct keepalive_ok; [has_fuel|assumption]|].
      intros _.
      destruct ((status >=? 200) && (status <? 300)); [has_fuel|].
      destruct ((status >=? 300) && (status <? 400)).
      * apply IHredirect. destruct (retry =? 0)%Z; lia.
      * has_fuel.
Qed.

Lemma has_fuel_check_url E url filedata recursion readable :
  has_fuel (check_url E url filedata recursion readable).
Proof.
  unfold check_url, fuel_for.
  apply (has_fuel_http_rec E filedata readable). lia.
Qed.

Lemma has_fuel_compare_sha256 E d filename graburl :
  has_fuel (compare_sha256 E d filename graburl).
Proof. unfold compare_sha256. has_fuel. Qed.

Lemma has_fuel_try_per_file E d url : has_fuel (try_per_file E d url).
Proof.
  unfold try_per_file. destruct (Directory.files d) as [files|]; [|has_fuel].
  generalize (@None bool). induction files as [|[filename filedata] files IH];
    intros exists_; cbn [try_per_file_loop]; [has_fuel|].
  assert (Hclose := has_fuel_close_ftp E url).
  apply has_fuel_bind.
  { apply has_fuel_try_except.
    - apply has_fuel_bind; [apply has_fuel_check_url|]. has_fuel.
    - intros e. destruct e; has_fuel; assumption. }
  intros [exists'|returned]; [|has_fuel].
  destruct (is_false exists'); [has_fuel|].
  destruct (String.eqb filename "repomd.xml"); [|apply IH].
  apply has_fuel_bind.
  { apply has_fuel_try_except; [|has_fuel].
    apply has_fuel_bind; [apply has_fuel_compare_sha256|]. has_fuel. }
  intros exists''. destruct (is_false exists''); [has_fuel|apply IH].
Qed.

Lemma has_fuel_try_per_dir E d url : has_fuel (try_per_dir E d url).
Proof.
  unfold try_per_dir. destruct (Directory.files d) as [files|]; [|has_fuel].
  destruct (negb (Py.startswith url "ftp")); [has_fuel|].
  apply has_fuel_bind; [apply has_fuel_get_ftp_dir|].
  intros [[|line listing]|]; has_fuel.
Qed.

Lemma has_fuel_add_parents m hc d : has_fuel (add_parents m hc d).
Proof.
  intros st. destruct (add_parents_rec_spec (S (String.length (Directory.name d)))
                         (State.session st) hc m d ltac:(lia)) as [m' [Hrec _]].
  unfold add_parents. rewrite Hrec. discriminate.
Qed.

Lemma has_fuel_mark_not_up2date E config host reason :
  has_fuel (mark_not_up2date E config host reason).
Proof. unfold mark_not_up2date, set_not_up2date, utcnow, send_email. has_fuel. Qed.

Lemma has_fuel_timeout_check E options : has_fuel (timeout_check E options).
Proof. unfold timeout_check. has_fuel. Qed.

Lemma has_fuel_rsync_dirs E options rsync categoryPrefixLen hc trydirs :
  forall m, has_fuel (rsync_dirs E options rsync categoryPrefixLen hc trydirs m).
Proof.
  induction trydirs as [|row trydirs IH]; intros m; cbn [rsync_dirs]; [has_fuel|].
  apply has_fuel_bind; [apply has_fuel_zoom, has_fuel_timeout_check|]. intros _.
  destruct (HostCategoryDir.directory row) as [d|]; [|has_fuel].
  destruct (negb (Directory.readable d)); [apply IH|].
  destruct (Directory.files d) as [files|]; [|has_fuel].
  destruct (negb (rsync_all_files _ _ _)); [apply IH|].
  apply has_fuel_bind; [apply has_fuel_add_parents|]. intros m'. apply IH.
Qed.

Lemma has_fuel_try_per_category E trydirs url m hc host categoryPrefixLen options config :
  has_fuel (try_per_category E trydirs url m hc host categoryPrefixLen options config).
Proof.
  unfold try_per_category.
  destruct (negb (Py.startswith url "rsync")); [has_fuel|].
  apply has_fuel_bind; [has_fuel|].
  intros [|result listing]; [has_fuel|].
  destruct (result =? 10); [has_fuel|].
  destruct (size _ =? 0)%nat; [has_fuel|].
  apply has_fuel_bind; [apply has_fuel_rsync_dirs|]. intros m'.
  destruct (0 <? length m')%nat; [has_fuel|].
  apply has_fuel_bind; [apply has_fuel_mark_not_up2date|]. has_fuel.
Qed.

Lemma has_fuel_probe_dir E hc d url m : has_fuel (probe_dir E hc d url m).
Proof.
  unfold probe_dir.
  apply has_fuel_bind; [apply has_fuel_zoom, has_fuel_try_per_dir|]. intros r.
  apply has_fuel_bind.
  { destruct r; [has_fuel | apply has_fuel_zoom, has_fuel_try_per_file]. }
  intros [[|]|]; [apply has_fuel_add_parents|has_fuel..].
Qed.

Lemma has_fuel_walk_dirs E options config host hc categoryUrl categoryPrefixLen trydirs :
  forall try_later_delay m rc,
    has_fuel (walk_dirs E options config host hc categoryUrl categoryPrefixLen
                        trydirs try_later_delay m rc).
Proof.
  induction trydirs as [|row trydirs IH]; intros try_later_delay m rc;
    cbn [walk_dirs]; [has_fuel|].
  apply has_fuel_bind; [apply has_fuel_zoom, has_fuel_timeout_check|]. intros _.
  destruct (HostCategoryDir.directory row) as [d|]; [|has_fuel].
  destruct (negb (Directory.readable d)); [apply IH|].
  destruct (Options.canary options && _); [apply IH|].
  apply has_fuel_bind.
  { apply has_fuel_try_except.
    - apply has_fuel_bind; [apply has_fuel_probe_dir|]. has_fuel.
    - intros e.
      assert (Hmark := has_fuel_mark_not_up2date E config host unhandled_reason).
      unfold time_sleep. destruct e; has_fuel; assumption. }
  intros [[m' delay']|]; [apply IH | has_fuel].
Qed.

Lemma has_fuel_walk_categories E options config host items :
  forall m rc, has_fuel (walk_categories E options config host items m rc).
Proof.
  induction items as [|[hc|l] items IH]; intros m rc; cbn [walk_categories];
    [has_fuel| |has_fuel].
  destruct (HostCategory.always_up2date hc); [apply IH|].
  destruct (method_pref (HostCategory.urls hc) "") as [categoryUrl|]; [|apply IH].
  apply has_fuel_bind; [has_fuel|]. intros session.
  apply has_fuel_bind; [apply has_fuel_try_per_category|].
  intros [[b|] m']; cbn [fst snd]; [apply IH|].
  apply has_fuel_bind; [apply has_fuel_walk_dirs|]. intros r.
  apply has_fuel_bind; [has_fuel|]. intros _. apply IH.
Qed.

Lemma has_fuel_row_at i : has_fuel (row_at i).
Proof. unfold row_at. has_fuel. Qed.

Lemma has_fuel_sync_row hcd d up2date stats current_hcds :
  has_fuel (sync_row hcd d up2date stats current_hcds).
Proof.
  unfold sync_row, update_row, Session.add.
  apply has_fuel_bind; [apply has_fuel_row_at|]. has_fuel.
Qed.

Lemma has_fuel_sync_keys vm keys :
  forall stats current_hcds, has_fuel (sync_keys keys vm stats current_hcds).
Proof.
  induction keys as [|[[hc d] v] keys IH]; intros stats current_hcds;
    cbn [sync_keys]; [has_fuel|].
  destruct (vm_lookup hc d vm) as [[up2date|]|]; [| |has_fuel].
  - apply has_fuel_bind; [has_fuel|]. intros session.
    destruct (get_hostcategorydir_by_hostcategoryid_and_path _ _ _).
    + destruct (negb up2date); [apply IH|].
      unfold new_hcd.
      apply has_fuel_bind; [has_fuel|]. intros hcd.
      apply has_fuel_bind; [has_fuel|]. intros stats'.
      apply has_fuel_bind; [apply has_fuel_sync_row|]. intros r. apply IH.
    + apply has_fuel_bind; [apply has_fuel_sync_row|]. intros r. apply IH.
  - apply has_fuel_bind; [has_fuel|]. intros stats'. apply IH.
Qed.

Lemma has_fuel_sync_historical current_hcds rows :
  forall stats, has_fuel (sync_historical rows current_hcds stats).
Proof.
  induction rows as [|hcd rows IH]; intros stats; cbn [sync_historical];
    [has_fuel|].
  unfold update_row, Session.add.
  apply has_fuel_bind; [apply has_fuel_row_at|]. intros row.
  destruct (match HostCategoryDir.directory row with
            | Some directory => negb (Directory.readable directory)
            | None => false
            end).
  - apply has_fuel_bind; [has_fuel|]. intros stats'. apply IH.
  - destruct (negb (existsb _ _)); [|apply IH].
    destruct (negb (option_bool_eqb _ _)); [|apply IH].
    apply has_fuel_bind; [has_fuel|]. intros _.
    apply has_fuel_bind; [has_fuel|]. intros _.
    apply has_fuel_bind; [has_fuel|]. intros stats'. apply IH.
Qed.

Lemma has_fuel_sync_categories current_hcds categories :
  forall stats, has_fuel (sync_categories categories current_hcds stats).
Proof.
  induction categories as [|hc categories IH]; intros stats; cbn [sync_categories];
    [has_fuel|].
  apply has_fuel_bind; [has_fuel|]. intros session.
  apply has_fuel_bind; [apply has_fuel_sync_historical|]. intros stats'. apply IH.
Qed.

Lemma has_fuel_sync_hcds E host vm : has_fuel (sync_hcds E host vm).
Proof.
  unfold sync_hcds, utcnow, Session.commit.
  apply has_fuel_bind; [has_fuel|]. intros now.
  apply has_fuel_bind; [has_fuel|]. intros _.
  apply has_fuel_bind; [apply has_fuel_zoom, has_fuel_sync_keys|]. intros r.
  apply has_fuel_bind; [apply has_fuel_zoom, has_fuel_sync_categories|]. intros stats.
  apply has_fuel_bind; [has_fuel|]. intros _.
  unfold report_stats. has_fuel.
Qed.

Lemma has_fuel_per_host E host_id options config :
  has_fuel (per_host E host_id options config).
Proof.
  unfold per_host. apply has_fuel_bind; [has_fuel|]. intros session.
  destruct (get_host session host_id) as [host|]; [|has_fuel].
  destruct (Host.private host && negb (Options.include_private options)); [has_fuel|].
  apply has_fuel_bind; [has_fuel|]. intros _.
  destruct (length _ =? 0)%nat.
  { apply has_fuel_bind; [apply has_fuel_mark_not_up2date|]. has_fuel. }
  apply has_fuel_bind; [apply has_fuel_walk_categories|]. intros r.
  apply has_fuel_bind.
  { apply has_fuel_zoom. unfold hoststate_close.
    apply has_fuel_bind; [has_fuel|]. intros keys.
    apply has_fuel_bind;
      [apply has_fuel_for_each; intros x; apply has_fuel_close_http|]. intros _.
    apply has_fuel_bind; [has_fuel|]. intros keys'.
    apply has_fuel_for_each. intros x. apply has_fuel_close_ftp. }
  intros _. apply has_fuel_bind; [|has_fuel].
  destruct (snd r =? 0); [|has_fuel].
  destruct (0 <? length (fst r))%nat; [apply has_fuel_sync_hcds | has_fuel].
Qed.

(** ** The exit codes *)

Lemma returns_only_ret {S A} (R : A -> Prop) (a : A) :
  R a -> returns_only R (ret a : M S A).
Proof. intros Ha s a' Hret. injection Hret as <-. exact Ha. Qed.

Lemma returns_only_raise {S A} (R : A -> Prop) (e : exn) :
  returns_only R (raise e : M S A).
Proof. intros s a Hret. discriminate. Qed.

Lemma returns_only_bind {S A B} (R : B -> Prop) (m : M S A) (k : A -> M S B) :
  (forall a, returns_only R (k a)) -> returns_only R (bind m k).
Proof.
  intros Hk s b. unfold bind. destruct (m s) as [[a|e|] s']; cbn [fst];
    [apply Hk|discriminate..].
Qed.

Lemma returns_only_walk_dirs E options config host hc categoryUrl
    categoryPrefixLen trydirs :
  forall try_later_delay m rc,
    zero_or_one rc ->
    returns_only (fun r => zero_or_one (snd r))
      (walk_dirs E options config host hc categoryUrl categoryPrefixLen
                 trydirs try_later_delay m rc).
Proof.
  induction trydirs as [|row trydirs IH]; intros try_later_delay m rc Hrc;
    cbn [walk_dirs]; [apply returns_only_ret; exact Hrc|].
  apply returns_only_bind. intros _.
  destruct (HostCategoryDir.directory row) as [d|]; [|apply returns_only_raise].
  destruct (negb (Directory.readable d)); [apply IH; exact Hrc|].
  destruct (Options.canary options && _); [apply IH; exact Hrc|].
  apply returns_only_bind. intros [[m' delay']|].
  - apply IH; exact Hrc.
  - apply returns_only_ret. right. reflexivity.
Qed.

Lemma returns_only_walk_categories E options config host items :
  forall m rc,
    zero_or_one rc ->
    returns_only (fun r => zero_or_one (snd r))
      (walk_categories E options config host items m rc).
Proof.
  induction items as [|[hc|l] items IH]; intros m rc Hrc; cbn [walk_categories];
    [apply returns_only_ret; exact Hrc| |apply returns_only_raise].
  destruct (HostCategory.always_up2date hc); [apply IH; exact Hrc|].
  destruct (method_pref (HostCategory.urls hc) "") as [categoryUrl|];
    [|apply IH; exact Hrc].
  apply returns_only_bind. intros session.
  apply returns_only_bind. intros [[b|] m']; cbn [fst snd]; [apply IH; exact Hrc|].
  intros s r Hret. unfold bind in Hret.
  match type of Hret with
  | context [walk_dirs ?E ?o ?c ?h ?hc' ?u ?n ?t ?d ?m0 ?rc0 ?s0] =>
      pose proof (returns_only_walk_dirs E o c h hc' u n t d m0 rc0 Hrc s0) as Hdirs;
      destruct (walk_dirs E o c h hc' u n t d m0 rc0 s0) as [[r'|e|] s']
  end; cbn [fst snd] in Hret; [|discriminate..].
  specialize (Hdirs r' eq_refl).
  revert Hret. apply (returns_only_bind (fun r => zero_or_one (snd r))).
  intros _. apply IH. exact Hdirs.
Qed.

Lemma returns_only_per_host E host_id options config :
  returns_only zero_or_one (per_host E host_id options config).
Proof.
  unfold per_host. apply returns_only_bind. intros session.
  destruct (get_host session host_id) as [host|]; [|apply returns_only_raise].
  destruct (Host.private host && negb (Options.include_private options));
    [apply returns_only_ret; right; reflexivity|].
  apply returns_only_bind. intros _.
  destruct (length _ =? 0)%nat.
  { apply returns_only_bind. intros _. apply returns_only_ret. right. reflexivity. }
  intros s rc Hret. unfold bind at 1 in Hret.
  match type of Hret with
  | context [walk_categories ?E ?o ?c ?h ?l ?m0 ?rc0 ?s0] =>
      pose proof (returns_only_walk_categories E o c h l m0 rc0
                    (or_introl eq_refl) s0) as Hwalk;
      destruct (walk_categories E o c h l m0 rc0 s0) as [[r|e|] s']
  end; cbn [fst snd] in Hret; [|discriminate..].
  specialize (Hwalk r eq_refl).
  revert Hret. apply (returns_only_bind zero_or_one). intros _.
  apply returns_only_bind. intros _. apply returns_only_ret. exact Hwalk.
Qed.

(** X1. The worker of a host always ends with an exit code, one of 0, 1, 2
    and 3: whatever the remote side answers and whatever the catalog holds,
    no exception leaves [worker] and none of the bounded recursions (the
    FTP retry, the chain of redirects, the walk to the top directory) runs
    out of fuel. *)
Theorem worker_returns_exit_code E options config host st :
  exists rc, fst (worker E options config host st) = Ret rc /\
             (rc = 0 \/ rc = 1 \/ rc = 2 \/ rc = 3).
Proof.
  unfold worker, in_timer, in_session, zoom, bind, try_except, time_time,
    modify, Session.commit, Session.close, ret. cbn [fst snd].
  match goal with
  | |- context [per_host E ?i ?o ?c ?s] =>
      pose proof (has_fuel_per_host E i o c s) as Hfuel;
      pose proof (returns_only_per_host E i o c s) as Hrc;
      destruct (per_host E i o c s) as [[rc|e|] s']
  end; cbn [fst snd] in *.
  - eexists; split; [reflexivity|]. destruct (Hrc rc eq_refl) as [->| ->]; auto.
  - destruct e; eexists; (split; [reflexivity|]); auto.
  - congruence.
Qed.

(** ** The connection pool *)

Lemma has_key_in k keys : has_key k keys = true <-> In k keys.
Proof.
  unfold has_key. rewrite existsb_exists. split.
  - intros [x [Hin Heq]]. apply String.eqb_eq in Heq. now subst.
  - intros Hin. exists k. split; [exact Hin | apply String.eqb_refl].
Qed.

Lemma del_key_absent k keys : has_key k keys = false -> del_key k keys = keys.
Proof.
  intros Hk. unfold del_key. induction keys as [|x keys IH]; [reflexivity|].
  simpl in *. apply orb_false_iff in Hk. destruct Hk as [Hx Hk].
  rewrite Hx. simpl. now rewrite IH.
Qed.

Lemma has_key_del_key k k' keys :
  has_key k (del_key k' keys) = has_key k keys && negb (String.eqb k' k).
Proof.
  unfold has_key, del_key. induction keys as [|x keys IH]; [reflexivity|].
  simpl. destruct (String.eqb_spec k' x) as [->|Hne]; simpl.
  - rewrite IH. destruct (String.eqb_spec k x) as [->|Hkx]; simpl.
    + rewrite String.eqb_refl. simpl. now rewrite andb_false_r.
    + reflexivity.
  - rewrite IH. destruct (String.eqb_spec k x) as [->|Hkx]; simpl; [|reflexivity].
    destruct (String.eqb_spec k' x); [congruence|reflexivity].
Qed.

Lemma del_key_app_new k keys :
  has_key k keys = false -> del_key k (keys ++ [k]) = keys.
Proof.
  intros Hk. unfold del_key. rewrite List.filter_app. simpl.
  rewrite String.eqb_refl. simpl. rewrite app_nil_r. now apply del_key_absent.
Qed.

Lemma set_hoststate_same w : World.set_hoststate (World.hoststate w) w = w.
Proof. now destruct w. Qed.

Lemma set_httpconn_same h : HostState.set_httpconn (HostState.httpconn h) h = h.
Proof. now destruct h. Qed.

Lemma set_ftpconn_same h : HostState.set_ftpconn (HostState.ftpconn h) h = h.
Proof. now destruct h. Qed.

(** What [close_http] and [close_ftp] do to the two pools. *)
Lemma close_http_pool E url w :
  close_http E url w
  = (Ret tt,
     World.set_hoststate
       (HostState.set_httpconn
          (del_key (netloc_of E url) (HostState.httpconn (World.hoststate w)))
          (World.hoststate w)) w).
Proof.
  unfold close_http, with_hoststate, modify.
  destruct (has_key _ _) eqn:Hk; [reflexivity|].
  now rewrite (del_key_absent _ _ Hk), set_httpconn_same.
Qed.

Lemma close_ftp_pool E url w :
  close_ftp E url w
  = (Ret tt,
     World.set_hoststate
       (HostState.set_ftpconn
          (del_key (netloc_of E url) (HostState.ftpconn (World.hoststate w)))
          (World.hoststate w)) w).
Proof.
  unfold close_ftp, with_hoststate, modify.
  destruct (has_key _ _) eqn:Hk; [reflexivity|].
  now rewrite (del_key_absent _ _ Hk), set_ftpconn_same.
Qed.

Lemma for_each_close_http_unchanged E keys w :
  (forall k, In k keys ->
     has_key (netloc_of E k) (HostState.httpconn (World.hoststate w)) = false) ->
  for_each keys (close_http E) w = (Ret tt, w).
Proof.
  induction keys as [|k keys IH]; intros Hkeys; [reflexivity|].
  cbn [for_each]. unfold bind. rewrite close_http_pool.
  rewrite del_key_absent by (apply Hkeys; now left).
  rewrite set_httpconn_same, set_hoststate_same.
  apply IH. intros k' Hin. apply Hkeys. now right.
Qed.

Lemma for_each_close_ftp_unchanged E keys w :
  (forall k, In k keys ->
     has_key (netloc_of E k) (HostState.ftpconn (World.hoststate w)) = false) ->
  for_each keys (close_ftp E) w = (Ret tt, w).
Proof.
  induction keys as [|k keys IH]; intros Hkeys; [reflexivity|].
  cbn [for_each]. unfold bind. rewrite close_ftp_pool.
  rewrite del_key_absent by (apply Hkeys; now left).
  rewrite set_ftpconn_same, set_hoststate_same.
  apply IH. intros k' Hin. apply Hkeys. now right.
Qed.

(** X2. [hostState.close] hands each key of its two pools to [close_http]
    and [close_ftp], which read their argument as a URL and close the
    connection of that URL's netloc.  So a pooled connection is closed only if
    its key is the netloc of some key read as a URL: when no key is, [close]
    returns with every connection still in its pool, the world as it was. *)
Theorem hoststate_close_keeps_connections (E : Env.t) (w : World.t) :
  (forall k, In k (HostState.httpconn (World.hoststate w)) ->
     has_key (netloc_of E k) (HostState.httpconn (World.hoststate w)) = false) ->
  (forall k, In k (HostState.ftpconn (World.hoststate w)) ->
     has_key (netloc_of E k) (HostState.ftpconn (World.hoststate w)) = false) ->
  hoststate_close E w = (Ret tt, w).
Proof.
  intros Hhttp Hftp. unfold hoststate_close, bind, gets.
  rewrite for_each_close_http_unchanged by exact Hhttp.
  now rewrite for_each_close_ftp_unchanged by exact Hftp.
Qed.

Lemma hoststate_close_keeps_connections_witness :
  let E := Ex.remote Ex.seconds Ex.head_ok Ex.ftp_busy in
  let w := snd ((open_http E "http://m.example/fedora/a.iso" ;;
                 _open_ftp (netloc_of E "ftp://m.example/fedora")) World.init) in
  HostState.httpconn (World.hoststate w) = ["m.example"] /\
  HostState.ftpconn (World.hoststate w) = ["m.example"] /\
  hoststate_close E w = (Ret tt, w).
Proof.
  split; [reflexivity|]. split; [reflexivity|].
  apply (hoststate_close_keeps_connections
           (Ex.remote Ex.seconds Ex.head_ok Ex.ftp_busy)).
  - intros k [<-|[]]. reflexivity.
  - intros k [<-|[]]. reflexivity.
Defined.

Lemma open_close_pool (E : Env.t) (url : string) (w : World.t) :
  let pool w := HostState.httpconn (World.hoststate w) in
  let opened := snd (open_http E url w) in
  let closed := snd (close_http E url opened) in
  has_key (netloc_of E url) (pool opened) = true /\
  has_key (netloc_of E url) (pool closed) = false /\
  (forall k, k <> netloc_of E url ->
     has_key k (pool opened) = has_key k (pool w) /\
     has_key k (pool closed) = has_key k (pool w)) /\
  (has_key (netloc_of E url) (pool w) = false -> closed = w).
Proof.
  cbn zeta. rewrite close_http_pool.
  unfold open_http, with_hoststate, modify. cbn [snd].
  destruct w as [tick trace h]. destruct h as [http ftp results ka].
  cbn [World.hoststate World.set_hoststate HostState.httpconn
       HostState.set_httpconn].
  set (n := netloc_of E url).
  assert (Hne : forall k, k <> n -> String.eqb n k = false).
  { intros k Hk. apply String.eqb_neq. congruence. }
  destruct (has_key n http) eqn:Hn;
    cbn [World.hoststate World.set_hoststate HostState.httpconn
         HostState.set_httpconn].
  - repeat split.
    + exact Hn.
    + rewrite has_key_del_key, String.eqb_refl. apply andb_false_r.
    + rewrite has_key_del_key, (Hne k) by assumption. apply andb_true_r.
    + discriminate.
  - assert (Happ : forall k, has_key k (http ++ [n])
                             = has_key k http || String.eqb k n).
    { intros k. unfold has_key. rewrite existsb_app. simpl. now rewrite orb_false_r. }
    repeat split.
    + rewrite Happ, String.eqb_refl. apply orb_true_r.
    + rewrite has_key_del_key, String.eqb_refl. apply andb_false_r.
    + rewrite Happ. replace (String.eqb k n) with false; [apply orb_false_r|].
      symmetry. apply String.eqb_neq. assumption.
    + rewrite has_key_del_key, Happ, (Hne k) by assumption.
      replace (String.eqb k n) with false; [now rewrite orb_false_r, andb_true_r|].
      symmetry. apply String.eqb_neq. assumption.
    + intros _. now rewrite del_key_app_new.
Qed.

(** X3. Opening and closing go by the netloc of the URL.  After
    [open_http(url)] a connection is pooled for the netloc of [url], after
    [close_http(url)] none is, and neither touches the connection of another
    netloc; [open_http(url)] followed by [close_http(url)] leaves a world
    that had no connection for the netloc as it was. *)
Theorem open_close_http_round_trip (E : Env.t) (url : string) (w : World.t) :
  let pool w := HostState.httpconn (World.hoststate w) in
  let opened := snd (open_http E url w) in
  let closed := snd (close_http E url opened) in
  has_key (netloc_of E url) (pool opened) = true /\
  has_key (netloc_of E url) (pool closed) = false /\
  (forall k, k <> netloc_of E url ->
     has_key k (pool opened) = has_key k (pool w) /\
     has_key k (pool closed) = has_key k (pool w)) /\
  (has_key (netloc_of E url) (pool w) = false -> closed = w).
Proof. exact (open_close_pool E url w). Qed.

(** X4. [get_connection] finds what [open_http] pooled: for a URL of scheme
    http it returns the connection of the URL's netloc once [open_http(url)]
    has run and nothing once [close_http(url)] has; for a URL whose scheme is
    neither http nor ftp it returns nothing, whatever the pools hold. *)
Theorem get_connection_round_trip (E : Env.t) (url : string) (w : World.t) :
  let opened := snd (open_http E url w) in
  let closed := snd (close_http E url opened) in
  (SplitResult.scheme (Env.urlsplit E url) = "http" ->
   get_connection E url (World.hoststate opened) = Some (netloc_of E url) /\
   get_connection E url (World.hoststate closed) = None) /\
  (SplitResult.scheme (Env.urlsplit E url) <> "http" ->
   SplitResult.scheme (Env.urlsplit E url) <> "ftp" ->
   forall h, get_connection E url h = None).
Proof.
  cbn zeta. split.
  - intros Hscheme.
    destruct (open_close_pool E url w) as [Hopen [Hclose _]].
    unfold get_connection. rewrite Hscheme. cbn [String.eqb Ascii.eqb Bool.eqb].
    fold (netloc_of E url). now rewrite Hopen, Hclose.
  - intros Hhttp Hftp h. unfold get_connection.
    destruct (String.eqb_spec (SplitResult.scheme (Env.urlsplit E url)) "ftp");
      [congruence|].
    destruct (String.eqb_spec (SplitResult.scheme (Env.urlsplit E url)) "http");
      [congruence|reflexivity].
Qed.

Lemma get_connection_round_trip_witness :
  let E := Ex.remote Ex.seconds Ex.head_ok Ex.ftp_busy in
  let url := "http://m.example/fedora/a.iso" in
  get_connection E url (World.hoststate (snd (open_http E url World.init)))
  = Some "m.example".
Proof.
  exact (proj1 (proj1 (get_connection_round_trip
                         (Ex.remote Ex.seconds Ex.head_ok Ex.ftp_busy)
                         "http://m.example/fedora/a.iso" World.init)
                      eq_refl)).
Defined.

(** ** The FTP probe *)

Lemma ftp_attempts_none E url i w r :
  r <> Raise EOFError -> r <> Raise socket_error -> r <> NoFuel ->
  r <> Ret None ->
  (forall listing, r <> Ret (Some listing)) ->
  2 <= i ->
  ftp_attempts E url i w r w.
Proof.
  intros H1 H2 H3 H4 H5 Hi. exists 0%nat. simpl.
  rewrite app_nil_r, Nat.add_0_r.
  repeat split; auto; try lia.
  intros listing Hl. now apply H5 in Hl.
Qed.

Lemma ftp_attempts_one E url i (w w1 : World.t) r reply :
  World.tick w1 = S (World.tick w) ->
  World.trace w1 = World.trace w ++ [EvFtpList url] ->
  i <= 1 ->
  Env.ftp_list E (World.tick w) url = reply ->
  r <> Raise EOFError -> r <> Raise socket_error -> r <> NoFuel ->
  r <> Ret None ->
  (forall listing, r = Ret (Some listing) ->
                   listing = [] \/ reply = FtpListing listing) ->
  ftp_attempts E url i w r w1.
Proof.
  intros Htick Htrace Hi Hreply H1 H2 H3 H4 H5. exists 1%nat. cbn [repeat].
  repeat split; auto; try lia.
  intros listing Hl. destruct (H5 listing Hl) as [->|Heq]; [now left|].
  right. exists (World.tick w). split; [lia|]. congruence.
Qed.

Lemma ftp_attempts_again E url i (w w1 : World.t) r w' :
  World.tick w1 = S (World.tick w) ->
  World.trace w1 = World.trace w ++ [EvFtpList url] ->
  i <= 1 ->
  ftp_attempts E url (i + 1) w1 r w' ->
  ftp_attempts E url i w r w'.
Proof.
  intros Htick1 Htrace1 Hi [k [Hk [_ [Htick [Htrace [H1 [H2 [H3 [H4 H5]]]]]]]]].
  exists (S k). repeat split; auto; try lia.
  - rewrite Htrace, Htrace1, <- app_assoc. reflexivity.
  - intros listing Hl. destruct (H5 listing Hl) as [->|[n [Hn Heq]]]; [now left|].
    right. exists n. split; [lia | exact Heq].
Qed.

(** The answer to one request settles the call. *)
Ltac ftp_one Hreply :=
  eapply ftp_attempts_one;
  cbn [World.hoststate World.set_hoststate World.next World.tick World.trace
       HostState.ftp_dir_results HostState.set_ftp_dir_results];
  [ reflexivity | reflexivity | assumption | exact Hreply
  | discriminate | discriminate | discriminate | discriminate
  | let l := fresh "listing" in
    let H := fresh "H" in
    intros l H;
    first [ discriminate H
          | left; congruence
          | right; congruence ] ].

Lemma get_ftp_dir_rec_attempts E url readable (fuel : nat) :
  forall i w,
    (Z.to_nat (2 - i) < fuel)%nat ->
    wp (get_ftp_dir_rec E fuel url readable i) w (ftp_attempts E url i w).
Proof.
  induction fuel as [|fuel IH]; intros i w Hfuel; [lia|].
  cbn [get_ftp_dir_rec]. destruct (Z.gtb_spec i 1) as [Hgt|Hle].
  { apply wp_raise. apply ftp_attempts_none; try discriminate; lia. }
  assert (Hagain : forall w1,
             World.tick w1 = S (World.tick w) ->
             World.trace w1 = World.trace w ++ [EvFtpList url] ->
             wp (get_ftp_dir_rec E fuel url readable (i + 1)) w1
                (ftp_attempts E url i w)).
  { intros w1 Htick Htrace. eapply wp_mono; [apply IH; lia|].
    intros r w' Hpost. now apply (ftp_attempts_again E url i w w1). }
  unfold ftp_dir, _open_ftp, close_ftp, with_hoststate. wp_steps.
  cbn [World.tick World.set_hoststate].
  destruct (Env.ftp_list E (World.tick w) url) as [lines|e] eqn:Hreply.
  - wp_steps. ftp_one Hreply.
  - wp_steps.
    destruct e as [| | | | |msg|msg| | | | | |]; cbv beta iota; wp_steps;
      try (ftp_one Hreply; fail).
    + destruct (Py.startswith msg "550"); wp_steps; [ftp_one Hreply|].
      destruct (Py.startswith msg "553"); wp_steps;
        [destruct readable; wp_steps; ftp_one Hreply|].
      destruct (Py.startswith msg "530"); wp_steps;
        [apply Hagain; reflexivity|].
      destruct (Py.startswith msg "500"); wp_steps; ftp_one Hreply.
    + destruct (Py.startswith msg "450"); wp_steps; [ftp_one Hreply|].
      destruct (Py.startswith msg "421"); wp_steps; [ftp_one Hreply|].
      destruct (Py.startswith msg "425"); wp_steps; ftp_one Hreply.
    + apply Hagain; reflexivity.
    + apply Hagain; reflexivity.
Qed.

(** X5. One call of [get_ftp_dir] asks the server for one listing or for
    two, never more; it never lets [EOFError] or [socket.error] out (these
    make it close the connection and ask again, and the second failure ends
    in the try-later signal); and the recursion ends within its bound. *)
Theorem get_ftp_dir_asks_at_most_twice (E : Env.t) (url : string)
    (readable : bool) (w : World.t) :
  let r := fst (get_ftp_dir E url readable w) in
  let w' := snd (get_ftp_dir E url readable w) in
  (World.trace w' = World.trace w ++ [EvFtpList url] \/
   World.trace w' = World.trace w ++ [EvFtpList url; EvFtpList url]) /\
  r <> Raise EOFError /\ r <> Raise socket_error /\ r <> NoFuel.
Proof.
  cbn zeta.
  pose proof (get_ftp_dir_rec_attempts E url readable 3 0 w ltac:(simpl; lia))
    as [k [Hk [Hone [_ [Htrace [H1 [H2 [H3 _]]]]]]]].
  fold (get_ftp_dir E url readable) in *.
  specialize (Hone ltac:(lia)). change (Z.to_nat (2 - 0)) with 2%nat in Hk.
  repeat split; auto.
  destruct k as [|[|[|k]]]; try lia; [left|right]; exact Htrace.
Qed.

Lemma close_ftp_closes E url w1 :
  wp (close_ftp E url) w1
     (fun r w2 =>
        r = Ret tt /\ World.tick w2 = World.tick w1 /\
        World.trace w2 = World.trace w1 /\
        has_key (netloc_of E url) (HostState.ftpconn (World.hoststate w2)) = false).
Proof.
  unfold wp. rewrite close_ftp_pool. cbn [fst snd]. repeat split.
  cbn [World.hoststate World.set_hoststate HostState.ftpconn HostState.set_ftpconn].
  rewrite has_key_del_key, String.eqb_refl. apply andb_false_r.
Qed.

Lemma asks_again_inv reply :
  asks_again reply = true ->
  reply = FtpRaises EOFError \/ reply = FtpRaises socket_error \/
  exists msg, reply = FtpRaises (error_perm msg) /\
              Py.startswith msg "550" = false /\
              Py.startswith msg "553" = false /\
              Py.startswith msg "530" = true.
Proof.
  destruct reply as [lines|e]; [discriminate|].
  destruct e as [| | | | |msg|msg| | | | | |]; try discriminate; auto.
  cbn [asks_again]. intros H.
  apply andb_true_iff in H. destruct H as [H H530].
  apply andb_true_iff in H. destruct H as [H550 H553].
  apply negb_true_iff in H550, H553. right. right. exists msg. auto.
Qed.

(** The round of [get_ftp_dir] that gets an answer of [asks_again]: the
    connection is closed and the next round, [next], runs. *)
Lemma get_ftp_dir_rec_asks_again E fuel url readable i w Q :
  i <= 1 ->
  asks_again (Env.ftp_list E (World.tick w) url) = true ->
  (forall w1,
     World.tick w1 = S (World.tick w) ->
     World.trace w1 = World.trace w ++ [EvFtpList url] ->
     has_key (netloc_of E url) (HostState.ftpconn (World.hoststate w1)) = false ->
     wp (get_ftp_dir_rec E fuel url readable (i + 1)) w1 Q) ->
  wp (get_ftp_dir_rec E (S fuel) url readable i) w Q.
Proof.
  intros Hi Hreply Hnext. cbn [get_ftp_dir_rec].
  destruct (Z.gtb_spec i 1) as [Hgt|_]; [lia|].
  assert (Hretry : forall w1,
             World.tick w1 = S (World.tick w) ->
             World.trace w1 = World.trace w ++ [EvFtpList url] ->
             wp (close_ftp E url ;; get_ftp_dir_rec E fuel url readable (i + 1))
                w1 Q).
  { intros w1 Htick Htrace. wp_steps. eapply wp_mono; [apply close_ftp_closes|].
    intros r w2 [-> [Htick2 [Htrace2 Hkey]]]. wp_steps.
    apply Hnext; [congruence | congruence | exact Hkey]. }
  unfold ftp_dir, _open_ftp, with_hoststate. wp_steps.
  cbn [World.tick World.set_hoststate].
  destruct (asks_again_inv _ Hreply) as [->|[->|[msg [-> [H550 [H553 H530]]]]]];
    wp_steps; cbv beta iota; rewrite ?H550, ?H553, ?H530;
    apply Hretry; reflexivity.
Qed.

(** X6. When the server drops the connection or refuses the login (530) at
    both requests, [get_ftp_dir] ends with the try-later signal after the
    two requests, and no connection for the host is left in the pool. *)
Theorem get_ftp_dir_gives_up (E : Env.t) (url : string) (readable : bool)
    (w : World.t) :
  asks_again (Env.ftp_list E (World.tick w) url) = true ->
  asks_again (Env.ftp_list E (S (World.tick w)) url) = true ->
  let r := fst (get_ftp_dir E url readable w) in
  let w' := snd (get_ftp_dir E url readable w) in
  r = Raise TryLater /\
  World.trace w' = World.trace w ++ [EvFtpList url; EvFtpList url] /\
  has_key (netloc_of E url) (HostState.ftpconn (World.hoststate w')) = false.
Proof.
  intros Hfirst Hsecond. cbn zeta.
  change (wp (get_ftp_dir E url readable) w
            (fun r w' =>
               r = Raise TryLater /\
               World.trace w' = World.trace w ++ [EvFtpList url; EvFtpList url] /\
               has_key (netloc_of E url)
                       (HostState.ftpconn (World.hoststate w')) = false)).
  unfold get_ftp_dir.
  apply get_ftp_dir_rec_asks_again; [lia | exact Hfirst |].
  intros w1 Htick1 Htrace1 _.
  apply get_ftp_dir_rec_asks_again; [lia | now rewrite Htick1 |].
  intros w2 Htick2 Htrace2 Hkey. cbn [get_ftp_dir_rec].
  change (0 + 1 + 1 >? 1) with true. cbv iota. wp_steps.
  split; [reflexivity|]. split; [|exact Hkey].
  rewrite Htrace2, Htrace1, <- app_assoc. reflexivity.
Qed.

Lemma get_ftp_dir_gives_up_witness :
  let E := Ex.remote Ex.seconds Ex.head_ok (fun _ _ => FtpRaises EOFError) in
  fst (get_ftp_dir E "ftp://m.example/fedora/20/" true World.init)
  = Raise TryLater.
Proof.
  exact (proj1 (get_ftp_dir_gives_up
                  (Ex.remote Ex.seconds Ex.head_ok (fun _ _ => FtpRaises EOFError))
                  "ftp://m.example/fedora/20/" true World.init
                  eq_refl eq_refl)).
Defined.

(** X7. [check_ftp_file] says that the file is there only when the server
    answered one of the (at most two) requests for a listing of the URL, its
    last slash dropped, with exactly one line whose fifth field is the
    expected size. *)
Theorem check_ftp_file_true_sound (E : Env.t) (url filedata : string)
    (readable : bool) (w : World.t) :
  fst (check_ftp_file E url filedata readable w) = Ret (Some true) ->
  exists n line,
    (World.tick w <= n <= S (World.tick w))%nat /\
    Env.ftp_list E n (if Py.endswith url "/" then Py.drop_last url else url)
    = FtpListing [line] /\
    Py.split line !! 4%nat = Some filedata.
Proof.
  unfold check_ftp_file.
  set (url' := if Py.endswith url "/" then Py.drop_last url else url).
  pose proof (get_ftp_dir_rec_attempts E url' readable 3 0 w ltac:(simpl; lia))
    as [k [Hk [_ [_ [_ [_ [_ [_ [_ Hlisting]]]]]]]]].
  fold (get_ftp_dir E url' readable) in Hlisting.
  change (Z.to_nat (2 - 0)) with 2%nat in Hk.
  unfold bind at 1, try_except, bind at 1.
  destruct (get_ftp_dir E url' readable w) as [[results|e|] w1]; cbn [fst] in *.
  - cbn [ret]. destruct results as [results|]; [|discriminate].
    destruct results as [|first [|second rest]]; try discriminate.
    destruct (Hlisting [first] eq_refl) as [Hnil|[n [Hn Hreply]]]; [discriminate|].
    unfold bind, index.
    destruct (Py.split first !! 4%nat) as [size|] eqn:Hsize; [|discriminate].
    cbn [ret fst]. destruct (String.eqb_spec size filedata) as [->|Hne];
      [|discriminate].
    intros _. exists n, first. split; [lia|]. split; [exact Hreply | exact Hsize].
  - destruct e; discriminate.
  - discriminate.
Qed.

Lemma check_ftp_file_true_sound_witness :
  let E := Ex.remote Ex.seconds Ex.head_ok
             (fun _ _ => FtpListing ["-rw-r--r-- 1 ftp ftp 100 Jan 1 2014 a.iso"]) in
  exists n line,
    (0 <= n <= 1)%nat /\
    Env.ftp_list E n "ftp://m.example/fedora/20/a.iso" = FtpListing [line] /\
    Py.split line !! 4%nat = Some "100".
Proof.
  exact (check_ftp_file_true_sound
           (Ex.remote Ex.seconds Ex.head_ok
              (fun _ _ => FtpListing ["-rw-r--r-- 1 ftp ftp 100 Jan 1 2014 a.iso"]))
           "ftp://m.example/fedora/20/a.iso" "100" true World.init eq_refl).
Defined.

(** ** What the probes let out *)

Lemma raises_only_ret {S A} (P : exn -> Prop) (a : A) :
  raises_only P (ret a : M S A).
Proof. intros s e Hr. discriminate. Qed.

Lemma raises_only_raise {S A} (P : exn -> Prop) (e : exn) :
  P e -> raises_only P (raise e : M S A).
Proof. intros He s e' Hr. injection Hr as <-. exact He. Qed.

Lemma raises_only_bind {S A B} (P : exn -> Prop) (m : M S A) (k : A -> M S B) :
  raises_only P m -> (forall a, raises_only P (k a)) -> raises_only P (bind m k).
Proof.
  intros Hm Hk s e. unfold bind. specialize (Hm s).
  destruct (m s) as [[a|e'|] s']; cbn [fst] in *.
  - apply Hk.
  - intros Hr. injection Hr as <-. now apply Hm.
  - discriminate.
Qed.

Lemma raises_only_try_except {S A} (P : exn -> Prop) (m : M S A)
    (h : exn -> M S A) :
  (forall e, raises_only P (h e)) -> raises_only P (try_except m h).
Proof.
  intros Hh s e. unfold try_except.
  destruct (m s) as [[a|e'|] s']; cbn [fst]; [discriminate|apply Hh|discriminate].
Qed.

Lemma raises_only_close_ftp E P url : raises_only P (close_ftp E url).
Proof. intros w e. rewrite close_ftp_pool. discriminate. Qed.

Lemma raises_only_try_per_file_loop E d url files :
  forall exists_,
    raises_only (fun e => e = TryLater) (try_per_file_loop E d url files exists_).
Proof.
  induction files as [|[filename filedata] files IH]; intros exists_;
    cbn [try_per_file_loop].
  - destruct exists_; apply raises_only_ret.
  - apply raises_only_bind.
    + apply raises_only_try_except. intros e.
      destruct e; cbn [ftplib_all_errors];
        first [ now apply raises_only_raise
              | apply raises_only_ret
              | apply raises_only_bind;
                [apply raises_only_close_ftp | intros _; apply raises_only_ret] ].
    + intros [exists'|returned]; [|apply raises_only_ret].
      destruct (is_false exists'); [apply raises_only_ret|].
      destruct (String.eqb filename "repomd.xml"); [|apply IH].
      apply raises_only_bind.
      * apply raises_only_try_except. intros e. apply raises_only_ret.
      * intros exists''. destruct (is_false exists''); [apply raises_only_ret|apply IH].
Qed.

(** X8. The only exception [try_per_file] lets out is the try-later signal:
    whatever else a check of a file raises (an HTTP error, a refused
    connection, an FTP error, a listing too short to read) makes it return
    null, and a failure to fetch or compare the checksum of repomd.xml is
    ignored. *)
Theorem try_per_file_raises_only_try_later (E : Env.t) (d : Directory.t)
    (url : string) (w : World.t) (e : exn) :
  fst (try_per_file E d url w) = Raise e -> e = TryLater.
Proof.
  unfold try_per_file. destruct (Directory.files d) as [files|]; [|discriminate].
  apply raises_only_try_per_file_loop.
Qed.

Lemma try_per_file_raises_only_try_later_witness :
  let E := Ex.remote Ex.seconds Ex.head_ok Ex.ftp_busy in
  exists e,
    fst (try_per_file E Ex.d20 "ftp://m.example/fedora/20" World.init) = Raise e /\
    e = TryLater.
Proof.
  exists TryLater. split; [reflexivity|].
  exact (try_per_file_raises_only_try_later
           (Ex.remote Ex.seconds Ex.head_ok Ex.ftp_busy) Ex.d20
           "ftp://m.example/fedora/20" World.init TryLater eq_refl).
Defined.

(** ** The HTTP probe, its retry and its limits *)

Lemma check_head_rec_no_response E fuel url filedata recursion readable w Q :
  Env.http_head E (World.tick w) url = HttpNoResponse ->
  (forall w1,
     World.tick w1 = S (World.tick w) ->
     World.trace w1 = World.trace w ++ [EvHead url] ->
     has_key (netloc_of E url) (HostState.httpconn (World.hoststate w1)) = false ->
     wp (check_head_rec E fuel url filedata recursion readable 1) w1 Q) ->
  wp (check_head_rec E (S fuel) url filedata recursion readable 0) w Q.
Proof.
  intros Hreply Hnext. cbn [check_head_rec]. wp_steps. rewrite Hreply.
  change (0 =? 0) with true. cbv iota.
  unfold open_http, with_hoststate. wp_steps.
  unfold wp at 1. rewrite close_http_pool. cbn [fst snd]. wp_steps.
  apply Hnext; try reflexivity.
  cbn [World.hoststate World.set_hoststate HostState.httpconn HostState.set_httpconn].
  rewrite has_key_del_key, String.eqb_refl. apply andb_false_r.
Qed.

(** X9. When no response comes to a HEAD request, [check_head] closes the
    connection and sends the request once more on a new one; when no
    response comes to that one either, it ends with the HTTP-unknown signal:
    two requests for the URL, no third, and the second connection stays in
    the pool. *)
Theorem check_head_retries_once (E : Env.t) (url filedata : string)
    (recursion : Z) (readable : bool) (w : World.t) :
  Env.http_head E (World.tick w) url = HttpNoResponse ->
  Env.http_head E (S (World.tick w)) url = HttpNoResponse ->
  let r := fst (check_head E url filedata recursion readable 0 w) in
  let w' := snd (check_head E url filedata recursion readable 0 w) in
  r = Raise HTTPUnknown /\
  World.trace w' = World.trace w ++ [EvHead url; EvHead url] /\
  has_key (netloc_of E url) (HostState.httpconn (World.hoststate w')) = true.
Proof.
  intros Hfirst Hsecond. cbn zeta.
  change (wp (check_head E url filedata recursion readable 0) w
            (fun r w' =>
               r = Raise HTTPUnknown /\
               World.trace w' = World.trace w ++ [EvHead url; EvHead url] /\
               has_key (netloc_of E url)
                       (HostState.httpconn (World.hoststate w')) = true)).
  unfold check_head, fuel_for.
  change (4 + 4 * Z.to_nat (11 - recursion))%nat
    with (S (S (2 + 4 * Z.to_nat (11 - recursion))))%nat.
  apply check_head_rec_no_response; [exact Hfirst|].
  intros w1 Htick Htrace Hkey. cbn [check_head_rec]. wp_steps.
  rewrite Htick, Hsecond. change (1 =? 0) with false. cbv iota.
  unfold open_http, with_hoststate. wp_steps.
  split; [reflexivity|]. split.
  - cbn [World.trace World.next World.set_hoststate].
    rewrite Htrace, <- app_assoc. reflexivity.
  - cbn [World.hoststate World.next World.set_hoststate]. rewrite Hkey.
    cbn [HostState.httpconn HostState.set_httpconn].
    unfold has_key. rewrite existsb_app. cbn [existsb].
    rewrite String.eqb_refl. now rewrite orb_true_r.
Qed.

Lemma check_head_retries_once_witness :
  let E := Ex.remote Ex.seconds (fun _ _ => HttpNoResponse) Ex.ftp_busy in
  fst (check_head E "http://m.example/fedora/20/a.iso" "100" 0 true 0 World.init)
  = Raise HTTPUnknown.
Proof.
  exact (proj1 (check_head_retries_once
                  (Ex.remote Ex.seconds (fun _ _ => HttpNoResponse) Ex.ftp_busy)
                  "http://m.example/fedora/20/a.iso" "100" 0 true World.init
                  eq_refl eq_refl)).
Defined.

(** ** The choice of a method *)

Lemma startswith_rsync_colon (u : string) :
  Py.startswith u "rsync:" = true -> Py.startswith u "rsync" = true.
Proof.
  destruct u as [|a1 [|a2 [|a3 [|a4 [|a5 [|a6 u]]]]]];
    rewrite ?startswith_cons; try discriminate;
    repeat (destruct (ascii_dec _ _); [|discriminate]); try discriminate;
    reflexivity.
Qed.

(** X10. The second choice of a method in [per_host],
    [method_pref(host_category_urls, categoryUrl)], is reached only after
    [try_per_category] returned null, that is with a first choice that does
    not start with rsync; it then returns the first choice again, so the
    walk over the directories uses the URL the rsync probe was offered. *)
Theorem method_pref_fallback_keeps_choice (urls : list string) (u : string) :
  method_pref urls "" = Some u ->
  Py.startswith u "rsync" = false ->
  method_pref urls u = Some u.
Proof.
  intros Hfirst Hu.
  assert (Hcolon : Py.startswith u "rsync:" = false).
  { destruct (Py.startswith u "rsync:") eqn:H; [|reflexivity].
    apply startswith_rsync_colon in H. congruence. }
  unfold method_pref in *.
  rewrite rsync_loop_find in * by (try exact Hcolon; reflexivity).
  destruct (first_startswith "rsync:" urls) as [v|] eqn:Hrsync.
  - injection Hfirst as ->. apply first_startswith_some in Hrsync.
    destruct Hrsync as [_ Hv]. congruence.
  - exact Hfirst.
Qed.

Lemma method_pref_fallback_keeps_choice_witness :
  method_pref ["https://m.example/fedora"; "ftp://m.example/fedora";
               "http://m.example/fedora"] "http://m.example/fedora"
  = Some "http://m.example/fedora".
Proof.
  exact (method_pref_fallback_keeps_choice
           ["https://m.example/fedora"; "ftp://m.example/fedora";
            "http://m.example/fedora"] "http://m.example/fedora"
           eq_refl eq_refl).
Defined.

Lemma method_pref_offers_rsync hc :
  offers_rsync hc = true ->
  exists u, method_pref (HostCategory.urls hc) "" = Some u /\
            Py.startswith u "rsync" = true.
Proof.
  unfold offers_rsync, method_pref. intros Hex.
  rewrite rsync_loop_find by reflexivity. unfold first_startswith.
  destruct (List.find _ _) as [u|] eqn:Hfind.
  - exists u. split; [reflexivity|]. apply find_some in Hfind.
    apply startswith_rsync_colon. apply Hfind.
  - apply existsb_exists in Hex. destruct Hex as [u [Hin Hu]].
    apply (find_none _ _ Hfind) in Hin. cbv beta in Hin. congruence.
Qed.

(** ** What the walker sends *)

Lemma preserves_in_world {A} (P : World.t -> Prop) (m : W A) :
  preserves P m -> preserves (fun st => P (State.world st)) (in_world m).
Proof.
  intros Hm st H. unfold in_world, zoom. specialize (Hm _ H).
  destruct (m (State.world st)) as [r w']. exact Hm.
Qed.

Lemma preserves_for_each {S A} (P : S -> Prop) (l : list A) (body : A -> M S unit) :
  (forall x, preserves P (body x)) -> preserves P (for_each l body).
Proof.
  intros Hbody. induction l as [|x l IH]; [apply preserves_ret|].
  cbn [for_each]. apply preserves_bind; [apply Hbody | intros _; exact IH].
Qed.

Lemma preserves_add_parents (P : State.t -> Prop) m hc d :
  preserves P (add_parents m hc d).
Proof.
  intros st H. unfold add_parents. now destruct (add_parents_rec _ _ _ _ _).
Qed.

Lemma preserves_url_startswith {S} (P : S -> Prop) categoryUrl p :
  preserves P (url_startswith categoryUrl p : M S bool).
Proof. destruct categoryUrl; [apply preserves_ret | apply preserves_raise]. Qed.

Lemma preserves_index {S A} (P : S -> Prop) (l : list A) i :
  preserves P (index l i : M S A).
Proof. unfold index. destruct (l !! i); [apply preserves_ret | apply preserves_raise]. Qed.

(** A step of a proof that a computation keeps a property of one part of
    the state, by the shape of the computation. *)
Ltac preserves_step :=
  lazymatch goal with
  | |- forall _, _ => intros ?
  | |- preserves _ (ret _) => apply preserves_ret
  | |- preserves _ (raise _) => apply preserves_raise
  | |- preserves _ get => apply preserves_get
  | |- preserves _ (gets _) => apply preserves_gets
  | |- preserves _ (stats_incr _ _) => apply preserves_stats_incr
  | |- preserves _ (stats_get _ _) => apply preserves_stats_get
  | |- preserves _ (index _ _) => apply preserves_index
  | |- preserves _ (url_startswith _ _) => apply preserves_url_startswith
  | |- preserves _ (add_parents _ _ _) => apply preserves_add_parents
  | |- preserves _ (bind _ _) => apply preserves_bind
  | |- preserves _ (try_except _ _) => apply preserves_try_except
  | |- preserves _ (for_each _ _) => apply preserves_for_each
  | |- preserves _ (if ?b then _ else _) => destruct b
  | |- preserves _ (match ?x with _ => _ end) => destruct x
  end.

Ltac preserves_steps := repeat preserves_step.

(** A computation on another part of the state. *)
Ltac preserves_apart :=
  apply preserves_zoom_frame; let H := fresh in intros ? ? H; exact H.

Lemma adds_only_refl ok w : adds_only ok w w.
Proof. exists []. split; [now rewrite app_nil_r | reflexivity]. Qed.

Lemma adds_only_next ok w0 w ev :
  forallb ok ev = true -> adds_only ok w0 w -> adds_only ok w0 (World.next ev w).
Proof.
  intros Hev [evs [Htrace Hok]]. exists (evs ++ ev). split.
  - cbn [World.next World.trace]. now rewrite Htrace, app_assoc.
  - rewrite forallb_app, Hok, Hev. reflexivity.
Qed.

Lemma preserves_adds_interact {A} ok w0 ev (answer : nat -> A) :
  forallb ok ev = true -> preserves (adds_only ok w0) (interact ev answer).
Proof. intros Hev w H. now apply adds_only_next. Qed.

Lemma sends_mark_not_up2date E config host reason w0 :
  preserves (fun st => adds_only rsync_or_mail w0 (State.world st))
            (mark_not_up2date E config host reason).
Proof.
  unfold mark_not_up2date, utcnow, send_email. preserves_steps;
    first [ preserves_apart
          | apply preserves_in_world; preserves_steps;
            first [ now apply preserves_adds_interact | idtac ] ].
Qed.

Lemma world_kept_rsync_dirs E options rsync categoryPrefixLen hc trydirs w0 :
  forall m,
    preserves (fun st => State.world st = w0)
              (rsync_dirs E options rsync categoryPrefixLen hc trydirs m).
Proof.
  induction trydirs as [|row trydirs IH]; intros m; cbn [rsync_dirs].
  - apply preserves_ret.
  - apply preserves_bind; [preserves_apart|]. intros _.
    destruct (HostCategoryDir.directory row) as [d|]; [|apply preserves_raise].
    destruct (negb (Directory.readable d)); [apply IH|].
    destruct (Directory.files d) as [files|]; [|apply preserves_raise].
    destruct (negb (rsync_all_files _ _ _)); [apply IH|].
    apply preserves_bind; [apply preserves_add_parents|]. intros m'. apply IH.
Qed.

(** The rsync probe of a category: it sends nothing but its one rsync
    request and a report by mail, and it does not return null. *)
Lemma try_per_category_rsync E trydirs url m hc host categoryPrefixLen options
    config st :
  Py.startswith url "rsync" = true ->
  wp (try_per_category E trydirs url m hc host categoryPrefixLen options config) st
     (fun r st' =>
        adds_only rsync_or_mail (State.world st) (State.world st') /\
        forall x, r = Ret x -> fst x <> None).
Proof.
  intros Hurl. unfold try_per_category. rewrite Hurl. cbn [negb].
  wp_steps. cbn [World.tick].
  set (url' := if negb (Py.endswith url "/") then url +:+ "/" else url).
  set (st1 := State.set_world (World.next [EvRsync url'] (State.world st)) st).
  assert (Hst1 : adds_only rsync_or_mail (State.world st) (State.world st1)).
  { apply adds_only_next; [reflexivity | apply adds_only_refl]. }
  destruct (Env.rsync E (World.tick (State.world st)) url') as [|result listing].
  { wp_steps. split; [exact Hst1|]. intros x Hx. injection Hx as <-. discriminate. }
  destruct (result =? 10).
  { wp_steps. split; [exact Hst1|]. intros x Hx. injection Hx as <-. discriminate. }
  destruct (size _ =? 0)%nat.
  { wp_steps. split; [exact Hst1|]. intros x Hx. injection Hx as <-. discriminate. }
  wp_steps.
  pose proof (world_kept_rsync_dirs E options (rsync_listing listing ∅)
                categoryPrefixLen hc trydirs (State.world st1) m st1 eq_refl)
    as Hworld.
  unfold wp.
  destruct (rsync_dirs E options (rsync_listing listing ∅) categoryPrefixLen hc
              trydirs m st1) as [[m'|e|] st2]; cbn [fst snd wp_then] in *.
  - destruct (0 <? length m')%nat.
    + wp_steps. split; [now rewrite Hworld|].
      intros x Hx. injection Hx as <-. discriminate.
    + wp_steps.
      pose proof (sends_mark_not_up2date E config host no_hcds_reason
                    (State.world st) st2) as Hmark.
      cbv beta in Hmark. rewrite Hworld in Hmark. specialize (Hmark Hst1).
      unfold wp.
      destruct (mark_not_up2date E config host no_hcds_reason st2)
        as [[[]|e|] st3]; cbn [fst snd wp_then] in *.
      * wp_steps. split; [exact Hmark|].
        intros x Hx. injection Hx as <-. discriminate.
      * split; [exact Hmark | discriminate].
      * split; [exact Hmark | discriminate].
  - split; [now rewrite Hworld | discriminate].
  - split; [now rewrite Hworld | discriminate].
Qed.

Lemma adds_only_trans ok w0 w1 w2 :
  adds_only ok w0 w1 -> adds_only ok w1 w2 -> adds_only ok w0 w2.
Proof.
  intros [evs1 [H1 Hok1]] [evs2 [H2 Hok2]]. exists (evs1 ++ evs2). split.
  - now rewrite H2, H1, app_assoc.
  - now rewrite forallb_app, Hok1, Hok2.
Qed.

(** X11. A host category that offers an rsync URL is probed by rsync and in
    no other way: whatever the rsync probe ends with (the command fails, the
    connection is refused, the listing is empty, files are missing), the
    walker goes on to the next category without a single HEAD request or
    FTP listing, and the exit code is left as it was. *)
Theorem rsync_category_is_not_walked (E : Env.t) (options : Options.t)
    (config : Config.t) (host : Host.t) (hcs : list HostCategory.t)
    (m : verdicts) (rc : Z) (st : State.t) :
  Forall (fun hc => offers_rsync hc = true) hcs ->
  let run := walk_categories E options config host (map ItemHostCategory hcs)
                             m rc st in
  adds_only rsync_or_mail (State.world st) (State.world (snd run)) /\
  forall x, fst run = Ret x -> snd x = rc.
Proof.
  intros Hall. cbn zeta.
  change (wp (walk_categories E options config host (map ItemHostCategory hcs) m rc)
            st
            (fun r st' =>
               adds_only rsync_or_mail (State.world st) (State.world st') /\
               forall x, r = Ret x -> snd x = rc)).
  revert m st. induction Hall as [|hc hcs Hhc Hall IH]; intros m st.
  { cbn [map walk_categories]. wp_steps. split; [apply adds_only_refl|].
    intros x Hx. now injection Hx as <-. }
  cbn [map walk_categories].
  destruct (HostCategory.always_up2date hc); [apply IH|].
  destruct (method_pref_offers_rsync hc Hhc) as [u [-> Hu]].
  wp_steps. eapply wp_mono; [now apply try_per_category_rsync|].
  intros r st1 [Hsent Hret].
  destruct r as [[has_all_files m']|e|]; cbn [wp_then fst snd].
  - destruct has_all_files as [b|]; [|now specialize (Hret _ eq_refl)].
    eapply wp_mono; [apply IH|]. intros r' st2 [Hsent' Hrc].
    split; [|exact Hrc]. eapply adds_only_trans; eassumption.
  - split; [exact Hsent | discriminate].
  - split; [exact Hsent | discriminate].
Qed.

Lemma rsync_category_is_not_walked_witness :
  let E := Ex.remote Ex.seconds Ex.head_ok Ex.ftp_busy in
  let hc := Ex.hc ["http://m.example/fedora"; "rsync://m.example/fedora"] in
  let st := Ex.state Ex.http_host [Ex.hcd "20" Ex.d20 None] in
  World.trace (State.world (snd (walk_categories E (Ex.options [] 120) Ex.config
                                   Ex.http_host [ItemHostCategory hc] [] 0 st)))
  = [EvRsync "rsync://m.example/fedora/"] /\
  adds_only rsync_or_mail (State.world st)
    (State.world (snd (walk_categories E (Ex.options [] 120) Ex.config
                         Ex.http_host [ItemHostCategory hc] [] 0 st))).
Proof.
  split; [reflexivity|].
  refine (proj1 (rsync_category_is_not_walked
                   (Ex.remote Ex.seconds Ex.head_ok Ex.ftp_busy)
                   (Ex.options [] 120) Ex.config Ex.http_host
                   [Ex.hc ["http://m.example/fedora"; "rsync://m.example/fedora"]]
                   [] 0 (Ex.state Ex.http_host [Ex.hcd "20" Ex.d20 None]) _)).
  constructor; [reflexivity | constructor].
Defined.

(** X12. The loop of [per_host] over the directories of a category sends
    no request for a directory that is not readable, nor, in canary mode,
    for one that is neither a repodata nor an iso directory: over such
    directories it only checks the deadline, and it leaves the world, the
    session, the verdicts and the exit code as they were. *)
Theorem walk_dirs_passes_over (E : Env.t) (options : Options.t)
    (config : Config.t) (host : Host.t) (hc : HostCategory.t)
    (categoryUrl : option string) (categoryPrefixLen : nat)
    (trydirs : list HostCategoryDir.t) (try_later_delay : Z) (m : verdicts)
    (rc : Z) (st : State.t) :
  Forall (fun row => exists d, HostCategoryDir.directory row = Some d /\
                               passed_over options d = true) trydirs ->
  let run := walk_dirs E options config host hc categoryUrl categoryPrefixLen
                       trydirs try_later_delay m rc st in
  State.world (snd run) = State.world st /\
  State.session (snd run) = State.session st /\
  (fst run = Ret (m, rc) \/ fst run = Raise TimeoutException).
Proof.
  intros Hall. cbn zeta.
  change (wp (walk_dirs E options config host hc categoryUrl categoryPrefixLen
                        trydirs try_later_delay m rc) st
            (fun r st' =>
               State.world st' = State.world st /\
               State.session st' = State.session st /\
               (r = Ret (m, rc) \/ r = Raise TimeoutException))).
  revert st. induction Hall as [|row trydirs [d [Hd Hover]] Hall IH]; intros st.
  { cbn [walk_dirs]. wp_steps. auto. }
  cbn [walk_dirs]. unfold timeout_check. wp_steps.
  destruct (_ >? _); wp_steps; [auto|].
  rewrite Hd. unfold passed_over in Hover.
  destruct (negb (Directory.readable d)).
  - eapply wp_mono; [apply IH|]. intros r st' H. exact H.
  - cbn [orb] in Hover. rewrite Hover.
    eapply wp_mono; [apply IH|]. intros r st' H. exact H.
Qed.

Lemma walk_dirs_passes_over_witness :
  let E := Ex.remote Ex.seconds Ex.head_ok Ex.ftp_busy in
  let st := Ex.state Ex.http_host [Ex.hcd "secret" Ex.secret None] in
  let hc := Ex.hc ["http://m.example/fedora"] in
  fst (walk_dirs E (Ex.options [] 120) Ex.config Ex.http_host hc
                 (Some "http://m.example/fedora") 11
                 [Ex.hcd "secret" Ex.secret None] 1 [] 0 st) = Ret ([], 0) /\
  State.world (snd (walk_dirs E (Ex.options [] 120) Ex.config Ex.http_host hc
                      (Some "http://m.example/fedora") 11
                      [Ex.hcd "secret" Ex.secret None] 1 [] 0 st))
  = State.world st.
Proof.
  split; [reflexivity|].
  refine (proj1 (walk_dirs_passes_over
                   (Ex.remote Ex.seconds Ex.head_ok Ex.ftp_busy)
                   (Ex.options [] 120) Ex.config Ex.http_host
                   (Ex.hc ["http://m.example/fedora"])
                   (Some "http://m.example/fedora") 11
                   [Ex.hcd "secret" Ex.secret None] 1 [] 0
                   (Ex.state Ex.http_host [Ex.hcd "secret" Ex.secret None]) _)).
  constructor; [|constructor]. exists Ex.secret. split; reflexivity.
Defined.

(** ** Invariants of the walk

    What marking the host keeps, the whole walk keeps: the walk writes to the
    session nowhere else. *)

Section WalkInvariant.

Variable P : Session.t -> Prop.

Hypothesis keeps_mark : forall s, P s -> P (Session.set_not_up2date true s).
Hypothesis keeps_date : forall v s, P s -> P (Session.set_lastCrawled v s).

Ltac walk_step :=
  first
    [ preserves_step
    | apply preserves_zoom_frame;
      let H := fresh in intros ? ? H; exact H
    | apply (preserves_in_session P); unfold set_not_up2date;
      apply preserves_modify; first [ exact keeps_mark | apply keeps_date ] ].

Lemma keeps_mark_not_up2date E config host reason :
  preserves (fun st => P (State.session st))
            (mark_not_up2date E config host reason).
Proof. unfold mark_not_up2date. repeat walk_step. Qed.

Lemma keeps_rsync_dirs E options rsync categoryPrefixLen hc trydirs :
  forall m,
    preserves (fun st => P (State.session st))
              (rsync_dirs E options rsync categoryPrefixLen hc trydirs m).
Proof.
  induction trydirs as [|row trydirs IH]; intros m; cbn [rsync_dirs].
  - apply preserves_ret.
  - apply preserves_bind; [walk_step|]. intros _.
    destruct (HostCategoryDir.directory row) as [d|]; [|apply preserves_raise].
    destruct (negb (Directory.readable d)); [apply IH|].
    destruct (Directory.files d) as [files|]; [|apply preserves_raise].
    destruct (negb (rsync_all_files _ _ _)); [apply IH|].
    apply preserves_bind; [apply preserves_add_parents|]. intros m'. apply IH.
Qed.

Lemma keeps_try_per_category E trydirs url m hc host categoryPrefixLen
    options config :
  preserves (fun st => P (State.session st))
            (try_per_category E trydirs url m hc host categoryPrefixLen options
                              config).
Proof.
  unfold try_per_category.
  destruct (negb (Py.startswith url "rsync")); [apply preserves_ret|].
  apply preserves_bind; [walk_step|]. intros [|result listing];
    [apply preserves_ret|].
  destruct (result =? 10); [apply preserves_ret|].
  destruct (size _ =? 0)%nat; [apply preserves_ret|].
  apply preserves_bind; [apply keeps_rsync_dirs|]. intros m'.
  destruct (0 <? length m')%nat; [apply preserves_ret|].
  apply preserves_bind; [apply keeps_mark_not_up2date|]. intros _.
  apply preserves_ret.
Qed.

Lemma keeps_walk_dirs E options config host hc categoryUrl categoryPrefixLen
    trydirs :
  forall try_later_delay m rc,
    preserves (fun st => P (State.session st))
              (walk_dirs E options config host hc categoryUrl categoryPrefixLen
                         trydirs try_later_delay m rc).
Proof.
  induction trydirs as [|row trydirs IH]; intros try_later_delay m rc;
    cbn [walk_dirs]; [apply preserves_ret|].
  apply preserves_bind; [walk_step|]. intros _.
  destruct (HostCategoryDir.directory row) as [d|]; [|apply preserves_raise].
  destruct (negb (Directory.readable d)); [apply IH|].
  destruct (Options.canary options && _); [apply IH|].
  apply preserves_bind.
  - apply preserves_try_except.
    + unfold probe_dir. repeat walk_step.
    + intros e.
      assert (Hmark := keeps_mark_not_up2date E config host unhandled_reason).
      destruct e; repeat walk_step; assumption.
  - intros [[m' delay']|]; [apply IH | apply preserves_ret].
Qed.

Lemma keeps_walk_categories E options config host items :
  forall m rc,
    preserves (fun st => P (State.session st))
              (walk_categories E options config host items m rc).
Proof.
  induction items as [|[hc|l] items IH]; intros m rc; cbn [walk_categories];
    [apply preserves_ret| |apply preserves_raise].
  destruct (HostCategory.always_up2date hc); [apply IH|].
  destruct (method_pref (HostCategory.urls hc) "") as [categoryUrl|]; [|apply IH].
  apply preserves_bind; [apply preserves_gets|]. intros session.
  apply preserves_bind; [apply keeps_try_per_category|].
  intros [[b|] m']; cbn [fst snd]; [apply IH|].
  apply preserves_bind; [apply keeps_walk_dirs|]. intros r.
  apply preserves_bind; [apply preserves_url_startswith|]. intros _. apply IH.
Qed.

End WalkInvariant.

(** ** What a failed crawl leaves in the session *)

Lemma rows_kept_refl s : rows_kept s s.
Proof. repeat split. Qed.

(** X13. When [per_host] returns an exit code other than 0, it has written
    no row and committed nothing: the rows of the session, the list of rows
    handed to [session.add] and the count of commits are as they were.
    ([sync_hcds] runs only when the walk ends with the exit code 0; what a
    failed crawl leaves behind is the mark on the host and its date.) *)
Theorem per_host_failure_writes_nothing (E : Env.t) (host_id : Z)
    (options : Options.t) (config : Config.t) (st : State.t) (rc : Z) :
  fst (per_host E host_id options config st) = Ret rc ->
  rc <> 0 ->
  rows_kept (State.session st)
            (State.session (snd (per_host E host_id options config st))).
Proof.
  change (wp (per_host E host_id options config) st
            (fun r st' => r = Ret rc -> rc <> 0 ->
                          rows_kept (State.session st) (State.session st'))).
  pose proof (rows_kept_refl (State.session st)) as Hrefl.
  assert (Hmark : forall s, rows_kept (State.session st) s ->
                            rows_kept (State.session st)
                                      (Session.set_not_up2date true s))
    by (intros s H; exact H).
  assert (Hdate : forall v s, rows_kept (State.session st) s ->
                              rows_kept (State.session st)
                                        (Session.set_lastCrawled v s))
    by (intros v s H; exact H).
  unfold per_host. wp_steps.
  destruct (get_host (State.session st) host_id) as [host|]; wp_steps;
    [|intros; exact Hrefl].
  destruct (Host.private host && negb (Options.include_private options));
    wp_steps; [intros; exact Hrefl|].
  destruct (length _ =? 0)%nat.
  { wp_steps.
    pose proof (keeps_mark_not_up2date _ Hmark Hdate E config host no_hcds_reason
                  (State.set_world
                     (World.set_hoststate HostState.init (State.world st)) st)
                  Hrefl) as Hkept.
    unfold wp. cbv beta in Hkept.
    destruct (mark_not_up2date E config host no_hcds_reason _) as [[[]|e|] st1];
      cbn [fst snd wp_then] in *; wp_steps; intros; exact Hkept. }
  wp_steps.
  match goal with
  | |- wp (walk_categories ?E ?o ?c ?h ?l ?m0 ?rc0) ?s0 _ =>
      pose proof (keeps_walk_categories _ Hmark Hdate E o c h l m0 rc0
                    s0 Hrefl) as Hwalk
  end.
  unfold wp. cbv beta in Hwalk.
  destruct (walk_categories E options config host _ [] 0 _) as [[r|e|] st1];
    cbn [fst snd wp_then] in *; [|intros; exact Hwalk..].
  cbv beta. unfold wp. intros Hret Hne.
  destruct (snd r =? 0) eqn:Hrc.
  - apply Z.eqb_eq in Hrc. exfalso. apply Hne. rewrite <- Hrc.
    revert Hret. generalize rc. generalize st1.
    apply (returns_only_bind (fun x => x = snd r)). intros _.
    apply returns_only_bind. intros _. now apply returns_only_ret.
  - apply (preserves_bind (fun st' => rows_kept (State.session st) (State.session st')));
      [apply preserves_zoom_frame; intros ? ? H; exact H | | exact Hwalk].
    intros _. apply preserves_bind; [apply preserves_ret|]. intros _.
    apply preserves_ret.
Qed.

Lemma per_host_failure_writes_nothing_witness :
  let E := Ex.remote Ex.seconds Ex.head_503 (fun _ _ => FtpRaises (error_perm "599 Odd")) in
  let st := Ex.state Ex.ftp_host [Ex.hcd "20" Ex.d20 None] in
  fst (per_host E 1 (Ex.options [] 120) Ex.config st) = Ret 1 /\
  rows_kept (State.session st)
            (State.session (snd (per_host E 1 (Ex.options [] 120) Ex.config st))).
Proof.
  split; [reflexivity|].
  apply (per_host_failure_writes_nothing
           (Ex.remote Ex.seconds Ex.head_503
              (fun _ _ => FtpRaises (error_perm "599 Odd")))
           1 (Ex.options [] 120) Ex.config
           (Ex.state Ex.ftp_host [Ex.hcd "20" Ex.d20 None]) 1).
  - reflexivity.
  - discriminate.
Defined.

(** ** The session at the end of the worker *)

(** What every write of the crawler to the session keeps, [per_host]
    keeps. *)
Section PerHostInvariant.

Variable P : Session.t -> Prop.

Hypothesis keeps_mark : forall s, P s -> P (Session.set_not_up2date true s).
Hypothesis keeps_date : forall v s, P s -> P (Session.set_lastCrawled v s).
Hypothesis keeps_rows : forall v s, P s -> P (Session.set_hcds v s).
Hypothesis keeps_added : forall v s, P s -> P (Session.set_added v s).
Hypothesis keeps_commit :
  forall s, P s -> P (Session.set_commits (S (Session.commits s)) s).

Ltac keeps_writes :=
  repeat first
    [ preserves_step
    | apply preserves_modify; let H := fresh in intros ? H;
      first [ apply keeps_rows | apply keeps_added | apply keeps_commit
            | apply keeps_date ]; exact H ].

Lemma per_host_keeps E host_id options config :
  preserves (fun st => P (State.session st)) (per_host E host_id options config).
Proof.
  unfold per_host. apply preserves_bind; [apply preserves_gets|]. intros session.
  destruct (get_host session host_id) as [host|]; [|apply preserves_raise].
  destruct (Host.private host && negb (Options.include_private options));
    [apply preserves_ret|].
  apply preserves_bind; [apply preserves_zoom_frame; intros ? ? H; exact H|].
  intros _. destruct (length _ =? 0)%nat.
  { apply preserves_bind; [apply (keeps_mark_not_up2date P keeps_mark keeps_date)|].
    intros _. apply preserves_ret. }
  apply preserves_bind;
    [apply (keeps_walk_categories P keeps_mark keeps_date)|]. intros r.
  apply preserves_bind; [apply preserves_zoom_frame; intros ? ? H; exact H|].
  intros _. apply preserves_bind; [|intros _; apply preserves_ret].
  destruct (snd r =? 0); [|apply preserves_ret].
  destruct (0 <? length (fst r))%nat; [|apply preserves_ret].
  apply (keeps_sync_hcds (fst r) P).
  - intros hcd d up2date stats current_hcds.
    unfold sync_row, row_at, update_row, Session.add. keeps_writes.
  - intros hc d _. unfold new_hcd. keeps_writes.
  - intros i v. unfold update_row. keeps_writes.
  - intros i. unfold Session.add. keeps_writes.
  - unfold Session.commit. keeps_writes.
  - intros v. keeps_writes.
Qed.

End PerHostInvariant.

(** X14. The worker closes its session exactly when [per_host] returned:
    with the exit code 0 or 1 the session has been committed and closed, and
    with the exit code 2 (the deadline) or 3 (any other exception) the
    session is left as open or closed as it was, for [session.close()] stands
    inside the [try] and no handler calls it. *)
Theorem worker_closes_session_on_return (E : Env.t) (options : Options.t)
    (config : Config.t) (host : Host.t) (st : State.t) :
  let rc := fst (worker E options config host st) in
  let session' := State.session (snd (worker E options config host st)) in
  ((rc = Ret 0 \/ rc = Ret 1) ->
   Session.closed session' = true /\
   (Session.commits (State.session st) < Session.commits session')%nat) /\
  ((rc = Ret 2 \/ rc = Ret 3) ->
   Session.closed session' = Session.closed (State.session st)).
Proof.
  cbn zeta.
  unfold worker, in_timer, in_session, zoom, bind, try_except, time_time,
    Session.commit, Session.close, modify, ret. cbn [fst snd].
  match goal with
  | |- context [per_host E ?i ?o ?c ?s] =>
      pose proof (returns_only_per_host E i o c s) as Hrc;
      pose proof (per_host_keeps
                    (fun s' => Session.closed s' = Session.closed (State.session st))
                    ltac:(intros ? H; exact H) ltac:(intros ? ? H; exact H)
                    ltac:(intros ? ? H; exact H) ltac:(intros ? ? H; exact H)
                    ltac:(intros ? H; exact H)
                    E i o c s eq_refl) as Hclosed;
      pose proof (per_host_keeps
                    (fun s' => (Session.commits (State.session st)
                                <= Session.commits s')%nat)
                    ltac:(intros ? H; exact H) ltac:(intros ? ? H; exact H)
                    ltac:(intros ? ? H; exact H) ltac:(intros ? ? H; exact H)
                    ltac:(intros ? H; cbv beta in *; cbn [Session.commits Session.set_commits]; lia)
                    E i o c s (Nat.le_refl _)) as Hcommits;
      pose proof (has_fuel_per_host E i o c s) as Hfuel;
      destruct (per_host E i o c s) as [[rc|e|] s']
  end; cbv beta in *; cbn [fst snd] in *.
  - cbn [State.session State.set_session Session.closed Session.set_closed
         Session.commits Session.set_commits].
    split; [intros _; split; [reflexivity|lia]|].
    destruct (Hrc rc eq_refl) as [->| ->]; intros [H|H]; discriminate.
  - split.
    + destruct e; intros [H|H]; discriminate.
    + intros _. destruct e; exact Hclosed.
  - congruence.
Qed.

(** ** The synchronisation that runs to its end *)

Lemma wp_stats_incr_full {S} numkeys key stats (s : S) Q :
  stats_full numkeys stats -> In key counters ->
  (forall stats', stats_full numkeys stats' -> Q (Ret stats') s) ->
  wp (stats_incr key stats) s Q.
Proof.
  intros [Hready Hnum] Hin HQ. unfold stats_incr.
  assert (Hsome : is_Some (stats !! key)).
  { destruct Hready as [_ Hall]. rewrite List.Forall_forall in Hall. auto. }
  destruct Hsome as [n Hn]. rewrite Hn. apply wp_ret, HQ. split.
  - apply stats_ready_insert; [exact Hready|].
    intros ->. destruct Hready as [Hun _]. congruence.
  - rewrite lookup_insert_ne; [exact Hnum|].
    intros ->. unfold counters in Hin. simpl in Hin.
    repeat (destruct Hin as [Hin|Hin]; [discriminate|]). exact Hin.
Qed.

Lemma rows_readable_alter s i f :
  rows_readable s ->
  (forall row d, HostCategoryDir.directory (f row) = Some d ->
                 HostCategoryDir.directory row = Some d \/
                 Directory.readable d = true) ->
  rows_readable (Session.set_hcds (alter f i (Session.hcds s)) s).
Proof.
  intros Hs Hf j row d Hrow Hdir. cbn [Session.hcds Session.set_hcds] in Hrow.
  destruct (decide (i = j)) as [->|Hne].
  - rewrite list_lookup_alter_eq in Hrow.
    destruct (Session.hcds s !! j) as [row0|] eqn:Hrow0; [|discriminate].
    injection Hrow as <-. destruct (Hf row0 d Hdir) as [H|H]; [|exact H].
    eapply Hs; eassumption.
  - rewrite list_lookup_alter_ne in Hrow by exact Hne. eapply Hs; eassumption.
Qed.

Lemma steady_set_up2date c lc s j v added :
  sync_steady c lc s ->
  sync_steady c lc
    (Session.set_added added
       (Session.set_hcds (alter (set_up2date v) j (Session.hcds s)) s)).
Proof.
  intros [Hrows [Hc Hlc]]. split; [|split; assumption].
  intros i row d Hrow Hdir. cbn [Session.hcds Session.set_added] in Hrow.
  eapply (rows_readable_alter s j (set_up2date v) Hrows); [|exact Hrow|exact Hdir].
  intros row0 d0 H. left. exact H.
Qed.

Lemma steady_set_directory c lc s j d :
  Directory.readable d = true ->
  sync_steady c lc s ->
  sync_steady c lc
    (Session.set_hcds (alter (set_directory d) j (Session.hcds s)) s).
Proof.
  intros Hd [Hrows [Hc Hlc]]. split; [|split; assumption].
  apply rows_readable_alter; [exact Hrows|].
  intros row0 d0 H. right. cbn [set_directory HostCategoryDir.directory] in H.
  now injection H as <-.
Qed.

Lemma sync_row_completes numkeys c lc hcd d up2date stats current_hcds s :
  (hcd < length (Session.hcds s))%nat -> stats_full numkeys stats ->
  Directory.readable d = true -> sync_steady c lc s ->
  wp (sync_row hcd d up2date stats current_hcds) s
     (fun r s' => exists stats' current_hcds',
                    r = Ret (stats', current_hcds') /\
                    stats_full numkeys stats' /\ sync_steady c lc s').
Proof.
  intros Hvalid Hfull Hd Hsteady. unfold sync_row, row_at. wp_steps.
  destruct (lookup_lt_is_Some_2 _ _ Hvalid) as [row Hrow]. rewrite Hrow.
  wp_steps.
  assert (Hrest : forall s1,
            sync_steady c lc s1 ->
            wp (stats <-
                  (if negb (option_bool_eqb (HostCategoryDir.up2date row)
                                            (Some up2date))
                   then update_row hcd (set_up2date (Some up2date)) ;;
                        Session.add hcd ;;
                        if negb up2date then stats_incr "not_up2date" stats
                        else stats_incr "up2date" stats
                   else stats_incr "unchanged" stats) ;;
                ret (stats, hcd :: current_hcds)) s1
               (fun r s' => exists stats' current_hcds',
                              r = Ret (stats', current_hcds') /\
                              stats_full numkeys stats' /\ sync_steady c lc s')).
  { intros s1 Hs1. wp_steps.
    destruct (negb (option_bool_eqb _ _)); unfold update_row, Session.add; wp_steps.
    - destruct (negb up2date);
        (eapply wp_stats_incr_full; [exact Hfull|unfold counters; simpl; tauto|]);
        intros stats' Hfull'; wp_steps; eexists _, _;
        (split; [reflexivity|]); (split; [exact Hfull'|]);
        now apply steady_set_up2date.
    - eapply wp_stats_incr_full; [exact Hfull|unfold counters; simpl; tauto|].
      intros stats' Hfull'. wp_steps. eauto. }
  destruct (HostCategoryDir.directory row).
  - apply wp_ret. cbn [wp_then]. apply Hrest, Hsteady.
  - unfold update_row at 1. apply wp_modify. cbn [wp_then].
    apply Hrest. now apply steady_set_directory.
Qed.

Lemma steady_new_hcd c lc s row :
  HostCategoryDir.directory row = None ->
  sync_steady c lc s ->
  sync_steady c lc (Session.set_hcds (Session.hcds s ++ [row]) s).
Proof.
  intros Hnone [Hrows [Hc Hlc]]. split; [|split; assumption].
  intros i row' d Hrow Hdir. cbn [Session.hcds Session.set_hcds] in Hrow.
  destruct (decide (i < length (Session.hcds s))%nat) as [Hlt|Hge].
  - rewrite lookup_app_l in Hrow by exact Hlt. eapply Hrows; eassumption.
  - rewrite lookup_app_r in Hrow by lia.
    destruct (i - length (Session.hcds s))%nat; [|discriminate].
    injection Hrow as <-. congruence.
Qed.

Lemma sync_keys_completes numkeys c lc vm keys :
  (forall hc d v, In (hc, d, v) keys -> vm_lookup hc d vm <> None) ->
  (forall hc d v b, In (hc, d, v) keys -> vm_lookup hc d vm = Some (Some b) ->
                    Directory.readable d = true) ->
  forall stats current_hcds s,
    stats_full numkeys stats -> sync_steady c lc s ->
    wp (sync_keys keys vm stats current_hcds) s
       (fun r s' => exists stats' current_hcds',
                      r = Ret (stats', current_hcds') /\
                      stats_full numkeys stats' /\ sync_steady c lc s').
Proof.
  induction keys as [|[[hc d] v] keys IH];
    intros Hkeys Hreadable stats current_hcds s Hfull Hsteady;
    cbn [sync_keys]; [wp_steps; eauto|].
  assert (IH' := IH (fun hc d v H => Hkeys hc d v (or_intror H))
                    (fun hc d v b H => Hreadable hc d v b (or_intror H))).
  clear IH.
  pose proof (Hkeys hc d v (or_introl eq_refl)) as Hfound.
  pose proof (Hreadable hc d v) as Hd.
  destruct (vm_lookup hc d vm) as [[up2date|]|]; [| |congruence].
  - specialize (Hd up2date (or_introl eq_refl) eq_refl). wp_steps.
    destruct (get_hostcategorydir_by_hostcategoryid_and_path _ _ _)
      as [|hcd hcds] eqn:Hq.
    + destruct up2date; cbn [negb]; [|now apply IH'].
      unfold new_hcd. wp_steps.
      eapply wp_stats_incr_full; [exact Hfull|unfold counters; simpl; tauto|].
      intros stats' Hfull'. wp_steps.
      eapply wp_mono.
      { eapply sync_row_completes; [|exact Hfull'|exact Hd|].
        - cbn [Session.hcds Session.set_hcds]. rewrite length_app. simpl. lia.
        - apply steady_new_hcd; [reflexivity | exact Hsteady]. }
      intros r s' [stats'' [cur' [-> [Hfull'' Hsteady']]]]. wp_steps.
      now apply IH'.
    + wp_steps. eapply wp_mono.
      { eapply sync_row_completes; [|exact Hfull|exact Hd|exact Hsteady].
        eapply query_valid. rewrite Hq. now left. }
      intros r s' [stats'' [cur' [-> [Hfull'' Hsteady']]]]. wp_steps.
      now apply IH'.
  - wp_steps.
    eapply wp_stats_incr_full; [exact Hfull|unfold counters; simpl; tauto|].
    intros stats' Hfull'. wp_steps. now apply IH'.
Qed.

Lemma sync_historical_completes numkeys c lc current_hcds rows :
  forall stats s,
    stats_full numkeys stats -> sync_steady c lc s ->
    (forall j, In j rows -> (j < length (Session.hcds s))%nat) ->
    wp (sync_historical rows current_hcds stats) s
       (fun r s' => exists stats',
                      r = Ret stats' /\ stats_full numkeys stats' /\
                      sync_steady c lc s').
Proof.
  induction rows as [|j rows IH]; intros stats s Hfull Hsteady Hvalid;
    cbn [sync_historical]; [wp_steps; eauto|].
  unfold row_at. wp_steps.
  destruct (lookup_lt_is_Some_2 _ _ (Hvalid j (or_introl eq_refl))) as [row Hrow].
  rewrite Hrow. wp_steps.
  assert (Hreadable : match HostCategoryDir.directory row with
                      | Some directory => negb (Directory.readable directory)
                      | None => false
                      end = false).
  { destruct (HostCategoryDir.directory row) as [d|] eqn:Hdir; [|reflexivity].
    destruct Hsteady as [Hrows _]. now rewrite (Hrows j row d Hrow Hdir). }
  rewrite Hreadable.
  assert (Hrest : forall stats' s',
            stats_full numkeys stats' -> sync_steady c lc s' ->
            length (Session.hcds s') = length (Session.hcds s) ->
            wp (sync_historical rows current_hcds stats') s'
               (fun r s'' => exists stats'',
                               r = Ret stats'' /\ stats_full numkeys stats'' /\
                               sync_steady c lc s'')).
  { intros stats' s' Hfull' Hsteady' Hlen. apply IH; [assumption..|].
    intros j' Hj'. rewrite Hlen. apply Hvalid. now right. }
  destruct (negb (existsb _ _)); [|now apply Hrest].
  destruct (negb (option_bool_eqb _ _)); [|now apply Hrest].
  unfold update_row, Session.add. wp_steps.
  eapply wp_stats_incr_full; [exact Hfull|unfold counters; simpl; tauto|].
  intros stats' Hfull'. wp_steps. apply Hrest; [exact Hfull'| |].
  - now apply steady_set_up2date.
  - cbn [Session.hcds Session.set_hcds Session.set_added]. apply length_alter.
Qed.

Lemma sync_categories_completes numkeys c lc current_hcds categories :
  forall stats s,
    stats_full numkeys stats -> sync_steady c lc s ->
    wp (sync_categories categories current_hcds stats) s
       (fun r s' => exists stats',
                      r = Ret stats' /\ stats_full numkeys stats' /\
                      sync_steady c lc s').
Proof.
  induction categories as [|hc categories IH]; intros stats s Hfull Hsteady;
    cbn [sync_categories]; [wp_steps; eauto|].
  wp_steps. eapply wp_mono.
  { apply (sync_historical_completes numkeys c lc); [exact Hfull|exact Hsteady|].
    intros j. apply host_category_rows_valid. }
  intros r s' [stats' [-> [Hfull' Hsteady']]]. wp_steps. now apply IH.
Qed.

Lemma length_insert_by_name entry l :
  length (insert_by_name entry l) = S (length l).
Proof.
  induction l as [|y l IH]; [reflexivity|]. simpl.
  destruct (String.leb _ _); simpl; [reflexivity | now rewrite IH].
Qed.

Lemma length_sorted_by_name m : length (sorted_by_name m) = length m.
Proof.
  induction m as [|x m IH]; [reflexivity|]. simpl.
  now rewrite length_insert_by_name, IH.
Qed.

(** X15. When every row of the session that has its directory has a
    readable one, and every directory with the verdict true or false is
    readable, [sync_hcds] runs to its end: it returns, the date of the crawl
    is the time at its start, the session is committed exactly once, exactly
    one statistics report is made, whose first number is the number of keys
    of the verdict map, and the rows are still readable. *)
Theorem sync_hcds_completes (E : Env.t) (host : Host.t) (vm : verdicts)
    (st : State.t) :
  rows_readable (State.session st) ->
  verdicts_readable vm ->
  let run := sync_hcds E host vm st in
  fst run = Ret tt /\
  Session.commits (State.session (snd run))
  = S (Session.commits (State.session st)) /\
  Session.lastCrawled (State.session (snd run))
  = Some (Env.utcnow E (World.tick (State.world st))) /\
  (exists counters,
     World.trace (State.world (snd run))
     = World.trace (State.world st)
       ++ [EvReportStats (Z.of_nat (length vm) :: counters)]) /\
  rows_readable (State.session (snd run)).
Proof.
  intros Hrows Hvm. cbn zeta.
  change (wp (sync_hcds E host vm) st
            (fun r st' =>
               r = Ret tt /\
               Session.commits (State.session st')
               = S (Session.commits (State.session st)) /\
               Session.lastCrawled (State.session st')
               = Some (Env.utcnow E (World.tick (State.world st))) /\
               (exists counters,
                  World.trace (State.world st')
                  = World.trace (State.world st)
                    ++ [EvReportStats (Z.of_nat (length vm) :: counters)]) /\
               rows_readable (State.session st'))).
  unfold sync_hcds, utcnow. wp_steps.
  cbn [State.session State.set_world State.set_session State.world].
  set (c := Session.commits (State.session st)).
  set (lc := Some (Env.utcnow E (World.tick (State.world st)))).
  set (numkeys := Z.of_nat (length (sorted_by_name vm))).
  eapply wp_mono.
  { apply (sync_keys_completes numkeys c lc).
    - intros hc d v Hin. eapply vm_lookup_in, in_sorted_by_name, Hin.
    - intros hc d v b Hin. apply (Hvm hc d v b). apply in_sorted_by_name, Hin.
    - split; [apply stats_init_ready | apply lookup_insert_eq].
    - split; [exact Hrows | split; reflexivity]. }
  intros r s1 [stats1 [cur1 [-> [Hfull1 Hsteady1]]]]. wp_steps.
  cbn [State.session State.set_world State.set_session State.world fst snd].
  eapply wp_mono.
  { apply (sync_categories_completes numkeys c lc); [exact Hfull1|exact Hsteady1]. }
  intros r s2 [stats2 [-> [[[_ Hcounters] Hnum] [Hrows2 [Hc2 Hlc2]]]]].
  wp_steps. unfold Session.commit. wp_steps.
  cbn [State.session State.set_world State.set_session State.world].
  unfold report_stats, stats_get. rewrite Hnum.
  unfold counters in Hcounters.
  repeat match goal with
         | H : Forall _ (_ :: _) |- _ =>
             apply List.Forall_cons_iff in H; destruct H as [[? ?] H]
         end.
  repeat match goal with
         | H : stats2 !! _ = Some _ |- _ => rewrite H; clear H
         end.
  wp_steps.
  cbn [State.session State.set_world State.set_session State.world World.next
       World.trace Session.commits Session.set_commits Session.lastCrawled].
  split; [reflexivity|]. split; [now rewrite Hc2|]. split; [exact Hlc2|].
  split; [|exact Hrows2].
  subst numkeys. rewrite length_sorted_by_name, app_nil_r. eauto.
Qed.

Lemma sync_hcds_completes_witness :
  let E := Ex.remote Ex.seconds Ex.head_ok Ex.ftp_busy in
  let hc := Ex.hc ["http://m.example/fedora"] in
  let st := Ex.state Ex.http_host [Ex.hcd "20" Ex.d20 None] in
  let vm := [(hc, Ex.d20, Some true); (hc, Ex.d21, Some true);
             (hc, Ex.topdir, None)] in
  fst (sync_hcds E Ex.http_host vm st) = Ret tt /\
  World.trace (State.world (snd (sync_hcds E Ex.http_host vm st)))
  = [EvReportStats [3; 2; 0; 0; 1; 1; 0]].
Proof.
  split; [|reflexivity].
  refine (proj1 (sync_hcds_completes
                   (Ex.remote Ex.seconds Ex.head_ok Ex.ftp_busy) Ex.http_host
                   [(Ex.hc ["http://m.example/fedora"], Ex.d20, Some true);
                    (Ex.hc ["http://m.example/fedora"], Ex.d21, Some true);
                    (Ex.hc ["http://m.example/fedora"], Ex.topdir, None)]
                   (Ex.state Ex.http_host [Ex.hcd "20" Ex.d20 None]) _ _)).
  - intros i row d Hrow Hdir. destruct i as [|[|i]]; try discriminate.
    injection Hrow as <-. injection Hdir as <-. reflexivity.
  - intros hc d v b Hin Hv.
    destruct Hin as [Hin|[Hin|[Hin|[]]]]; injection Hin as <- <- <-;
      try reflexivity; discriminate.
Defined.

(** ** The rows that were there *)

Lemma rows_stay_alter old s i f :
  rows_stay old s ->
  keeps_key f ->
  (forall row0 d,
     Session.hcds s !! i = Some row0 ->
     HostCategoryDir.directory row0 = Some d ->
     HostCategoryDir.directory (f row0) = Some d) ->
  rows_stay old (Session.set_hcds (alter f i (Session.hcds s)) s).
Proof.
  intros Hs Hkey Hdir j row Hrow.
  destruct (Hs j row Hrow) as [row' [Hrow' [H1 [H2 [H3 H4]]]]].
  cbn [Session.hcds Session.set_hcds].
  destruct (decide (i = j)) as [->|Hne].
  - exists (f row'). rewrite list_lookup_alter_eq, Hrow'.
    destruct (Hkey row') as [K1 [K2 K3]].
    split; [reflexivity|]. rewrite K1, K2, K3. repeat split; try assumption.
    intros d Hd. apply (Hdir row' d Hrow'), H4, Hd.
  - exists row'. rewrite list_lookup_alter_ne by exact Hne. auto.
Qed.

Lemma rows_stay_set_up2date old i v :
  preserves (rows_stay old) (update_row i (set_up2date v)).
Proof.
  apply preserves_modify. intros s Hs.
  apply rows_stay_alter; [exact Hs | apply keeps_key_set_up2date|].
  intros row0 d _ Hd. exact Hd.
Qed.

Lemma rows_stay_add old i : preserves (rows_stay old) (Session.add i).
Proof. apply preserves_modify. intros s H. exact H. Qed.

Lemma rows_stay_sync_row old hcd d up2date stats current_hcds :
  preserves (rows_stay old) (sync_row hcd d up2date stats current_hcds).
Proof.
  intros s Hs.
  change (wp (sync_row hcd d up2date stats current_hcds) s
            (fun _ s' => rows_stay old s')).
  unfold sync_row, row_at. wp_steps.
  destruct (Session.hcds s !! hcd) as [row|] eqn:Hrow; wp_steps; [|exact Hs].
  assert (Hrest : preserves (rows_stay old)
            (stats <-
               (if negb (option_bool_eqb (HostCategoryDir.up2date row)
                                         (Some up2date))
                then update_row hcd (set_up2date (Some up2date)) ;;
                     Session.add hcd ;;
                     if negb up2date then stats_incr "not_up2date" stats
                     else stats_incr "up2date" stats
                else stats_incr "unchanged" stats) ;;
             ret (stats, hcd :: current_hcds))).
  { apply preserves_bind; [|intros; apply preserves_ret].
    destruct (negb _); [|apply preserves_stats_incr].
    apply preserves_bind; [apply rows_stay_set_up2date|]. intros _.
    apply preserves_bind; [apply rows_stay_add|]. intros _.
    destruct (negb up2date); apply preserves_stats_incr. }
  destruct (HostCategoryDir.directory row) eqn:Hdir.
  - apply wp_ret. cbn [wp_then]. apply Hrest, Hs.
  - unfold update_row at 1. apply wp_modify. cbn [wp_then]. apply Hrest.
    apply rows_stay_alter; [exact Hs | apply keeps_key_set_directory|].
    intros row0 d0 Hrow0 Hd0. congruence.
Qed.

Lemma rows_stay_new_hcd old host_category_id path directory_id :
  preserves (rows_stay old) (new_hcd host_category_id path directory_id).
Proof.
  intros s Hs. unfold new_hcd, bind, get, modify, ret. cbn [fst snd].
  intros i row Hrow. destruct (Hs i row Hrow) as [row' [Hrow' H]].
  exists row'. split; [|exact H]. cbn [Session.hcds Session.set_hcds].
  rewrite lookup_app_l; [exact Hrow'|]. eapply lookup_lt_Some, Hrow'.
Qed.

(** X16. Whatever [sync_hcds] ends with, it removes no row and moves none,
    and it leaves the host category, the path and the directory id of every
    row that was there as they were; a row that had its directory keeps it
    (the directory is filled in only where it was missing). *)
Theorem sync_hcds_keeps_rows (E : Env.t) (host : Host.t) (vm : verdicts)
    (st : State.t) :
  rows_stay (Session.hcds (State.session st))
            (State.session (snd (sync_hcds E host vm st))).
Proof.
  apply (keeps_sync_hcds vm (rows_stay (Session.hcds (State.session st)))).
  - apply rows_stay_sync_row.
  - intros hc d _. apply rows_stay_new_hcd.
  - apply rows_stay_set_up2date.
  - apply rows_stay_add.
  - apply preserves_modify. intros s H. exact H.
  - intros v. apply preserves_modify. intros s H. exact H.
  - intros i row Hrow. exists row. repeat split; auto.
Qed.

(** ** The rows the crawl did not meet *)

Lemma wp_conj {S A} (m : M S A) (s : S) (Q1 Q2 : outcome A -> S -> Prop) :
  wp m s Q1 -> wp m s Q2 -> wp m s (fun r s' => Q1 r s' /\ Q2 r s').
Proof. unfold wp. auto. Qed.

Lemma wp_of_preserves {S A} (P : S -> Prop) (m : M S A) (s : S) :
  preserves P m -> P s -> wp m s (fun _ s' => P s').
Proof. unfold wp, preserves. auto. Qed.

Lemma wp_of_returns_only {S A} (R : A -> Prop) (m : M S A) (s : S) :
  returns_only R m -> wp m s (fun r _ => forall a, r = Ret a -> R a).
Proof. intros H a. apply H. Qed.

Lemma query_sound session host_category_id path j :
  In j (get_hostcategorydir_by_hostcategoryid_and_path session host_category_id path) ->
  exists row,
    Session.hcds session !! j = Some row /\
    HostCategoryDir.host_category_id row = host_category_id /\
    HostCategoryDir.path row = path.
Proof.
  unfold get_hostcategorydir_by_hostcategoryid_and_path. intros Hin.
  apply in_map_iff in Hin. destruct Hin as [[j' row] [Hj Hin]]. simpl in Hj. subst j'.
  apply filter_In in Hin. destruct Hin as [Hin Hmatch]. cbn [snd] in Hmatch.
  apply andb_true_iff in Hmatch. destruct Hmatch as [Hid Hpath].
  exists row. split; [now apply indexed_row_valid|].
  split; [now apply Z.eqb_eq | now apply String.eqb_eq].
Qed.

Lemma returns_sync_row hcd d up2date stats current_hcds :
  returns_only (fun x => snd x = hcd :: current_hcds)
               (sync_row hcd d up2date stats current_hcds).
Proof.
  unfold sync_row. apply returns_only_bind. intros row.
  apply returns_only_bind. intros _. apply returns_only_bind. intros stats'.
  now apply returns_only_ret.
Qed.

Lemma new_hcd_run host_category_id path directory_id s :
  new_hcd host_category_id path directory_id s
  = (Ret (length (Session.hcds s)),
     snd (new_hcd host_category_id path directory_id s)).
Proof. reflexivity. Qed.

(** The first loop takes up no row for which the map has no verdict. *)
Lemma sync_keys_leaves_out old i row vm keys :
  old !! i = Some row ->
  no_verdict_for vm keys row ->
  forall stats current_hcds s,
    rows_stay old s -> ~ In i current_hcds ->
    wp (sync_keys keys vm stats current_hcds) s
       (fun r s' => rows_stay old s' /\
                    forall x, r = Ret x -> ~ In i (snd x)).
Proof.
  intros Hrow.
  induction keys as [|[[hc d] v] keys IH]; intros Hnone stats cur s Hstay Hcur;
    cbn [sync_keys].
  { wp_steps. split; [exact Hstay|]. intros x Hx. now injection Hx as <-. }
  assert (IH' := IH (fun hc d v b H => Hnone hc d v b (or_intror H))). clear IH.
  pose proof (Hnone hc d v) as Hkey.
  assert (Hthen : forall hcd stats1 s1,
             rows_stay old s1 -> hcd <> i ->
             wp (r <- sync_row hcd d
                               match vm_lookup hc d vm with
                               | Some (Some b) => b
                               | _ => false
                               end stats1 cur ;;
                 sync_keys keys vm (fst r) (snd r)) s1
                (fun r s' => rows_stay old s' /\
                             forall x, r = Ret x -> ~ In i (snd x))).
  { intros hcd stats1 s1 Hstay1 Hne. apply wp_bind. eapply wp_mono.
    { apply wp_conj.
      - apply (wp_of_preserves (rows_stay old));
          [apply rows_stay_sync_row | exact Hstay1].
      - apply wp_of_returns_only, returns_sync_row. }
    intros r s2 [Hstay2 Hret]. destruct r as [x|e|]; cbn [wp_then].
    - apply IH'; [exact Hstay2|]. rewrite (Hret x eq_refl).
      intros [Heq|Hin]; [congruence | exact (Hcur Hin)].
    - split; [exact Hstay2 | discriminate].
    - split; [exact Hstay2 | discriminate]. }
  destruct (vm_lookup hc d vm) as [[up2date|]|] eqn:Hv.
  - specialize (Hkey up2date (or_introl eq_refl) eq_refl).
    apply wp_bind, wp_get. cbn [wp_then].
    destruct (get_hostcategorydir_by_hostcategoryid_and_path _ _ _)
      as [|hcd hcds] eqn:Hq.
    + destruct up2date; cbn [negb]; [|now apply IH'].
      pose proof (rows_stay_new_hcd old (HostCategory.id hc) (hcd_path hc d)
                    (Directory.id d) s Hstay) as Hnew.
      apply wp_bind. unfold wp at 1. rewrite new_hcd_run. cbn [fst snd wp_then].
      apply wp_bind. unfold stats_incr.
      destruct (stats !! "newdir"); [apply wp_ret | apply wp_raise];
        cbn [wp_then]; [|split; [exact Hnew | discriminate]].
      apply Hthen; [exact Hnew|].
      destruct (Hstay i row Hrow) as [row' [Hrow' _]].
      apply lookup_lt_Some in Hrow'. lia.
    + apply Hthen; [exact Hstay|]. intros ->.
      destruct (query_sound s (HostCategory.id hc) (hcd_path hc d) i)
        as [row1 [Hrow1 [Hid Hpath]]].
      { unfold hcd_path. rewrite Hq. now left. }
      destruct (Hstay i row Hrow) as [row' [Hrow' [H1 [H2 _]]]].
      assert (row1 = row') by congruence. subst row1.
      apply Hkey. split; congruence.
  - apply wp_bind. unfold stats_incr.
    destruct (stats !! "unknown"); [apply wp_ret | apply wp_raise]; cbn [wp_then].
    + now apply IH'.
    + split; [exact Hstay | discriminate].
  - apply wp_raise. split; [exact Hstay | discriminate].
Qed.

Lemma option_bool_eqb_eq a b : option_bool_eqb a b = true -> a = b.
Proof.
  destruct a as [[|]|], b as [[|]|]; simpl; intros H; congruence.
Qed.

Lemma marked_false_alter i j v s added :
  marked_false i s ->
  marked_false i
    (Session.set_added added
       (Session.set_hcds (alter (set_up2date (Some v)) j (Session.hcds s)) s)) \/
  i = j.
Proof.
  intros [row [Hrow Hup]]. destruct (decide (i = j)) as [->|Hne]; [now right|left].
  exists row. split; [|exact Hup].
  cbn [Session.hcds Session.set_hcds Session.set_added].
  rewrite list_lookup_alter_ne by congruence. exact Hrow.
Qed.

Lemma marked_false_set i row s added :
  Session.hcds s !! i = Some row ->
  marked_false i
    (Session.set_added added
       (Session.set_hcds (alter (set_up2date (Some false)) i (Session.hcds s)) s)).
Proof.
  intros Hrow. exists (set_up2date (Some false) row). split; [|reflexivity].
  cbn [Session.hcds Session.set_hcds Session.set_added].
  now rewrite list_lookup_alter_eq, Hrow.
Qed.

(** The inner loop of the second pass marks the row [i] when it meets it. *)
Lemma sync_historical_marks c lc i current_hcds rows :
  ~ In i current_hcds ->
  forall stats s,
    sync_steady c lc s ->
    (forall j, In j rows -> (j < length (Session.hcds s))%nat) ->
    wp (sync_historical rows current_hcds stats) s
       (fun r s' =>
          (marked_false i s -> marked_false i s') /\
          forall stats', r = Ret stats' -> In i rows -> marked_false i s').
Proof.
  intros Hcur. induction rows as [|j rows IH]; intros stats s Hsteady Hvalid;
    cbn [sync_historical].
  { apply wp_ret. split; [auto|]. intros _ _ []. }
  unfold row_at. apply wp_bind, wp_bind, wp_get. cbn [wp_then].
  destruct (lookup_lt_is_Some_2 _ _ (Hvalid j (or_introl eq_refl))) as [row Hrow].
  rewrite Hrow. apply wp_ret. cbn [wp_then].
  assert (Hreadable : match HostCategoryDir.directory row with
                      | Some directory => negb (Directory.readable directory)
                      | None => false
                      end = false).
  { destruct (HostCategoryDir.directory row) as [d|] eqn:Hdir; [|reflexivity].
    destruct Hsteady as [Hrows _]. now rewrite (Hrows j row d Hrow Hdir). }
  rewrite Hreadable.
  assert (Hrest : forall stats' s',
            sync_steady c lc s' ->
            length (Session.hcds s') = length (Session.hcds s) ->
            (marked_false i s -> marked_false i s') ->
            (j = i -> marked_false i s') ->
            wp (sync_historical rows current_hcds stats') s'
               (fun r s'' =>
                  (marked_false i s -> marked_false i s'') /\
                  forall stats'', r = Ret stats'' -> In i (j :: rows) ->
                                  marked_false i s'')).
  { intros stats' s' Hsteady' Hlen Hkeep Hhere. eapply wp_mono.
    - apply IH; [exact Hsteady'|].
      intros j' Hj'. rewrite Hlen. apply Hvalid. now right.
    - intros r s'' [Hkeep' Hret]. split; [auto|].
      intros stats'' Hr [Heq|Hin]; eauto. }
  destruct (existsb (Nat.eqb j) current_hcds) eqn:Hmem; cbn [negb].
  { apply Hrest; [exact Hsteady | reflexivity | auto |].
    intros ->. exfalso. apply Hcur. apply existsb_exists in Hmem.
    destruct Hmem as [x [Hin Heq]]. apply Nat.eqb_eq in Heq. now subst x. }
  destruct (option_bool_eqb (HostCategoryDir.up2date row) (Some false)) eqn:Hup;
    cbn [negb].
  { apply Hrest; [exact Hsteady | reflexivity | auto |].
    intros ->. exists row. split; [exact Hrow|]. now apply option_bool_eqb_eq. }
  unfold update_row, Session.add.
  apply wp_bind, wp_modify. cbn [wp_then].
  apply wp_bind, wp_modify. cbn [wp_then].
  set (s1 := Session.set_added _ _).
  assert (Hkeep : marked_false i s -> marked_false i s1).
  { intros Hm. destruct (marked_false_alter i j false s
                           (Session.added
                              (Session.set_hcds
                                 (alter (set_up2date (Some false)) j (Session.hcds s)) s)
                            ++ [j]) Hm) as [H| ->];
      [exact H | now apply (marked_false_set j row)]. }
  apply wp_bind. unfold stats_incr.
  destruct (stats !! "deleted_on_master"); [apply wp_ret | apply wp_raise];
    cbn [wp_then]; [|split; [exact Hkeep | discriminate]].
  apply Hrest.
  - now apply steady_set_up2date.
  - subst s1. cbn [Session.hcds Session.set_hcds Session.set_added].
    apply length_alter.
  - exact Hkeep.
  - intros ->. now apply (marked_false_set i row).
Qed.

Lemma rows_stay_sync_historical old rows current_hcds stats :
  preserves (rows_stay old) (sync_historical rows current_hcds stats).
Proof.
  apply keeps_sync_historical; [apply rows_stay_set_up2date | apply rows_stay_add].
Qed.

Lemma steady_sync_historical c lc rows current_hcds stats :
  preserves (sync_steady c lc) (sync_historical rows current_hcds stats).
Proof.
  apply keeps_sync_historical.
  - intros i v. apply preserves_modify. intros s Hs.
    apply (steady_set_up2date c lc s i v (Session.added s)) in Hs. exact Hs.
  - intros i. apply preserves_modify. intros s H. exact H.
Qed.

(** The second pass marks the row [i] of a host category of the host. *)
Lemma sync_categories_marks c lc old i row hc current_hcds categories :
  ~ In i current_hcds ->
  old !! i = Some row ->
  HostCategoryDir.host_category_id row = HostCategory.id hc ->
  forall stats s,
    sync_steady c lc s -> rows_stay old s ->
    wp (sync_categories categories current_hcds stats) s
       (fun r s' =>
          (marked_false i s -> marked_false i s') /\
          forall stats', r = Ret stats' -> In hc categories -> marked_false i s').
Proof.
  intros Hcur Hrow Hid.
  induction categories as [|hc' categories IH]; intros stats s Hsteady Hstay;
    cbn [sync_categories].
  { apply wp_ret. split; [auto|]. intros _ _ []. }
  apply wp_bind, wp_get. cbn [wp_then]. apply wp_bind. eapply wp_mono.
  { apply wp_conj; [apply wp_conj|].
    - apply (sync_historical_marks c lc i current_hcds
               (map fst (host_category_rows s hc')) Hcur stats s Hsteady).
      intros j. apply host_category_rows_valid.
    - apply (wp_of_preserves (sync_steady c lc));
        [apply steady_sync_historical | exact Hsteady].
    - apply (wp_of_preserves (rows_stay old));
        [apply rows_stay_sync_historical | exact Hstay]. }
  intros r s1 [[[Hkeep Hmark] Hsteady1] Hstay1].
  destruct r as [stats1|e|]; cbn [wp_then];
    [|split; [exact Hkeep | discriminate]..].
  eapply wp_mono; [apply IH; assumption|].
  intros r s2 [Hkeep2 Hmark2]. split; [auto|].
  intros stats2 Hr [Heq|Hin]; [|now apply (Hmark2 stats2)].
  subst hc'. apply Hkeep2, (Hmark stats1 eq_refl).
  destruct (Hstay i row Hrow) as [row' [Hrow' [H1 _]]].
  eapply host_category_rows_has; [exact Hrow' | congruence].
Qed.

(** X17. The second pass of [sync_hcds] marks what the crawl did not meet:
    under the conditions of a run to the end (readable rows, readable
    verdicts), a row that was there before, that belongs to a host category
    of the host, and for whose host category and path the verdict map has
    no verdict true or false, ends with up2date false. *)
Theorem sync_hcds_marks_stale_rows (E : Env.t) (host : Host.t) (vm : verdicts)
    (st : State.t) (i : nat) (row : HostCategoryDir.t) (hc : HostCategory.t) :
  rows_readable (State.session st) ->
  verdicts_readable vm ->
  Session.hcds (State.session st) !! i = Some row ->
  In hc (Host.categories host) ->
  HostCategoryDir.host_category_id row = HostCategory.id hc ->
  no_verdict_for vm vm row ->
  fst (sync_hcds E host vm st) = Ret tt /\
  marked_false i (State.session (snd (sync_hcds E host vm st))).
Proof.
  intros Hrows Hvm Hrow Hhc Hid Hnone.
  change (wp (sync_hcds E host vm) st
            (fun r st' => r = Ret tt /\ marked_false i (State.session st'))).
  unfold sync_hcds, utcnow. wp_steps.
  cbn [State.session State.set_world State.set_session State.world].
  set (old := Session.hcds (State.session st)).
  set (c := Session.commits (State.session st)).
  set (lc := Some (Env.utcnow E (World.tick (State.world st)))).
  set (numkeys := Z.of_nat (length (sorted_by_name vm))).
  assert (Hstay : rows_stay old (Session.set_lastCrawled lc (State.session st))).
  { intros j row0 Hrow0. exists row0. repeat split; auto. }
  eapply wp_mono.
  { apply wp_conj.
    - apply (sync_keys_completes numkeys c lc).
      + intros hc' d v Hin. eapply vm_lookup_in, in_sorted_by_name, Hin.
      + intros hc' d v b Hin. apply (Hvm hc' d v b). apply in_sorted_by_name, Hin.
      + split; [apply stats_init_ready | apply lookup_insert_eq].
      + split; [exact Hrows | split; reflexivity].
    - apply (sync_keys_leaves_out old i row vm (sorted_by_name vm) Hrow).
      + intros hc' d v b Hin. apply (Hnone hc' d v b). apply in_sorted_by_name, Hin.
      + exact Hstay.
      + intros []. }
  intros r s1 [[stats1 [cur1 [-> [Hfull1 Hsteady1]]]] [Hstay1 Hcur1]].
  specialize (Hcur1 _ eq_refl). wp_steps.
  cbn [State.session State.set_world State.set_session State.world fst snd] in *.
  eapply wp_mono.
  { apply wp_conj.
    - apply (sync_categories_completes numkeys c lc); [exact Hfull1|exact Hsteady1].
    - apply (sync_categories_marks c lc old i row hc cur1 (Host.categories host)
               Hcur1 Hrow Hid stats1 s1 Hsteady1 Hstay1). }
  intros r s2 [[stats2 [-> [[[_ Hcounters] Hnum] _]]] [_ Hmark]].
  specialize (Hmark stats2 eq_refl Hhc).
  wp_steps. unfold Session.commit. wp_steps.
  cbn [State.session State.set_world State.set_session State.world].
  unfold report_stats, stats_get. rewrite Hnum.
  unfold counters in Hcounters.
  repeat match goal with
         | H : Forall _ (_ :: _) |- _ =>
             apply List.Forall_cons_iff in H; destruct H as [[? ?] H]
         end.
  repeat match goal with
         | H : stats2 !! _ = Some _ |- _ => rewrite H; clear H
         end.
  wp_steps. split; [reflexivity|]. exact Hmark.
Qed.

Lemma sync_hcds_marks_stale_rows_witness :
  let E := Ex.remote Ex.seconds Ex.head_ok Ex.ftp_busy in
  let hc := Ex.hc ["http://m.example/fedora"] in
  let st := Ex.state Ex.http_host
              [Ex.hcd "20" Ex.d20 None; Ex.hcd "21" Ex.d21 (Some true)] in
  let vm := [(hc, Ex.d20, Some true); (hc, Ex.topdir, None)] in
  map HostCategoryDir.up2date
      (Session.hcds (State.session (snd (sync_hcds E Ex.http_host vm st))))
  = [Some true; Some false] /\
  marked_false 1 (State.session (snd (sync_hcds E Ex.http_host vm st))).
Proof.
  split; [reflexivity|].
  refine (proj2 (sync_hcds_marks_stale_rows
                   (Ex.remote Ex.seconds Ex.head_ok Ex.ftp_busy) Ex.http_host
                   [(Ex.hc ["http://m.example/fedora"], Ex.d20, Some true);
                    (Ex.hc ["http://m.example/fedora"], Ex.topdir, None)]
                   (Ex.state Ex.http_host
                      [Ex.hcd "20" Ex.d20 None; Ex.hcd "21" Ex.d21 (Some true)])
                   1 (Ex.hcd "21" Ex.d21 (Some true))
                   (Ex.hc ["http://m.example/fedora"]) _ _ eq_refl _ eq_refl _)).
  - intros i row d Hrow Hdir. destruct i as [|[|[|i]]]; try discriminate;
      injection Hrow as <-; injection Hdir as <-; reflexivity.
  - intros hc d v b Hin Hv.
    destruct Hin as [Hin|[Hin|[]]]; injection Hin as <- <- <-;
      try reflexivity; discriminate.
  - now left.
  - intros hc d v b Hin Hv [_ Hpath].
    destruct Hin as [Hin|[Hin|[]]]; injection Hin as <- <- <-; discriminate.
Defined.

(** ** The listing of a directory *)

Lemma ftp_results_from (listing : list string) :
  forall (acc : gmap string string) name size,
    fold_left
      (fun results line =>
         if Py.startswith line "total" then results
         else
           let fields := Py.split line in
           match fields !! 4%nat, fields !! 8%nat with
           | Some size, Some name => <[name := size]> results
           | _, _ => results
           end)
      listing acc !! name = Some size ->
    acc !! name = Some size \/
    exists line,
      In line listing /\ Py.startswith line "total" = false /\
      Py.split line !! 8%nat = Some name /\ Py.split line !! 4%nat = Some size.
Proof.
  induction listing as [|line listing IH]; intros acc name size; cbn [fold_left].
  { intros H. now left. }
  intros H. apply IH in H. destruct H as [H|[line' [Hin H]]].
  - destruct (Py.startswith line "total") eqn:Htotal; [now left|].
    cbv zeta in H.
    destruct (Py.split line !! 4%nat) as [size'|] eqn:H4; [|now left].
    destruct (Py.split line !! 8%nat) as [name'|] eqn:H8; [|now left].
    destruct (decide (name' = name)) as [->|Hne].
    + rewrite lookup_insert_eq in H. injection H as ->.
      right. exists line. split; [now left|]. auto.
    + rewrite lookup_insert_ne in H by exact Hne. now left.
  - right. exists line'. split; [now right | exact H].
Qed.

(** X18. [try_per_dir] says that a directory is up to date only when the
    URL starts with ftp and the server answered one of the (at most two)
    requests for a listing of the URL, a slash added at its end, with a
    listing that has, for every file of the directory, a line that does not
    start with total, whose ninth field is the name of the file and whose
    fifth field is its size. *)
Theorem try_per_dir_true_sound (E : Env.t) (d : Directory.t) (url : string)
    (w : World.t) :
  fst (try_per_dir E d url w) = Ret (Some true) ->
  exists files n listing,
    Directory.files d = Some files /\
    Py.startswith url "ftp" = true /\
    (World.tick w <= n <= S (World.tick w))%nat /\
    Env.ftp_list E n (if negb (Py.endswith url "/") then url +:+ "/" else url)
    = FtpListing listing /\
    forall name size,
      In (name, size) files ->
      exists line,
        In line listing /\ Py.startswith line "total" = false /\
        Py.split line !! 8%nat = Some name /\ Py.split line !! 4%nat = Some size.
Proof.
  unfold try_per_dir.
  destruct (Directory.files d) as [files|]; [|discriminate].
  destruct (Py.startswith url "ftp"); cbn [negb]; [|discriminate].
  set (url' := if negb (Py.endswith url "/") then url +:+ "/" else url).
  pose proof (get_ftp_dir_rec_attempts E url' (Directory.readable d) 3 0 w
                ltac:(simpl; lia))
    as [k [Hk [_ [_ [_ [_ [_ [_ [_ Hlisting]]]]]]]]].
  fold (get_ftp_dir E url' (Directory.readable d)) in Hlisting.
  change (Z.to_nat (2 - 0)) with 2%nat in Hk.
  unfold bind at 1.
  destruct (get_ftp_dir E url' (Directory.readable d) w) as [[listing|e|] w1];
    cbn [fst] in *; [|discriminate..].
  destruct listing as [[|line listing]|]; [discriminate| |discriminate].
  cbn [ret fst]. intros Hall. injection Hall as Hall.
  destruct (Hlisting (line :: listing) eq_refl) as [Hnil|[n [Hn Hreply]]];
    [discriminate|].
  exists files, n, (line :: listing).
  split; [reflexivity|]. split; [reflexivity|]. split; [lia|].
  split; [exact Hreply|].
  intros name size Hin. rewrite forallb_forall in Hall.
  specialize (Hall (name, size) Hin). cbn [fst snd] in Hall.
  destruct (ftp_results (line :: listing) !! name) as [size'|] eqn:Hres;
    [|discriminate].
  apply String.eqb_eq in Hall. subst size'.
  apply ftp_results_from in Hres. destruct Hres as [Hempty|Hline]; [|exact Hline].
  rewrite lookup_empty in Hempty. discriminate.
Qed.

Lemma try_per_dir_true_sound_witness :
  let E := Ex.remote Ex.seconds Ex.head_ok
             (fun _ _ => FtpListing ["total 8";
                                     "-rw-r--r-- 1 ftp ftp 100 Jan 1 2014 a.iso"]) in
  exists files n listing,
    Directory.files Ex.d20 = Some files /\
    Py.startswith "ftp://m.example/fedora/20" "ftp" = true /\
    (0 <= n <= 1)%nat /\
    Env.ftp_list E n "ftp://m.example/fedora/20/" = FtpListing listing /\
    forall name size,
      In (name, size) files ->
      exists line,
        In line listing /\ Py.startswith line "total" = false /\
        Py.split line !! 8%nat = Some name /\ Py.split line !! 4%nat = Some size.
Proof.
  exact (try_per_dir_true_sound
           (Ex.remote Ex.seconds Ex.head_ok
              (fun _ _ => FtpListing ["total 8";
                                      "-rw-r--r-- 1 ftp ftp 100 Jan 1 2014 a.iso"]))
           Ex.d20 "ftp://m.example/fedora/20" World.init eq_refl).
Defined.

(** ** The categories that are not probed *)






(** ** The exception the walker does not know *)

Lemma get_ftp_dir_unknown_error E url readable w msg :
  Env.ftp_list E (World.tick w) url = FtpRaises (error_perm msg) ->
  Py.startswith msg "550" = false -> Py.startswith msg "553" = false ->
  Py.startswith msg "530" = false -> Py.startswith msg "500" = false ->
  wp (get_ftp_dir E url readable) w
     (fun r w' => r = Raise (error_perm msg) /\
                  World.trace w' = World.trace w ++ [EvFtpList url]).
Proof.
  intros Hreply H550 H553 H530 H500. unfold get_ftp_dir.
  change 3%nat with (S 2). cbn [get_ftp_dir_rec]. change (0 >? 1) with false.
  cbv iota. unfold ftp_dir, _open_ftp, with_hoststate. wp_steps.
  cbn [World.tick World.set_hoststate]. rewrite Hreply. wp_steps.
  rewrite H550, H553, H530, H500. wp_steps. split; reflexivity.
Qed.

(** X20. An FTP error the crawler has no answer for ends the walk over the
    directories of a category.  When the listing of a directory that is to be
    probed over FTP fails, within the deadline, with a permanent error other
    than 550, 553, 530 and 500, the exception reaches the catch-all handler
    of the loop: the host is marked not up to date, a report is mailed if the
    configuration says so, the directories after this one are not probed
    (one request was sent in all), no verdict is recorded, and the loop ends
    with the exit code 1. *)
Theorem walk_dirs_unknown_ftp_error (E : Env.t) (options : Options.t)
    (config : Config.t) (host : Host.t) (hc : HostCategory.t)
    (categoryUrl : string) (categoryPrefixLen : nat)
    (row : HostCategoryDir.t) (rest : list HostCategoryDir.t)
    (try_later_delay : Z) (m : verdicts) (rc : Z) (st : State.t)
    (d : Directory.t) (files : list (string * string)) (msg : string) :
  let url := categoryUrl +:+ "/" +:+
             Py.slice_from categoryPrefixLen (Directory.name d) in
  let url' := if negb (Py.endswith url "/") then url +:+ "/" else url in
  HostCategoryDir.directory row = Some d ->
  passed_over options d = false ->
  Directory.files d = Some files ->
  Py.startswith categoryUrl "ftp" = true ->
  within options (Timer.starttime (State.timer st))
         (Env.clock E (length (Timer.readings (State.timer st)))) ->
  Env.ftp_list E (World.tick (State.world st)) url' = FtpRaises (error_perm msg) ->
  Py.startswith msg "550" = false -> Py.startswith msg "553" = false ->
  Py.startswith msg "530" = false -> Py.startswith msg "500" = false ->
  let run := walk_dirs E options config host hc (Some categoryUrl)
                       categoryPrefixLen (row :: rest) try_later_delay m rc st in
  fst run = Ret (m, 1) /\
  Session.not_up2date (State.session (snd run)) = true /\
  World.trace (State.world (snd run))
  = World.trace (State.world st) ++ [EvFtpList url'] ++
    (if Config.crawler_send_email config
     then [EvEmail (Host.name host)
                   ("Host marked not up2date: " +:+ unhandled_reason)]
     else []).
Proof.
  intros url url' Hd Hover Hfiles Hftp Hwithin Hreply H550 H553 H530 H500.
  cbn zeta.
  change (wp (walk_dirs E options config host hc (Some categoryUrl)
                        categoryPrefixLen (row :: rest) try_later_delay m rc) st
            (fun r st' =>
               r = Ret (m, 1) /\
               Session.not_up2date (State.session st') = true /\
               World.trace (State.world st')
               = World.trace (State.world st) ++ [EvFtpList url'] ++
                 (if Config.crawler_send_email config
                  then [EvEmail (Host.name host)
                                ("Host marked not up2date: " +:+ unhandled_reason)]
                  else []))).
  cbn [walk_dirs]. unfold timeout_check. wp_steps.
  unfold within in Hwithin. cbn [Timer.starttime Timer.read].
  replace (_ >? _) with false by lia. wp_steps. rewrite Hd.
  unfold passed_over in Hover. apply orb_false_iff in Hover.
  destruct Hover as [Hreadable Hcanary]. rewrite Hreadable, Hcanary.
  cbn [dir_url]. fold url. unfold probe_dir, try_per_dir. rewrite Hfiles.
  assert (Hurl : Py.startswith url "ftp" = true)
    by (unfold url; now apply startswith_append).
  rewrite Hurl. cbn [negb]. fold url'. wp_steps.
  cbn [State.world State.set_timer].
  eapply wp_mono;
    [apply (get_ftp_dir_unknown_error E url' (Directory.readable d)
              (State.world st) msg); assumption|].
  intros r w1 [-> Htrace]. wp_steps.
  unfold mark_not_up2date, set_not_up2date, utcnow, send_email. wp_steps.
  cbn [State.world State.session State.set_world State.set_session
       State.set_timer Session.not_up2date Session.set_not_up2date
       Session.set_lastCrawled World.next World.trace].
  destruct (Config.crawler_send_email config); cbn [negb]; wp_steps;
    cbn [State.world State.session State.set_world State.set_session
         State.set_timer Session.not_up2date Session.set_not_up2date
         Session.set_lastCrawled World.next World.trace];
    rewrite Htrace, ?app_nil_r, <- ?app_assoc; repeat split.
Qed.

Lemma walk_dirs_unknown_ftp_error_witness :
  let E := Ex.remote Ex.seconds Ex.head_ok
             (fun _ _ => FtpRaises (error_perm "599 Odd")) in
  let st := Ex.state Ex.ftp_host [Ex.hcd "20" Ex.d20 None; Ex.hcd "21" Ex.d21 None] in
  fst (walk_dirs E (Ex.options [] 120) Ex.config Ex.ftp_host
                 (Ex.hc ["ftp://m.example/fedora"]) (Some "ftp://m.example/fedora")
                 11 [Ex.hcd "20" Ex.d20 None; Ex.hcd "21" Ex.d21 None] 1 [] 0 st)
  = Ret ([], 1).
Proof.
  refine (proj1 (walk_dirs_unknown_ftp_error
                   (Ex.remote Ex.seconds Ex.head_ok
                      (fun _ _ => FtpRaises (error_perm "599 Odd")))
                   (Ex.options [] 120) Ex.config Ex.ftp_host
                   (Ex.hc ["ftp://m.example/fedora"]) "ftp://m.example/fedora" 11
                   (Ex.hcd "20" Ex.d20 None) [Ex.hcd "21" Ex.d21 None] 1 [] 0
                   (Ex.state Ex.ftp_host
                      [Ex.hcd "20" Ex.d20 None; Ex.hcd "21" Ex.d21 None])
                   Ex.d20 [("a.iso", "100")] "599 Odd"
                   eq_refl eq_refl eq_refl eq_refl _ eq_refl
                   eq_refl eq_refl eq_refl eq_refl)).
  unfold within. vm_compute. discriminate.
Defined.

(** ** The redirect to a path *)

(** X21. A redirect whose Location starts with a slash is followed at the
    scheme and the netloc of the URL it came from, put together as
    scheme:netloc and the location, without the two slashes of a URL.  For a
    URL of scheme http whose HEAD is answered by such a redirect (and
    [recursion] at most 10), the next HEAD request is made for that string,
    and when it finds the file with the expected size the check returns
    true: two requests in all. *)
Theorem relative_redirect_is_reanchored (E : Env.t) (url filedata : string)
    (recursion : Z) (readable : bool) (w : World.t) (status : Z)
    (content_length : option string) (location : string)
    (keepalive_ok keepalive_ok' : bool) :
  let target := "http:" +:+ SplitResult.netloc (Env.urlsplit E url) +:+ location in
  SplitResult.scheme (Env.urlsplit E url) = "http" ->
  Env.http_head E (World.tick w) url
  = HttpResponse status content_length (Some location) keepalive_ok ->
  300 <= status < 400 ->
  Py.startswith location "/" = true ->
  recursion <= 10 ->
  Env.http_head E (S (World.tick w)) target
  = HttpResponse 200 (Some filedata) None keepalive_ok' ->
  let run := check_head E url filedata recursion readable 0 w in
  fst run = Ret (Some true) /\
  World.trace (snd run) = World.trace w ++ [EvHead url; EvHead target].
Proof.
  intros target Hscheme Hfirst Hstatus Hslash Hrec Hsecond. cbn zeta.
  assert (Htarget : Py.startswith target "http:" = true)
    by (apply startswith_append; reflexivity).
  unfold check_head, fuel_for.
  change (4 + 4 * Z.to_nat (11 - recursion))%nat
    with (S (S (S (S (4 * Z.to_nat (11 - recursion))))))%nat.
  rewrite (check_head_rec_response _ _ _ _ _ _ _ _ _ _ _ _ Hfirst).
  replace ((status >=? 200) && (status <? 300)) with false by lia.
  replace ((status >=? 300) && (status <? 400)) with true by lia.
  cbn [handle_redirect_rec]. replace (recursion >? 10) with false by lia.
  rewrite Hslash, Hscheme.
  change ("http" +:+ ":" +:+ SplitResult.netloc (Env.urlsplit E url) +:+ location)
    with target.
  rewrite check_url_rec_http by exact Htarget.
  rewrite (check_head_rec_response E _ target filedata (recursion + 1) readable 0
             (head_done E url keepalive_ok w) 200 (Some filedata) None
             keepalive_ok');
    [|now rewrite head_done_tick].
  cbn [Z.geb Z.ltb Z.compare Pos.compare Pos.compare_cont andb].
  unfold ret. cbn [fst snd]. rewrite String.eqb_refl.
  split; [reflexivity|].
  rewrite !head_done_trace, <- app_assoc. reflexivity.
Qed.

Lemma relative_redirect_is_reanchored_witness :
  let E := Ex.remote Ex.seconds
             (fun n _ => if (n =? 0)%nat
                         then HttpResponse 301 None (Some "/pub/a.iso") true
                         else HttpResponse 200 (Some "100") None true)
             Ex.ftp_busy in
  World.trace (snd (check_head E "http://m.example/fedora/a.iso" "100" 0 true 0
                               World.init))
  = [EvHead "http://m.example/fedora/a.iso"; EvHead "http:m.example/pub/a.iso"].
Proof.
  exact (proj2 (relative_redirect_is_reanchored
                  (Ex.remote Ex.seconds
                     (fun n _ => if (n =? 0)%nat
                                 then HttpResponse 301 None (Some "/pub/a.iso") true
                                 else HttpResponse 200 (Some "100") None true)
                     Ex.ftp_busy)
                  "http://m.example/fedora/a.iso" "100" 0 true World.init
                  301 None "/pub/a.iso" true true
                  eq_refl eq_refl ltac:(lia) eq_refl ltac:(lia) eq_refl)).
Defined.

(** ** The parent of a directory *)

Lemma append_assoc (a b c : string) : (a +:+ b) +:+ c = a +:+ (b +:+ c).
Proof.
  induction a as [|x a IH]; [reflexivity|].
  change (String x ((a +:+ b) +:+ c) = String x (a +:+ (b +:+ c))).
  now rewrite IH.
Qed.

Lemma concat_removelast (sep : string) (l : list string) :
  removelast l <> [] ->
  String.concat sep l
  = String.concat sep (removelast l) +:+ sep +:+ List.last l "".
Proof.
  induction l as [|x l IH]; [intros []; reflexivity|].
  destruct l as [|y l]; [intros []; reflexivity|]. intros _.
  destruct l as [|z l]; [reflexivity|].
  change (removelast (x :: y :: z :: l)) with (x :: removelast (y :: z :: l)).
  change (List.last (x :: y :: z :: l) "") with (List.last (y :: z :: l) "").
  assert (Hne : removelast (y :: z :: l) <> [])
    by (simpl; destruct l; discriminate).
  specialize (IH Hne).
  change (String.concat sep (x :: y :: z :: l))
    with (x +:+ sep +:+ String.concat sep (y :: z :: l)).
  destruct (removelast (y :: z :: l)) as [|u r] eqn:Hr; [congruence|].
  change (String.concat sep (x :: u :: r))
    with (x +:+ sep +:+ String.concat sep (u :: r)).
  rewrite IH. now rewrite !append_assoc.
Qed.

Lemma split_on_pieces (c : ascii) (s : string) :
  Forall (fun piece => Py.split_on c piece = [piece]) (Py.split_on c s).
Proof.
  induction s as [|a s IH]; cbn [Py.split_on].
  { constructor; [reflexivity | constructor]. }
  destruct (Ascii.eqb a c) eqn:Hac.
  { constructor; [reflexivity | exact IH]. }
  destruct (Py.split_on c s) as [|h t]; [constructor; [|constructor]|].
  - cbn [Py.split_on]. now rewrite Hac.
  - apply List.Forall_cons_iff in IH. destruct IH as [Hh Ht].
    constructor; [|exact Ht]. cbn [Py.split_on]. now rewrite Hac, Hh.
Qed.

(** X22. The parent [parent] finds for a directory is the directory of the
    catalog whose name is the name of the child up to its last slash: the
    name of the child is the name of the parent, a slash and a last
    component without a slash.  A directory whose name has no slash has no
    parent. *)
Theorem parent_is_name_prefix (session : Session.t) (d : Directory.t) :
  (forall p,
     parent session d = Some p ->
     exists last,
       Directory.name d = Directory.name p +:+ "/" +:+ last /\
       Py.split_on "/" last = [last] /\
       In p (Session.directories session)) /\
  (Py.split_on "/" (Directory.name d) = [Directory.name d] ->
   parent session d = None).
Proof.
  split.
  - intros p. unfold parent, get_directory_by_name.
    destruct (0 <? length (removelast (Py.split_on "/" (Directory.name d))))%nat
      eqn:Hlen; [|discriminate].
    intros Hfind. apply find_some in Hfind. destruct Hfind as [Hin Heq].
    apply String.eqb_eq in Heq.
    exists (List.last (Py.split_on "/" (Directory.name d)) "").
    assert (Hne : removelast (Py.split_on "/" (Directory.name d)) <> []).
    { apply Nat.ltb_lt in Hlen. destruct (removelast _); [simpl in Hlen; lia|].
      discriminate. }
    split; [|split; [|exact Hin]].
    + rewrite Heq. unfold Py.join. rewrite <- concat_removelast by exact Hne.
      symmetry. apply join_split_on.
    + pose proof (split_on_pieces "/" (Directory.name d)) as Hpieces.
      rewrite List.Forall_forall in Hpieces. apply Hpieces.
      destruct (Py.split_on "/" (Directory.name d)) as [|x l] eqn:Hs;
        [now destruct Hne|].
      destruct (exists_last (l := x :: l) ltac:(discriminate)) as [l' [y Hl]].
      rewrite Hl, last_last. apply in_or_app. right. now left.
  - intros Hone. unfold parent. now rewrite Hone.
Qed.

(** ** Keep-alive *)

Lemma lower_char_idempotent (a : ascii) : lower_char (lower_char a) = lower_char a.
Proof.
  unfold lower_char.
  destruct ((65 <=? nat_of_ascii a) && (nat_of_ascii a <=? 90))%nat eqn:Hup;
    [|now rewrite Hup].
  apply andb_true_iff in Hup. destruct Hup as [Hlo Hhi].
  apply Nat.leb_le in Hlo, Hhi.
  rewrite nat_ascii_embedding by lia.
  replace ((65 <=? nat_of_ascii a + 32) && (nat_of_ascii a + 32 <=? 90))%nat
    with false; [reflexivity|].
  symmetry. apply andb_false_iff. right. apply Nat.leb_gt. lia.
Qed.

Lemma lower_idempotent (s : string) : lower (lower s) = lower s.
Proof.
  induction s as [|a s IH]; [reflexivity|]. cbn [lower].
  now rewrite lower_char_idempotent, IH.
Qed.

Lemma lower_empty (s : string) : String.eqb (lower s) "" = String.eqb s "".
Proof. destruct s; reflexivity. Qed.

Lemma mentions_lower (word : string) (ka : string) :
  mentions word (Some (lower ka)) = mentions word (Some ka).
Proof. unfold mentions. now rewrite lower_empty, lower_idempotent. Qed.

(** X23. [keepalive_ok] reads the header Connection without regard to the
    case of its letters: the header in lower case gives the same answer,
    for every version and every header Keep-Alive. *)
Theorem keepalive_ok_ignores_case (version : Z) (connection : string)
    (keep_alive : option string) :
  keepalive_ok version (Some (lower connection)) keep_alive
  = keepalive_ok version (Some connection) keep_alive.
Proof.
  unfold keepalive_ok, keepalive_ok_protected.
  now rewrite !mentions_lower.
Qed.

Lemma prefix_split (p s : string) :
  String.prefix p s = true -> exists rest, s = p +:+ rest.
Proof.
  revert s. induction p as [|a p IH]; intros s H.
  - now exists s.
  - destruct s as [|b s]; [discriminate|]. cbn [String.prefix] in H.
    destruct (ascii_dec a b) as [->|]; [|discriminate].
    destruct (IH s H) as [rest ->]. now exists rest.
Qed.

Lemma slice_from_0 (s : string) : Py.slice_from 0 s = s.
Proof.
  unfold Py.slice_from. rewrite Nat.sub_0_r.
  induction s as [|a s IH]; [reflexivity|]. cbn [String.length substring].
  now rewrite IH.
Qed.

Lemma slice_from_app (pre s : string) (k : nat) :
  Py.slice_from (String.length pre + k) (pre +:+ s) = Py.slice_from k s.
Proof.
  induction pre as [|a pre IH]; [reflexivity|]. exact IH.
Qed.

Lemma find_substring_split (p s : string) (n : nat) :
  find_substring p s = Some n ->
  exists pre rest,
    s = pre +:+ p +:+ rest /\ String.length pre = n /\
    Py.slice_from (n + String.length p) s = rest.
Proof.
  revert n. induction s as [|a s IH]; intros n H.
  - cbn [find_substring] in H.
    destruct (String.prefix p "") eqn:Hp; [|discriminate].
    injection H as <-. destruct (prefix_split _ _ Hp) as [rest Hs].
    exists "", rest. split; [exact Hs|]. split; [reflexivity|].
    rewrite Hs at 1.
    rewrite <- (Nat.add_0_r (String.length p)) at 1.
    rewrite Nat.add_0_l, slice_from_app. apply slice_from_0.
  - cbn [find_substring] in H.
    destruct (String.prefix p (String a s)) eqn:Hp.
    + injection H as <-. destruct (prefix_split _ _ Hp) as [rest Hs].
      exists "", rest. split; [exact Hs|]. split; [reflexivity|].
      rewrite Hs. rewrite <- (Nat.add_0_r (String.length p)) at 1.
      rewrite Nat.add_0_l, slice_from_app. apply slice_from_0.
    + destruct (find_substring p s) as [n'|]; [|discriminate].
      injection H as <-. destruct (IH n' eq_refl) as [pre [rest [Hs [Hlen Hrest]]]].
      exists (String a pre), rest. split; [now rewrite Hs at 1|].
      split; [cbn [String.length]; now rewrite Hlen|]. exact Hrest.
Qed.

(** X24. What the header Keep-Alive decides.  For a response that is not
    HTTP/1.1 and whose header Connection does not mention keep-alive, the
    connection is kept exactly when the header Keep-Alive has a parameter
    max= and what follows the first max=, to the end of the header, is not
    the one character 1.  A header without max= closes the connection (the
    [ValueError] is swallowed); max=1 closes it only at the very end of the
    header. *)
Theorem keep_alive_header_decides (version : Z) (connection : option string)
    (ka : string) :
  version <> 11 ->
  mentions "keep-alive" connection = false ->
  keepalive_ok version connection (Some ka) = true <->
  exists pre rest,
    ka = pre +:+ "max=" +:+ rest /\
    find_substring "max=" ka = Some (String.length pre) /\
    rest <> "1".
Proof.
  intros Hversion Hconn. unfold keepalive_ok, keepalive_ok_protected.
  replace (version =? 11) with false by lia. rewrite Hconn. split.
  - destruct (find_substring "max=" ka) as [n|] eqn:Hfind; [|discriminate].
    destruct (find_substring_split _ _ _ Hfind) as [pre [rest [Hka [Hlen Hrest]]]].
    cbn [String.length] in Hrest. rewrite Hrest.
    destruct (String.eqb_spec rest "1") as [|Hne]; [discriminate|]. intros _.
    exists pre, rest. split; [exact Hka|]. split; [now rewrite Hlen | exact Hne].
  - intros [pre [rest [Hka [Hfind Hne]]]]. rewrite Hfind.
    replace (Py.slice_from (String.length pre + 4) ka) with rest.
    + now destruct (String.eqb_spec rest "1").
    + rewrite Hka. change 4%nat with (String.length "max=").
      rewrite slice_from_app.
      change (String.length "max=") with (String.length "max=" + 0)%nat.
      rewrite slice_from_app. symmetry. apply slice_from_0.
Qed.

Lemma keep_alive_header_decides_witness :
  10 <> 11 /\ mentions "keep-alive" None = false /\
  keepalive_ok 10 None (Some "max=1, timeout=5") = true.
Proof.
  split; [discriminate|]. split; [reflexivity|].
  apply (proj2 (keep_alive_header_decides 10 None "max=1, timeout=5"
                  ltac:(discriminate) eq_refl)).
  exists "", "1, timeout=5". repeat split. discriminate.
Defined.

(** ** The verdict of the files *)

Lemma check_url_unknown E url filedata readable w :
  Py.startswith url "http:" = true ->
  unknown_at E (World.tick w) ->
  exists keepalive_ok,
    check_url E url filedata 0 readable w
    = (Ret None, head_done E url keepalive_ok w).
Proof.
  intros Hurl Hreply.
  destruct (Hreply url) as [status [cl [loc [ka [Hhead [Hrange [H403 [H404 H410]]]]]]]].
  exists ka. unfold check_url, fuel_for.
  change (4 + 4 * Z.to_nat (11 - 0))%nat with (S (S 46)).
  rewrite check_url_rec_http by exact Hurl.
  rewrite (check_head_rec_response _ _ _ _ _ _ _ _ _ _ _ _ Hhead).
  replace ((status >=? 200) && (status <? 300)) with false by lia.
  replace ((status >=? 300) && (status <? 400)) with false by lia.
  replace ((status >=? 400) && (status <? 500)) with true by lia.
  replace (status =? 403) with false by lia.
  replace ((status =? 404) || (status =? 410)) with false by lia.
  reflexivity.
Qed.

Lemma check_url_served E url filedata readable w :
  Py.startswith url "http:" = true ->
  serves_at E filedata (World.tick w) ->
  check_url E url filedata 0 readable w
  = (Ret (Some true), head_done E url true w).
Proof.
  intros Hurl Hreply. unfold check_url, fuel_for.
  change (4 + 4 * Z.to_nat (11 - 0))%nat with (S (S 46)).
  now apply check_url_rec_served.
Qed.

Lemma try_per_file_loop_last E d url :
  Py.startswith url "http:" = true ->
  forall pre filename filedata exists_ w,
    Forall (fun file => String.eqb (fst file) "repomd.xml" = false)
           (pre ++ [(filename, filedata)]) ->
    (forall n, (World.tick w <= n < World.tick w + length pre)%nat ->
               unknown_at E n) ->
    serves_at E filedata (World.tick w + length pre) ->
    exists w',
      try_per_file_loop E d url (pre ++ [(filename, filedata)]) exists_ w
      = (Ret (Some true), w') /\
      World.tick w' = (World.tick w + length pre + 1)%nat.
Proof.
  intros Hurl. induction pre as [|[name size] pre IH];
    intros filename filedata exists_ w Hnames Hunknown Hserved.
  - cbn [app length] in *. rewrite Nat.add_0_r in *.
    apply List.Forall_cons_iff in Hnames. destruct Hnames as [Hname _].
    cbn [fst] in Hname. cbn [try_per_file_loop].
    unfold bind at 1, try_except, bind at 1.
    rewrite (check_url_served E _ filedata (Directory.readable d) w);
      [|now apply startswith_append | exact Hserved].
    cbn [ret is_false]. rewrite Hname. cbn [try_per_file_loop ret].
    eexists. split; [reflexivity|]. rewrite head_done_tick. lia.
  - cbn [app length] in *.
    apply List.Forall_cons_iff in Hnames. destruct Hnames as [Hname Hnames].
    cbn [fst] in Hname. cbn [try_per_file_loop].
    unfold bind at 1, try_except, bind at 1.
    destruct (check_url_unknown E (url +:+ "/" +:+ name) size
                (Directory.readable d) w) as [ka Hcheck];
      [now apply startswith_append | apply Hunknown; lia|].
    rewrite Hcheck. cbn [ret is_false]. rewrite Hname.
    destruct (IH filename filedata None (head_done E (url +:+ "/" +:+ name) ka w)
                Hnames) as [w' [Hrun Htick]].
    + intros n Hn. rewrite head_done_tick in Hn. apply Hunknown. lia.
    + rewrite head_done_tick.
      now replace (S (World.tick w) + length pre)%nat
        with (World.tick w + S (length pre))%nat by lia.
    + exists w'. split; [exact Hrun|]. rewrite Htick, head_done_tick. lia.
Qed.

(** X25. The verdict of [try_per_file] is that of the last file when no
    file is found missing: for a directory probed over http, none of whose
    files is repomd.xml, when every file but the last gets a reply the
    crawler has no verdict for (a 4xx other than 403, 404 and 410) and the
    last file is found with its size, [try_per_file] returns true, after one
    HEAD request per file.  The unknown files before the last are
    forgotten. *)
Theorem try_per_file_decided_by_last_file (E : Env.t) (d : Directory.t)
    (url : string) (pre : list (string * string)) (filename filedata : string)
    (w : World.t) :
  Directory.files d = Some (pre ++ [(filename, filedata)]) ->
  Py.startswith url "http:" = true ->
  Forall (fun file => String.eqb (fst file) "repomd.xml" = false)
         (pre ++ [(filename, filedata)]) ->
  (forall n, (World.tick w <= n < World.tick w + length pre)%nat ->
             unknown_at E n) ->
  serves_at E filedata (World.tick w + length pre) ->
  fst (try_per_file E d url w) = Ret (Some true) /\
  World.tick (snd (try_per_file E d url w))
  = (World.tick w + length pre + 1)%nat.
Proof.
  intros Hfiles Hurl Hnames Hunknown Hserved. unfold try_per_file.
  rewrite Hfiles.
  destruct (try_per_file_loop_last E d url Hurl pre filename filedata None w
              Hnames Hunknown Hserved) as [w' [-> Htick]].
  split; [reflexivity | exact Htick].
Qed.

Lemma try_per_file_decided_by_last_file_witness :
  let E := Ex.remote Ex.seconds
             (fun n _ => if (n =? 0)%nat
                         then HttpResponse 401 None None true
                         else HttpResponse 200 (Some "5") None true)
             Ex.ftp_busy in
  let d := Ex.dir 7 "pub/fedora/22" true [("a.iso", "100"); ("c.iso", "5")] in
  fst (try_per_file E d "http://m.example/fedora/22" World.init) = Ret (Some true).
Proof.
  refine (proj1 (try_per_file_decided_by_last_file
                   (Ex.remote Ex.seconds
                      (fun n _ => if (n =? 0)%nat
                                  then HttpResponse 401 None None true
                                  else HttpResponse 200 (Some "5") None true)
                      Ex.ftp_busy)
                   (Ex.dir 7 "pub/fedora/22" true [("a.iso", "100"); ("c.iso", "5")])
                   "http://m.example/fedora/22" [("a.iso", "100")] "c.iso" "5"
                   World.init eq_refl eq_refl _ _ _)).
  - repeat constructor.
  - intros n Hn url. cbn [World.tick World.init length] in Hn.
    assert (n = 0%nat) as -> by lia.
    exists 401, None, None, true. repeat split; try lia; discriminate.
  - intros url. reflexivity.
Defined.

(** ** The checksum of repomd.xml *)

(** X26. For the file repomd.xml the size is not the last word.  In a
    directory whose only file is repomd.xml, once the check of the URL has
    found the file, [try_per_file] fetches it and compares its SHA-256 with
    the file details of the directory: the directory is up to date when a
    detail of repomd.xml has that checksum and not up to date when none has;
    and when the file cannot be fetched the failure is ignored and the
    verdict of the check stands. *)
Theorem repomd_checksum_decides (E : Env.t) (d : Directory.t)
    (url filedata : string) (w w1 : World.t) :
  let graburl := url +:+ "/" +:+ "repomd.xml" in
  Directory.files d = Some [("repomd.xml", filedata)] ->
  check_url E graburl filedata 0 (Directory.readable d) w = (Ret (Some true), w1) ->
  try_per_file E d url w
  = (Ret (Some match Env.urlread E (World.tick w1) graburl with
               | Some body =>
                   existsb
                     (fun fd =>
                        String.eqb (FileDetail.filename fd) "repomd.xml" &&
                        match FileDetail.sha256 fd with
                        | Some h => String.eqb h (Env.sha256_hexdigest E body)
                        | None => false
                        end)
                     (Directory.fileDetails d)
               | None => true
               end),
     World.next [EvUrlread graburl] w1).
Proof.
  intros graburl Hfiles Hcheck. unfold try_per_file. rewrite Hfiles.
  cbn [try_per_file_loop]. fold graburl.
  unfold bind at 1, try_except at 1, bind at 1. rewrite Hcheck.
  cbn [ret is_false String.eqb Ascii.eqb Bool.eqb].
  unfold compare_sha256, bind, try_except, interact. cbn [fst snd].
  destruct (Env.urlread E (World.tick w1) graburl) as [body|]; [|reflexivity].
  cbn [ret]. now destruct (existsb _ _).
Qed.

Lemma repomd_checksum_decides_witness :
  let E := {| Env.clock := Ex.seconds; Env.utcnow := fun n => 0;
              Env.http_head := fun _ _ => HttpResponse 200 (Some "3") None true;
              Env.ftp_list := Ex.ftp_busy;
              Env.rsync := fun _ _ => RsyncRaises;
              Env.urlread := fun _ _ => Some "new";
              Env.sha256_hexdigest := fun s => s;
              Env.urlsplit := Ex.urlsplit |} in
  let d := {| Directory.id := 8; Directory.name := "pub/fedora/20/repodata";
              Directory.readable := true;
              Directory.files := Some [("repomd.xml", "3")];
              Directory.fileDetails :=
                [{| FileDetail.filename := "repomd.xml";
                    FileDetail.sha256 := Some "old" |}] |} in
  fst (try_per_file E d "http://m.example/fedora/20/repodata" World.init)
  = Ret (Some false).
Proof.
  intros E d.
  exact (f_equal fst
           (repomd_checksum_decides E d "http://m.example/fedora/20/repodata" "3"
              World.init _ eq_refl eq_refl)).
Defined.

(** ** The verdicts of the rsync probe *)

Lemma only_nulls_added_keeps m m' hc d :
  only_nulls_added m m' ->
  (vm_lookup hc d m <> None -> vm_lookup hc d m' <> None) /\
  (forall b, vm_lookup hc d m = Some (Some b) -> vm_lookup hc d m' = Some (Some b)).
Proof.
  intros H. destruct (H hc d) as [->|[Hnone Hnull]]; [auto|].
  split; [congruence|]. intros b Hb. congruence.
Qed.

Lemma vm_set_keeps hc d v hc' d' m :
  vm_lookup hc' d' m <> None -> vm_lookup hc' d' (vm_set hc d v m) <> None.
Proof.
  intros H. destruct (decide (key_ids hc d = key_ids hc' d')) as [Heq|Hne].
  - rewrite <- (vm_lookup_ids hc d hc' d') by exact Heq.
    rewrite vm_lookup_set_same. discriminate.
  - now rewrite vm_lookup_set_other.
Qed.

(** The loop of the rsync probe: entries stay, verdicts true or false of
    directories that stay readable stay true or false, and every directory
    of the loop gets an entry. *)
Lemma rsync_dirs_decides E options rsync categoryPrefixLen hc trydirs :
  forall m st m',
    fst (rsync_dirs E options rsync categoryPrefixLen hc trydirs m st) = Ret m' ->
    (forall hc' d', vm_lookup hc' d' m <> None -> vm_lookup hc' d' m' <> None) /\
    (forall d, readable_in trydirs d ->
               (exists b, vm_lookup hc d m = Some (Some b)) ->
               exists b, vm_lookup hc d m' = Some (Some b)) /\
    (forall row d,
       In row trydirs -> HostCategoryDir.directory row = Some d ->
       vm_lookup hc d m' <> None /\
       (readable_in trydirs d -> exists b, vm_lookup hc d m' = Some (Some b))).
Proof.
  induction trydirs as [|row0 trydirs IH]; intros m st m'; cbn [rsync_dirs].
  { intros Hret. injection Hret as <-.
    split; [auto|]. split; [auto|]. intros row d []. }
  unfold bind at 1.
  destruct (in_timer (timeout_check E options) st) as [[[]|e|] st1];
    cbn [fst]; [|discriminate..].
  destruct (HostCategoryDir.directory row0) as [d0|] eqn:Hd0; [|discriminate].
  assert (Hstep : forall v m1 st2,
             (Directory.readable d0 = true -> exists b, v = Some b) ->
             only_nulls_added (vm_set hc d0 v m) m1 ->
             fst (rsync_dirs E options rsync categoryPrefixLen hc trydirs m1 st2)
             = Ret m' ->
             (forall hc' d', vm_lookup hc' d' m <> None ->
                             vm_lookup hc' d' m' <> None) /\
             (forall d, readable_in (row0 :: trydirs) d ->
                        (exists b, vm_lookup hc d m = Some (Some b)) ->
                        exists b, vm_lookup hc d m' = Some (Some b)) /\
             (forall row d,
                In row (row0 :: trydirs) ->
                HostCategoryDir.directory row = Some d ->
                vm_lookup hc d m' <> None /\
                (readable_in (row0 :: trydirs) d ->
                 exists b, vm_lookup hc d m' = Some (Some b)))).
  { intros v m1 st2 Hv Hadded Hret.
    destruct (IH m1 st2 m' Hret) as [HA [HB HC]].
    assert (Hrest : forall d, readable_in (row0 :: trydirs) d ->
                              readable_in trydirs d).
    { intros d Hd row d' Hin. apply Hd. now right. }
    assert (Hhere : forall d,
               readable_in (row0 :: trydirs) d ->
               Directory.id d = Directory.id d0 ->
               exists b, vm_lookup hc d m1 = Some (Some b)).
    { intros d Hd Hid.
      destruct (Hv (Hd row0 d0 (or_introl eq_refl) Hd0 (eq_sym Hid))) as [b ->].
      exists b. apply (only_nulls_added_keeps _ _ hc d Hadded).
      rewrite (vm_lookup_ids hc d hc d0) by (unfold key_ids; congruence).
      apply vm_lookup_set_same. }
    split; [|split].
    - intros hc' d' Hin. apply HA.
      apply (only_nulls_added_keeps _ _ hc' d' Hadded). now apply vm_set_keeps.
    - intros d Hd [b Hb]. apply HB; [now apply Hrest|].
      destruct (decide (Directory.id d = Directory.id d0)) as [Hid|Hne];
        [now apply Hhere|].
      exists b. apply (only_nulls_added_keeps _ _ hc d Hadded).
      rewrite vm_lookup_set_other; [exact Hb|].
      unfold key_ids. congruence.
    - intros row d [<-|Hin] Hd.
      + assert (d = d0) by congruence. subst d. split.
        * apply HA. apply (only_nulls_added_keeps _ _ hc d0 Hadded).
          rewrite vm_lookup_set_same. discriminate.
        * intros Hreadable. apply HB; [now apply Hrest|].
          now apply Hhere.
      + destruct (HC row d Hin Hd) as [Hmem Hdef]. split; [exact Hmem|].
        intros Hreadable. apply Hdef. now apply Hrest. }
  destruct (Directory.readable d0) eqn:Hreadable; cbn [negb].
  - destruct (Directory.files d0) as [files|]; [|discriminate].
    destruct (rsync_all_files _ _ _); cbn [negb].
    + unfold bind at 1.
      destruct (add_parents_rec_spec (S (String.length (Directory.name d0)))
                  (State.session st1) hc (vm_set hc d0 (Some true) m) d0
                  ltac:(lia)) as [m1 [Hrec [_ Hadded]]].
      unfold add_parents at 1. rewrite Hrec. intros Hret.
      apply (Hstep (Some true) m1 st1); [eauto | exact Hadded | exact Hret].
    + intros Hret.
      apply (Hstep (Some false) (vm_set hc d0 (Some false) m) st1);
        [eauto | apply only_nulls_added_refl | exact Hret].
  - intros Hret.
    apply (Hstep None (vm_set hc d0 None m) st1);
      [discriminate | apply only_nulls_added_refl | exact Hret].
Qed.

(** X27. When the rsync probe of a category returns true, every directory
    of the category has an entry in the verdict map, and a directory that is
    readable (in all the rows of the category that have it) has the verdict
    true or false there, not null; no entry the map had is lost. *)
Theorem rsync_probe_decides_every_directory (E : Env.t)
    (trydirs : list HostCategoryDir.t) (url : string) (m m' : verdicts)
    (hc : HostCategory.t) (host : Host.t) (categoryPrefixLen : nat)
    (options : Options.t) (config : Config.t) (st : State.t) :
  fst (try_per_category E trydirs url m hc host categoryPrefixLen options config st)
  = Ret (Some true, m') ->
  (forall row d,
     In row trydirs -> HostCategoryDir.directory row = Some d ->
     vm_lookup hc d m' <> None /\
     (readable_in trydirs d -> exists b, vm_lookup hc d m' = Some (Some b))) /\
  (forall hc' d', vm_lookup hc' d' m <> None -> vm_lookup hc' d' m' <> None).
Proof.
  unfold try_per_category.
  destruct (negb (Py.startswith url "rsync")); [discriminate|].
  unfold bind at 1.
  destruct (in_world (interact _ _) st) as [[[|result listing]|e|] st1];
    cbn [fst]; try discriminate.
  destruct (result =? 10); [discriminate|].
  destruct (size _ =? 0)%nat; [discriminate|].
  unfold bind at 1.
  pose proof (rsync_dirs_decides E options (rsync_listing listing ∅)
                categoryPrefixLen hc trydirs m st1) as Hdecides.
  destruct (rsync_dirs E options (rsync_listing listing ∅) categoryPrefixLen hc
              trydirs m st1) as [[m1|e|] st2]; cbn [fst] in *; try discriminate.
  destruct (Hdecides m1 eq_refl) as [HA [_ HC]].
  destruct (0 <? length m1)%nat.
  - intros Hret. injection Hret as <-. split; [exact HC | exact HA].
  - unfold bind.
    destruct (mark_not_up2date E config host no_hcds_reason st2) as [[[]|e|] st3];
      discriminate.
Qed.

Lemma rsync_probe_decides_every_directory_witness :
  let E := {| Env.clock := Ex.seconds; Env.utcnow := fun n => 0;
              Env.http_head := Ex.head_ok; Env.ftp_list := Ex.ftp_busy;
              Env.rsync := fun _ _ =>
                RsyncReturns 0 ["-rw-r--r-- 100 2014/01/01 00:00:00 20/a.iso"];
              Env.urlread := fun _ _ => None;
              Env.sha256_hexdigest := fun s => s;
              Env.urlsplit := Ex.urlsplit |} in
  let hc := Ex.hc ["rsync://m.example/fedora"] in
  let host := Ex.host ["rsync://m.example/fedora"] in
  let m' := [(hc, Ex.d20, Some true); (hc, Ex.topdir, None)] in
  fst (try_per_category E [Ex.hcd "20" Ex.d20 None] "rsync://m.example/fedora" []
                        hc host 11 (Ex.options [] 120) Ex.config
                        (Ex.state host [Ex.hcd "20" Ex.d20 None]))
  = Ret (Some true, m') /\
  vm_lookup hc Ex.d20 m' <> None.
Proof.
  intros E hc host m'. split; [reflexivity|].
  exact (proj1 (proj1 (rsync_probe_decides_every_directory
                         E [Ex.hcd "20" Ex.d20 None] "rsync://m.example/fedora"
                         [] m' hc host 11 (Ex.options [] 120) Ex.config
                         (Ex.state host [Ex.hcd "20" Ex.d20 None]) eq_refl)
                      (Ex.hcd "20" Ex.d20 None) Ex.d20 (or_introl eq_refl) eq_refl)).
Defined.
